(** * modpack-helper: a shallow embedding of [modpack-helper.py]

    The script updates a Minecraft modpack installation: it reads the
    manifest of a pack archive, downloads the mods with a thread pool into a
    temporary store, backs up the [mods] and [config] directories of the
    installation, optionally runs the Forge installer, copies the store and
    the archive's overrides into the installation and optionally copies the
    old configuration back.

    The development models the Python code over
    - [PurePath]: the part of [pathlib] the script uses (POSIX flavour);
    - [Fs]: a POSIX file tree with regular files, directories and symbolic
      links, and the system calls the script reaches through [os], [shutil]
      and [pathlib];
    - a state-and-exception monad over a [world] holding the file tree, the
      log, the network trace and the subprocess calls;
    - a thread pool whose interleavings are given by a schedule.

    Strings are byte strings (UTF-8), so the order of [String.compare] is the
    code point order Python uses. *)

From Stdlib Require Import List String Ascii Bool Arith ZArith Lia.
Import ListNotations.
Local Open Scope string_scope.
Local Open Scope list_scope.
Local Open Scope nat_scope.

Set Implicit Arguments.
Set Warnings "-register-all".

(** ** Strings *)

Module Str.

(** [s.split(sep)] for a one-character separator. *)
Fixpoint split_acc (sep : ascii) (cur : string) (s : string) : list string :=
  match s with
  | EmptyString => [cur]
  | String c s' =>
      if Ascii.eqb c sep then cur :: split_acc sep "" s'
      else split_acc sep (cur ++ String c "")%string s'
  end.

Definition split (sep : ascii) (s : string) : list string :=
  split_acc sep "" s.

(** [sep.join(l)] *)
Definition join (sep : string) (l : list string) : string :=
  String.concat sep l.

(** [s.startswith(p)] *)
Definition startswith (s p : string) : bool := String.prefix p s.

(** [s.replace(old, new)] for a non-empty [old]: all non-overlapping
    occurrences, leftmost first. *)
Fixpoint replace_fuel (fuel : nat) (old new s : string) : string :=
  match fuel with
  | O => s
  | S fuel' =>
      match s with
      | EmptyString => EmptyString
      | String c s' =>
          if String.prefix old s
          then (new ++ replace_fuel fuel' old new
                         (String.substring (String.length old)
                            (String.length s - String.length old) s))%string
          else String c (replace_fuel fuel' old new s')
      end
  end.

Definition replace (old new s : string) : string :=
  replace_fuel (S (String.length s)) old new s.

(** [s.rfind(c)]: the index of the last occurrence of the character. *)
Fixpoint rfind_from (i : nat) (c : ascii) (s : string) : option nat :=
  match s with
  | EmptyString => None
  | String d s' =>
      match rfind_from (S i) c s' with
      | Some j => Some j
      | None => if Ascii.eqb c d then Some i else None
      end
  end.

Definition rfind (c : ascii) (s : string) : option nat := rfind_from 0 c s.

(** [s.rstrip()] removes trailing white space. *)
Definition is_space (c : ascii) : bool :=
  let n := nat_of_ascii c in
  (n =? 32) || ((9 <=? n) && (n <=? 13)) || ((28 <=? n) && (n <=? 31)).

Fixpoint rstrip (s : string) : string :=
  match s with
  | EmptyString => EmptyString
  | String c s' =>
      match rstrip s' with
      | EmptyString => if is_space c then EmptyString else String c EmptyString
      | r => String c r
      end
  end.

Definition nonempty (s : string) : bool :=
  match s with EmptyString => false | _ => true end.

End Str.

(** ** pathlib.PurePosixPath

    A path is the list of its [parts]; an absolute path starts with the part
    ["/"] (or ["//"] for exactly two leading slashes). *)

Module PurePath.

Definition t := list string.

Definition slash : ascii := "/"%char.

Fixpoint lstrip_slash (s : string) : string :=
  match s with
  | String c s' => if Ascii.eqb c slash then lstrip_slash s' else s
  | EmptyString => EmptyString
  end.

(** [_PosixFlavour.splitroot] *)
Definition splitroot (part : string) : string * string :=
  match part with
  | String c _ =>
      if Ascii.eqb c slash then
        let stripped := lstrip_slash part in
        if String.length part - String.length stripped =? 2
        then ("//", stripped) else ("/", stripped)
      else ("", part)
  | EmptyString => ("", part)
  end.

Definition keep_part (x : string) : bool :=
  Str.nonempty x && negb (String.eqb x ".").

(** [Path(s)]: [parse_parts] for one string argument. *)
Definition parse (s : string) : t :=
  match s with
  | EmptyString => []
  | _ =>
      let '(root, rel) := splitroot s in
      let parts := filter keep_part (Str.split slash rel) in
      if Str.nonempty root then root :: parts else parts
  end.

Definition is_root_part (x : string) : bool :=
  String.eqb x "/" || String.eqb x "//".

Definition is_absolute (p : t) : bool :=
  match p with
  | x :: _ => is_root_part x
  | [] => false
  end.

(** [p / q] ([join_parsed_parts]): an absolute right operand wins. *)
Definition join (p q : t) : t :=
  if is_absolute q then q else p ++ q.

(** [p.name] *)
Definition name (p : t) : string :=
  match rev p with
  | [] => ""
  | x :: rest =>
      match rest with
      | [] => if is_root_part x then "" else x
      | _ => x
      end
  end.

(** [p.suffix] *)
Definition suffix (p : t) : string :=
  let n := name p in
  match Str.rfind "."%char n with
  | Some i =>
      if (0 <? i) && (i <? String.length n - 1)
      then String.substring i (String.length n - i) n
      else ""
  | None => ""
  end.

(** [p.with_suffix(suf)]; [None] is the ValueError of an empty name. *)
Definition with_suffix (p : t) (suf : string) : option t :=
  let n := name p in
  if Str.nonempty n then
    let old := suffix p in
    let n' := (String.substring 0 (String.length n - String.length old) n ++ suf)%string in
    Some (removelast p ++ [n'])
  else None.

(** The order of [_cparts]: Python's list order over the string order. *)
Fixpoint compare (a b : t) : comparison :=
  match a, b with
  | [], [] => Eq
  | [], _ :: _ => Lt
  | _ :: _, [] => Gt
  | x :: a', y :: b' =>
      match String.compare x y with
      | Eq => compare a' b'
      | c => c
      end
  end.

(** [a > b] *)
Definition gtb (a b : t) : bool :=
  match compare a b with Gt => true | _ => false end.

(** [str(p)] *)
Definition to_string (p : t) : string :=
  match p with
  | [] => "."
  | x :: rest =>
      if is_root_part x then (x ++ Str.join "/" rest)%string else Str.join "/" p
  end.

Fixpoint prefixb (a b : t) : bool :=
  match a, b with
  | [], _ => true
  | x :: a', y :: b' => String.eqb x y && prefixb a' b'
  | _ :: _, [] => false
  end.

(** [root in p.parents]: [p] lies strictly below [root]. *)
Definition is_under (root p : t) : bool :=
  prefixb root p && (List.length root <? List.length p).

End PurePath.

(** ** The selection of the overrides (run, line 217)

    [todo = [entry for entry in modpack.namelist() if Path(entry) > overrides]] *)

Definition select_overrides (namelist : list string) (overrides : PurePath.t)
  : list string :=
  filter (fun entry => PurePath.gtb (PurePath.parse entry) overrides) namelist.

(** ** Exceptions and results *)

Inductive errno :=
| ENOENT      (* FileNotFoundError *)
| ENOTDIR     (* NotADirectoryError *)
| EISDIR      (* IsADirectoryError *)
| EEXIST      (* FileExistsError *)
| ELOOP
| ENOTEMPTY
| EINVAL
| ESAMEFILE   (* shutil.SameFileError *)
| ERMLINK.    (* shutil.rmtree called on a symbolic link *)

Inductive exn :=
| HTTPError (code : Z) (url : string)
| URLError (reason : string)
| OSError (e : errno)
| KeyError (key : string)
| TypeError (what : string)
| ValueError (what : string)
| BadZipFile
| CalledProcessError (returncode : Z).

(** The result of a call: a value, a raised exception, or a model that ran
    out of recursion fuel (only [copytree] recurses without a structural
    argument). *)
Inductive outcome (A : Type) :=
| Ok (a : A)
| Raise (e : exn)
| OutOfFuel.

Arguments Ok {A} a.
Arguments Raise {A} e.
Arguments OutOfFuel {A}.

(** ** The file tree and its system calls *)

Module Fs.

Inductive node :=
| File (data : string)
| Dir (entries : list (string * node))
| Symlink (target : string).

(** A path handed to the operating system: the components below the root
    directory, in order; it may contain [".."]. *)
Definition ospath := list string.

Fixpoint child (es : list (string * node)) (x : string) : option node :=
  match es with
  | [] => None
  | (y, n) :: es' => if String.eqb x y then Some n else child es' x
  end.

Fixpoint put (es : list (string * node)) (x : string) (n : node)
  : list (string * node) :=
  match es with
  | [] => [(x, n)]
  | (y, m) :: es' =>
      if String.eqb x y then (x, n) :: es' else (y, m) :: put es' x n
  end.

Definition del (es : list (string * node)) (x : string)
  : list (string * node) :=
  filter (fun e => negb (String.eqb x (fst e))) es.

(** The node at a path of plain names, descending through directories
    only. *)
Fixpoint lookup (n : node) (p : list string) : option node :=
  match p with
  | [] => Some n
  | x :: p' =>
      match n with
      | Dir es =>
          match child es x with
          | Some m => lookup m p'
          | None => None
          end
      | _ => None
      end
  end.

(** Set ([Some]) or remove ([None]) the node at a path whose parent is a
    directory; the tree is unchanged otherwise. *)
Fixpoint update (n : node) (p : list string) (v : option node) : node :=
  match p with
  | [] => match v with Some m => m | None => n end
  | x :: p' =>
      match n with
      | Dir es =>
          match p' with
          | [] => Dir (match v with Some m => put es x m | None => del es x end)
          | _ :: _ =>
              match child es x with
              | Some c => Dir (put es x (update c p' v))
              | None => n
              end
          end
      | _ => n
      end
  end.

Definition is_dir (o : option node) : bool :=
  match o with Some (Dir _) => true | _ => false end.

Definition is_file (o : option node) : bool :=
  match o with Some (File _) => true | _ => false end.

Definition is_some (o : option node) : bool :=
  match o with Some _ => true | None => false end.

(** *** Path resolution *)

(** Linux follows at most 40 symbolic links in one resolution. *)
Definition max_links : nat := 40.

Definition target_absolute (t : string) : bool := Str.startswith t "/".

(** [walk fs budget follow cur p] resolves [p] from the directory [cur]
    (a resolved path) and returns the resolved path of the last component,
    which need not exist; [follow] tells whether a symbolic link in the
    last position is followed. *)
Fixpoint walk (fs : node) (budget : nat) {struct budget}
  : bool -> list string -> ospath -> errno + list string :=
  fix go (follow : bool) (cur : list string) (p : ospath) {struct p}
    : errno + list string :=
    match p with
    | [] => inr cur
    | x :: rest =>
        if String.eqb x ".." then go follow (removelast cur) rest
        else if String.eqb x "." || String.eqb x "" then go follow cur rest
        else
          match lookup fs (cur ++ [x]) with
          | None =>
              match rest with [] => inr (cur ++ [x]) | _ :: _ => inl ENOENT end
          | Some (File _) =>
              match rest with [] => inr (cur ++ [x]) | _ :: _ => inl ENOTDIR end
          | Some (Dir _) => go follow (cur ++ [x]) rest
          | Some (Symlink t) =>
              match rest, follow with
              | [], false => inr (cur ++ [x])
              | _, _ =>
                  match budget with
                  | O => inl ELOOP
                  | S b =>
                      walk fs b follow
                        (if target_absolute t then [] else cur)
                        (Str.split "/" t ++ rest)
                  end
              end
          end
    end.

Definition resolve (fs : node) (follow : bool) (p : ospath) : errno + list string :=
  walk fs max_links follow [] p.

(** [os.stat] and [os.lstat]: the resolved path and the node there. *)
Definition stat_gen (follow : bool) (fs : node) (p : ospath)
  : errno + (list string * node) :=
  match resolve fs follow p with
  | inl e => inl e
  | inr c =>
      match lookup fs c with
      | Some n => inr (c, n)
      | None => inl ENOENT
      end
  end.

Definition stat := stat_gen true.
Definition lstat := stat_gen false.

(** [os.path.exists], [Path.exists] *)
Definition exists_ (fs : node) (p : ospath) : bool :=
  match stat fs p with inr _ => true | inl _ => false end.

(** [os.path.isdir] *)
Definition isdir (fs : node) (p : ospath) : bool :=
  match stat fs p with inr (_, Dir _) => true | _ => false end.

(** [os.path.islink] *)
Definition islink (fs : node) (p : ospath) : bool :=
  match lstat fs p with inr (_, Symlink _) => true | _ => false end.

(** [os.listdir] *)
Definition listdir (fs : node) (p : ospath) : errno + list string :=
  match stat fs p with
  | inl e => inl e
  | inr (_, Dir es) => inr (map fst es)
  | inr (_, _) => inl ENOTDIR
  end.

(** [os.mkdir] *)
Definition mkdir (fs : node) (p : ospath) : errno + node :=
  match resolve fs false p with
  | inl e => inl e
  | inr c =>
      match lookup fs c with
      | Some _ => inl EEXIST
      | None => inr (update fs c (Some (Dir [])))
      end
  end.

(** [open(p, "wb")]: create or truncate; the result is the new tree and
    the resolved path of the file, which stands for the file object. *)
Definition open_wb (fs : node) (p : ospath) : errno + (node * list string) :=
  match resolve fs true p with
  | inl e => inl e
  | inr c =>
      match lookup fs c with
      | Some (Dir _) => inl EISDIR
      | Some (Symlink _) => inl ELOOP
      | Some (File _) | None => inr (update fs c (Some (File "")), c)
      end
  end.

(** [f.write(data)] on a file object: append to the file. *)
Definition write (fs : node) (f : list string) (data : string) : node :=
  match lookup fs f with
  | Some (File old) => update fs f (Some (File (old ++ data)%string))
  | _ => fs
  end.

(** [open(p, "rb").read()] *)
Definition read_file (fs : node) (p : ospath) : errno + string :=
  match stat fs p with
  | inl e => inl e
  | inr (_, File data) => inr data
  | inr (_, Dir _) => inl EISDIR
  | inr (_, Symlink _) => inl ELOOP
  end.

Fixpoint list_eqb (a b : list string) : bool :=
  match a, b with
  | [], [] => true
  | x :: a', y :: b' => String.eqb x y && list_eqb a' b'
  | _, _ => false
  end.

(** [os.replace] (rename(2)): the last components are not followed. *)
Definition rename (fs : node) (src dst : ospath) : errno + node :=
  match resolve fs false src, resolve fs false dst with
  | inl e, _ => inl e
  | _, inl e => inl e
  | inr cs, inr cd =>
      match lookup fs cs with
      | None => inl ENOENT
      | Some ns =>
          if list_eqb cs cd then inr fs
          else if PurePath.prefixb cs cd then inl EINVAL
          else
            let move := inr (update (update fs cs None) cd (Some ns)) in
            match lookup fs cd, ns with
            | None, _ => move
            | Some (Dir []), Dir _ => move
            | Some (Dir (_ :: _)), Dir _ => inl ENOTEMPTY
            | Some (Dir _), _ => inl EISDIR
            | Some _, Dir _ => inl ENOTDIR
            | Some _, _ => move
            end
      end
  end.

(** [shutil.rmtree] *)
Definition rmtree (fs : node) (p : ospath) : errno + node :=
  match lstat fs p with
  | inl e => inl e
  | inr (_, Symlink _) => inl ERMLINK
  | inr (_, File _) => inl ENOTDIR
  | inr (c, Dir _) =>
      match c with
      | [] => inl EINVAL
      | _ :: _ => inr (update fs c None)
      end
  end.

(** [os.unlink] *)
Definition unlink (fs : node) (p : ospath) : errno + node :=
  match lstat fs p with
  | inl e => inl e
  | inr (_, Dir _) => inl EISDIR
  | inr (c, _) => inr (update fs c None)
  end.

(** [os.symlink(target, p)] *)
Definition symlink (fs : node) (target : string) (p : ospath) : errno + node :=
  match resolve fs false p with
  | inl e => inl e
  | inr c =>
      match lookup fs c with
      | Some _ => inl EEXIST
      | None => inr (update fs c (Some (Symlink target)))
      end
  end.

(** [os.path.samefile] as [shutil] uses it: false when a stat fails. *)
Definition samefile (fs : node) (a b : ospath) : bool :=
  match stat fs a, stat fs b with
  | inr (ca, _), inr (cb, _) => list_eqb ca cb
  | _, _ => false
  end.

(** The path the operating system sees for a [PurePath], from the working
    directory [cwd]. *)
Definition of_path (cwd : ospath) (p : PurePath.t) : ospath :=
  match p with
  | x :: rest => if PurePath.is_root_part x then rest else cwd ++ p
  | [] => cwd
  end.

End Fs.

(** ** The manifest and the command line *)

(** An entry of [manifest['files']]; the values are rendered as [format]
    prints them, a missing key is [None]. *)
Record mod_spec := {
  projectID : option string;
  fileID : option string
}.

(** An entry of [manifest['directDownload']]. *)
Record direct_entry := {
  url : option string;
  filename : option string
}.

Record mod_loader := { id : option string }.

Record mc_spec := {
  version : option string;
  modLoaders : option (list mod_loader)
}.

Record manifest := {
  name : option string;
  pack_version : option string;
  files : option (list mod_spec);
  directDownload : option (list direct_entry);
  minecraft : option mc_spec;
  overrides : option string
}.

(** The parsed command line ([parser.parse_args()]); [exclude] holds the
    lines of the opened file. *)
Record arguments := {
  pack_path : string;
  dest : string;
  threads : Z;
  keep_forge : bool;
  keep_config : bool;
  forge_symlink : string;
  exclude : option (list string)
}.

Definition curseforge_mod_url (projectID : string) : string :=
  ("http://minecraft.curseforge.com/mc-mods/" ++ projectID)%string.

Definition curseforge_download_path (fileID : string) : string :=
  ("files/" ++ fileID ++ "/download")%string.

Definition forge_installer_url (version : string) : string :=
  ("http://files.minecraftforge.net/maven/net/minecraftforge/forge/" ++ version
   ++ "/forge-" ++ version ++ "-installer.jar")%string.

(** ** The world and the monad of the script *)

Inductive level := DEBUG | INFO | WARNING | ERROR.

Inductive logarg :=
| AStr (s : string)
| ASpec (m : mod_spec)
| AEntry (e : direct_entry)
| AMinecraft (m : option mc_spec)
| AKey (key : string).   (* [manifest.get(key)] for a key the model does not hold *)

(** A call to the logger: the level, the format string of the source and
    the values formatted into it. *)
Record log_record := {
  log_level : level;
  log_template : string;
  log_args : list logarg
}.

Inductive net_event :=
| Request (method : string) (url : string)   (* urlopen *)
| Body (url : string).                       (* the body was read *)

(** An open connection: the location after the redirections, the bytes the
    server delivers and the error that ends the transfer, if any. *)
Record response := {
  resp_url : string;
  payload : string;
  failure : option exn
}.

Record proc_call := {
  argv : list string;
  proc_cwd : string
}.

Record world := {
  fs : Fs.node;
  log : list log_record;
  net : list net_event;
  procs : list proc_call
}.

Definition set_fs (w : world) (t : Fs.node) : world :=
  {| fs := t; log := log w; net := net w; procs := procs w |}.

Definition add_log (w : world) (r : log_record) : world :=
  {| fs := fs w; log := log w ++ [r]; net := net w; procs := procs w |}.

Definition add_net (w : world) (e : net_event) : world :=
  {| fs := fs w; log := log w; net := net w ++ [e]; procs := procs w |}.

Definition add_proc (w : world) (c : proc_call) : world :=
  {| fs := fs w; log := log w; net := net w; procs := procs w ++ [c] |}.

Definition M (A : Type) : Type := world -> outcome A * world.

Definition ret {A : Type} (a : A) : M A := fun w => (Ok a, w).

Definition bind {A B : Type} (m : M A) (k : A -> M B) : M B :=
  fun w =>
    match m w with
    | (Ok a, w') => k a w'
    | (Raise e, w') => (Raise e, w')
    | (OutOfFuel, w') => (OutOfFuel, w')
    end.

Definition raise {A : Type} (e : exn) : M A := fun w => (Raise e, w).

Definition out_of_fuel {A : Type} : M A := fun w => (OutOfFuel, w).

(** [try: m except: h] *)
Definition try_except {A : Type} (m : M A) (h : exn -> M A) : M A :=
  fun w =>
    match m w with
    | (Raise e, w') => h e w'
    | r => r
    end.

Declare Scope monad_scope.
Delimit Scope monad_scope with monad.
Notation "x <- m ;; k" := (bind m (fun x => k))
  (at level 61, m at next level, right associativity) : monad_scope.
Notation "m ;; k" := (bind m (fun _ => k))
  (at level 61, right associativity) : monad_scope.
Notation "' pat <- m ;; k" := (bind m (fun x => match x with pat => k end))
  (at level 61, pat pattern, m at next level, right associativity) : monad_scope.
Local Open Scope monad_scope.

(** A system call that changes the tree. *)
Definition sys (f : Fs.node -> errno + Fs.node) : M unit :=
  fun w =>
    match f (fs w) with
    | inl e => (Raise (OSError e), w)
    | inr t => (Ok tt, set_fs w t)
    end.

(** A system call that reads the tree. *)
Definition ask {A : Type} (f : Fs.node -> errno + A) : M A :=
  fun w =>
    match f (fs w) with
    | inl e => (Raise (OSError e), w)
    | inr a => (Ok a, w)
    end.

Definition test (f : Fs.node -> bool) : M bool := fun w => (Ok (f (fs w)), w).

Definition logger (l : level) (template : string) (args : list logarg) : M unit :=
  fun w => (Ok tt, add_log w {| log_level := l; log_template := template; log_args := args |}).

Fixpoint for_each {A : Type} (l : list A) (body : A -> M unit) : M unit :=
  match l with
  | [] => ret tt
  | x :: l' => body x ;; for_each l' body
  end.

(** [dict[key]] *)
Definition item {A : Type} (key : string) (o : option A) : M A :=
  match o with
  | Some a => ret a
  | None => raise (KeyError key)
  end.

(** [os.makedirs(p)] with [exist_ok=False]. The argument is the reversed
    path, so that the recursion on the parent is structural. *)
Fixpoint makedirs_rev (rp : list string) : M unit :=
  match rp with
  | [] => sys (fun t => Fs.mkdir t [])
  | _ :: rhead =>
      head_exists <- test (fun t => Fs.exists_ t (rev rhead)) ;;
      (if head_exists then ret tt
       else try_except (makedirs_rev rhead)
              (fun e => match e with
                        | OSError EEXIST => ret tt
                        | _ => raise e
                        end)) ;;
      sys (fun t => Fs.mkdir t (rev rp))
  end.

Definition makedirs (p : Fs.ospath) : M unit := makedirs_rev (rev p).

(** [Path.mkdir(parents=True)] *)
Fixpoint mkdir_parents_rev (exist_ok : bool) (rp : list string) : M unit :=
  let p := rev rp in
  try_except (sys (fun t => Fs.mkdir t p))
    (fun e =>
       match e, rp with
       | OSError ENOENT, _ :: rparent =>
           mkdir_parents_rev true rparent ;;
           try_except (sys (fun t => Fs.mkdir t p))
             (fun e' =>
                match e' with
                | OSError _ =>
                    d <- test (fun t => Fs.isdir t p) ;;
                    if exist_ok && d then ret tt else raise e'
                | _ => raise e'
                end)
       | OSError _, _ =>
           d <- test (fun t => Fs.isdir t p) ;;
           if exist_ok && d then ret tt else raise e
       | _, _ => raise e
       end).

Definition last_name (p : Fs.ospath) : string :=
  match rev p with
  | x :: _ => x
  | [] => ""
  end.

(** [shutil.copy2(s, d)]; the metadata [copystat] copies is not part of the
    tree. *)
Definition copy2 (s d : Fs.ospath) : M unit :=
  d_is_dir <- test (fun t => Fs.isdir t d) ;;
  let d := if d_is_dir then d ++ [last_name s] else d in
  same <- test (fun t => Fs.samefile t s d) ;;
  if same then raise (OSError ESAMEFILE)
  else
    data <- ask (fun t => Fs.read_file t s) ;;
    f <- (fun w => match Fs.open_wb (fs w) d with
                   | inl e => (Raise (OSError e), w)
                   | inr (t, f) => (Ok f, set_fs w t)
                   end) ;;
    (fun w => (Ok tt, set_fs w (Fs.write (fs w) f data))).

(** ** The script *)

(** The six fields of [urllib.parse.urlparse]. *)
Record url_parts := {
  u_scheme : string;
  u_netloc : string;
  u_path : string;
  u_params : string;
  u_query : string;
  u_fragment : string
}.

(** A future of the thread pool. *)
Inductive future (A : Type) :=
| Pending (task : M A)
| Running (task : M A)
| Finished (seen : bool) (result : outcome A)
| Cancelled.

Arguments Pending {A} task.
Arguments Running {A} task.
Arguments Finished {A} seen result.
Arguments Cancelled {A}.

(** What the scheduler lets happen next: a free worker takes the oldest
    pending task, a running task completes, or [as_completed] hands a
    finished future to the main thread. *)
Inductive event :=
| Start
| Finish (i : nat)
| Observe (i : nat).

(** The environment of one run. *)
Record environment := {
  (** the working directory of the process *)
  env_cwd : Fs.ospath;
  (** the network: what [urlopen] answers to a request (method, url), given
      the requests made so far *)
  env_internet : list net_event -> string -> string -> exn + response;
  (** [subprocess]: the exit code and the effect of a command run in a
      directory; [None] when the command cannot be started *)
  env_spawn : list string -> string -> Fs.node -> option (Z * Fs.node);
  (** [fnmatch.fnmatch(filename, pattern)] *)
  env_fnmatch : string -> string -> bool;
  (** [urllib.parse.urlparse] and [urlunparse] *)
  env_urlparse : string -> url_parts;
  env_urlunparse : url_parts -> string;
  (** [zipfile]: the members (name, bytes) of an archive, in order *)
  env_unzip : string -> option (list (string * string));
  (** [json.loads(bytes.decode('utf-8'))] as a manifest *)
  env_json_loads : string -> exn + manifest;
  (** the order in which the workers and [as_completed] make progress *)
  env_schedule : list event
}.

Section Script.

Variable E : environment.

Definition os (p : PurePath.t) : Fs.ospath := Fs.of_path (env_cwd E) p.

(** [urlopen] *)
Definition urlopen (method url : string) : M response :=
  fun w =>
    let w' := add_net w (Request method url) in
    match env_internet E (net w) method url with
    | inl e => (Raise e, w')
    | inr r => (Ok r, w')
    end.

(** The loop of [download]: read the body and write it to the file. *)
Definition transfer (conn : response) (f : list string) : M unit :=
  fun w =>
    let w' := set_fs (add_net w (Body (resp_url conn)))
                (Fs.write (fs w) f (payload conn)) in
    match failure conn with
    | Some e => (Raise e, w')
    | None => (Ok tt, w')
    end.

Definition open_path (p : PurePath.t) : M (list string) :=
  fun w =>
    match Fs.open_wb (fs w) (os p) with
    | inl e => (Raise (OSError e), w)
    | inr (t, f) => (Ok f, set_fs w t)
    end.

Definition clean_url (url : string) : string :=
  let u := env_urlparse E url in
  env_urlunparse E {| u_scheme := u_scheme u; u_netloc := u_netloc u;
                u_path := u_path u; u_params := ""; u_query := "";
                u_fragment := "" |}.

Definition mod_url (spec : mod_spec) : M string :=
  project <- item "projectID" (projectID spec) ;;
  let page_url := curseforge_mod_url project in
  mod_page <- urlopen "HEAD" page_url ;;
  file <- item "fileID" (fileID spec) ;;
  let url := (clean_url (resp_url mod_page) ++ "/"
              ++ curseforge_download_path file)%string in
  logger DEBUG "Mod mapping: {} => {}" [ASpec spec; AStr url] ;;
  ret url.

Definition download (conn_or_url : string + response) (dest_dir : PurePath.t)
    (filename : option string) : M PurePath.t :=
  conn <- match conn_or_url with
          | inl url => urlopen "GET" url
          | inr conn => ret conn
          end ;;
  let filename :=
    match filename with
    | None => PurePath.name (PurePath.parse (resp_url conn))
    | Some f => f
    end in
  logger INFO "Downloading {} ..." [AStr filename] ;;
  let path := PurePath.join dest_dir (PurePath.parse filename) in
  f <- open_path path ;;
  transfer conn f ;;
  logger DEBUG "File {} downloaded" [AStr filename] ;;
  ret path.

(** [blacklist and any(fnmatch.fnmatch(filename, p) for p in blacklist)] *)
Definition excluded (filename : string) (blacklist : option (list string)) : bool :=
  match blacklist with
  | None => false
  | Some [] => false
  | Some ps => existsb (env_fnmatch E filename) ps
  end.

Definition download_mod (spec : mod_spec) (dest : PurePath.t)
    (blacklist : option (list string)) : M (option PurePath.t) :=
  logger DEBUG "Starting mod {}" [ASpec spec] ;;
  url <- mod_url spec ;;
  conn <- urlopen "GET" url ;;
  let filename := PurePath.name (PurePath.parse (resp_url conn)) in
  if excluded filename blacklist then
    logger INFO "Excluding mod {}" [AStr filename] ;;
    ret None
  else
    path <- download (inr conn) dest (Some filename) ;;
    ret (Some path).

(** [subprocess.check_call(argv, cwd=dir)] *)
Definition check_call (argv : list string) (dir : string) : M unit :=
  fun w =>
    let w' := add_proc w {| argv := argv; proc_cwd := dir |} in
    match env_spawn E argv dir (fs w) with
    | None => (Raise (OSError ENOENT), w')
    | Some (rc, t) =>
        if Z.eqb rc 0 then (Ok tt, set_fs w' t)
        else (Raise (CalledProcessError rc), set_fs w' t)
    end.

(** Lines 108-114 of [update_forge]: the link to the installed jar. *)
Definition link_forge (args : arguments) (dest_dir forge_installer : PurePath.t)
  : M unit :=
  let forge :=
    PurePath.join dest_dir
      (PurePath.parse
         (Str.replace "installer" "universal" (PurePath.name forge_installer))) in
  forge_exists <- test (fun t => Fs.exists_ t (os forge)) ;;
  (if forge_exists && Str.nonempty (forge_symlink args) then
     let symlink := PurePath.join dest_dir (PurePath.parse (forge_symlink args)) in
     symlink_exists <- test (fun t => Fs.exists_ t (os symlink)) ;;
     (if symlink_exists then sys (fun t => Fs.unlink t (os symlink)) else ret tt) ;;
     sys (fun t => Fs.symlink t (PurePath.name forge) (os symlink))
   else ret tt) ;;
  logger INFO "Forge update done" [].

Definition update_forge (args : arguments) (mc_version forge_version : string)
    (tmp_dir dest_dir : PurePath.t) : M unit :=
  let full_version := (mc_version ++ "-" ++ forge_version)%string in
  logger INFO "Updating Forge to {} ..." [AStr full_version] ;;
  forge_installer <-
    try_except
      (p <- download (inl (forge_installer_url full_version)) tmp_dir None ;;
       ret (Some p))
      (fun e =>
         match e with
         | HTTPError code _ => if Z.eqb code 404 then ret None else raise e
         | _ => raise e
         end) ;;
  (* Bugfix for 1.7.10 Forge URLs *)
  forge_installer <-
    match forge_installer with
    | Some p => ret p
    | None =>
        let full_version := (full_version ++ "-" ++ mc_version)%string in
        download (inl (forge_installer_url full_version)) tmp_dir None
    end ;;
  logger INFO "Forge downloaded" [] ;;
  check_call ["java"; "-jar"; PurePath.to_string forge_installer; "--installServer"]
    (PurePath.to_string dest_dir) ;;
  link_forge args dest_dir forge_installer.

(** The body of the loop of [copytree] (lines 121-126); [recur] is the
    recursive call. *)
Definition copy_entry (recur : Fs.ospath -> Fs.ospath -> bool -> M unit)
    (src dst : Fs.ospath) (override : bool) (item : string) : M unit :=
  let s := src ++ [item] in
  let d := dst ++ [item] in
  s_is_dir <- test (fun t => Fs.isdir t s) ;;
  if s_is_dir then recur s d true
  else
    d_exists <- test (fun t => Fs.exists_ t d) ;;
    if override || negb d_exists then copy2 s d else ret tt.

Fixpoint copytree (fuel : nat) (src dst : Fs.ospath) (override : bool) : M unit :=
  match fuel with
  | O => out_of_fuel
  | S fuel' =>
      dst_exists <- test (fun t => Fs.exists_ t dst) ;;
      (if dst_exists then ret tt else makedirs dst) ;;
      items <- ask (fun t => Fs.listdir t src) ;;
      for_each items (copy_entry (copytree fuel') src dst override)
  end.

(** *** The thread pool ([concurrent.futures.ThreadPoolExecutor]) *)

Definition task := M (option PurePath.t).
Definition futures := list (future (option PurePath.t)).

Definition is_running (f : future (option PurePath.t)) : bool :=
  match f with Running _ => true | _ => false end.

Definition is_pending (f : future (option PurePath.t)) : bool :=
  match f with Pending _ => true | _ => false end.

Fixpoint start_first (l : futures) : futures :=
  match l with
  | [] => []
  | Pending t :: l' => Running t :: l'
  | f :: l' => f :: start_first l'
  end.

(** A worker takes the oldest pending task when a thread is free. *)
Definition worker_start (workers : nat) (l : futures) : futures :=
  if List.length (filter is_running l) <? workers then start_first l else l.

Fixpoint set_nth (i : nat) (f : future (option PurePath.t)) (l : futures) : futures :=
  match i, l with
  | _, [] => []
  | O, _ :: l' => f :: l'
  | S i', g :: l' => g :: set_nth i' f l'
  end.

(** The running task [i] completes: its body takes effect. *)
Definition worker_finish (i : nat) (l : futures) (w : world) : futures * world :=
  match nth_error l i with
  | Some (Running t) => let '(r, w') := t w in (set_nth i (Finished false r) l, w')
  | _ => (l, w)
  end.

(** [for g in futures: g.cancel()]: only a pending future is cancelled. *)
Definition cancel_all (l : futures) : futures :=
  map (fun f => match f with Pending _ => Cancelled | _ => f end) l.

(** Every task that was submitted and not cancelled runs to its end, in
    the order of submission. *)
Fixpoint settle (l : futures) (w : world) : futures * world :=
  match l with
  | [] => ([], w)
  | f :: l' =>
      let '(f', w1) :=
        match f with
        | Pending t | Running t => let '(r, w1) := t w in (Finished false r, w1)
        | _ => (f, w)
        end in
      let '(l'', w2) := settle l' w1 in
      (f' :: l'', w2)
  end.

Fixpoint work (workers : nat) (sched : list event) (l : futures) (w : world)
  : futures * world :=
  match sched with
  | [] => (l, w)
  | Start :: sched' => work workers sched' (worker_start workers l) w
  | Finish i :: sched' =>
      let '(l', w') := worker_finish i l w in work workers sched' l' w'
  | Observe _ :: sched' => work workers sched' l w
  end.

(** [executor.shutdown(wait=True)], the exit of the [with] block: the
    workers go on as scheduled, then the rest is settled. *)
Definition shutdown (workers : nat) (sched : list event) (l : futures) (w : world)
  : futures * world :=
  let '(l', w') := work workers sched l w in settle l' w'.

(** The body of the loop over [as_completed(futures)] (lines 178-183) for
    a future with result [r]. *)
Definition observe (r : outcome (option PurePath.t)) (l : futures) (w : world)
  : outcome unit * futures * world :=
  match r with
  | Ok _ => (Ok tt, l, w)
  | Raise e =>
      let l' := cancel_all l in
      let w' :=
        match e with
        | HTTPError _ u =>
            add_log w {| log_level := ERROR;
                         log_template := "Error while fetching {}";
                         log_args := [AStr u] |}
        | _ => w
        end in
      (Raise e, l', w')
  | OutOfFuel => (OutOfFuel, l, w)
  end.

(** The loop once the schedule is used up: the futures complete and are
    observed in the order of submission. *)
Fixpoint collect_rest (n i : nat) (l : futures) (w : world)
  : outcome unit * futures * world :=
  match n with
  | O => (Ok tt, l, w)
  | S n' =>
      let '(l1, w1) :=
        match nth_error l i with
        | Some (Pending t) | Some (Running t) =>
            let '(r, w') := t w in (set_nth i (Finished false r) l, w')
        | _ => (l, w)
        end in
      match nth_error l1 i with
      | Some (Finished false r) =>
          match observe r (set_nth i (Finished true r) l1) w1 with
          | (Ok _, l2, w2) => collect_rest n' (S i) l2 w2
          | (err, l2, w2) => let '(l3, w3) := settle l2 w2 in (err, l3, w3)
          end
      | _ => collect_rest n' (S i) l1 w1
      end
  end.

(** [for f in as_completed(futures): ...] inside the [with] block. *)
Fixpoint collect (workers : nat) (sched : list event) (l : futures) (w : world)
  : outcome unit * futures * world :=
  match sched with
  | [] => collect_rest (List.length l) 0 l w
  | Start :: sched' => collect workers sched' (worker_start workers l) w
  | Finish i :: sched' =>
      let '(l', w') := worker_finish i l w in collect workers sched' l' w'
  | Observe i :: sched' =>
      match nth_error l i with
      | Some (Finished false r) =>
          match observe r (set_nth i (Finished true r) l) w with
          | (Ok _, l1, w1) => collect workers sched' l1 w1
          | (err, l1, w1) =>
              let '(l2, w2) := shutdown workers sched' l1 w1 in (err, l2, w2)
          end
      | _ => collect workers sched' l w
      end
  end.

(** [Logger._log] takes these keywords; [logging.warning] passes any other
    one on to it, which is a TypeError before a record is made. *)
Definition log_keywords : list string :=
  ["exc_info"; "extra"; "stack_info"; "stacklevel"].

Definition logger_kw (l : level) (template : string) (args : list logarg)
    (kwargs : list string) : M unit :=
  if forallb (fun k => existsb (String.eqb k) log_keywords) kwargs
  then logger l template args
  else raise (TypeError "_log() got an unexpected keyword argument").

(** The loop over [directDownload] (lines 169-174). *)
Fixpoint submit_bonus (bonus : list direct_entry) (mod_store : PurePath.t)
    (l : futures) (w : world) : outcome unit * futures * world :=
  match bonus with
  | [] => (Ok tt, l, w)
  | entry :: bonus' =>
      match url entry, filename entry with
      | Some u, Some f =>
          submit_bonus bonus' mod_store
            (l ++ [Pending (p <- download (inl u) mod_store (Some f) ;; ret (Some p))]) w
      | _, _ =>
          match logger_kw WARNING "Error while handling entry {}" [AEntry entry]
                  ["file"] w with
          | (Ok _, w') => submit_bonus bonus' mod_store l w'
          | (Raise e, w') => (Raise e, l, w')
          | (OutOfFuel, w') => (OutOfFuel, l, w')
          end
      end
  end.

(** Lines 162-183: the [with ThreadPoolExecutor(...)] block. *)
Definition download_phase (args : arguments) (m : manifest)
    (mod_store : PurePath.t) (blacklist : option (list string)) : M futures :=
  fun w =>
    if (threads args <=? 0)%Z
    then (Raise (ValueError "max_workers must be greater than 0"), w)
    else
      let workers := Z.to_nat (threads args) in
      match files m with
      | None => (Raise (KeyError "files"), w)
      | Some mods =>
          let l := map (fun spec => Pending (download_mod spec mod_store blacklist)) mods in
          let bonus := match directDownload m with Some b => b | None => [] end in
          match submit_bonus bonus mod_store l w with
          | (Ok _, l1, w1) =>
              match collect workers (env_schedule E) l1 w1 with
              | (Ok _, l2, w2) => (Ok l2, w2)
              | (Raise e, _, w2) => (Raise e, w2)
              | (OutOfFuel, _, w2) => (OutOfFuel, w2)
              end
          | (Raise e, l1, w1) =>
              let '(_, w2) := shutdown workers (env_schedule E) l1 w1 in (Raise e, w2)
          | (OutOfFuel, l1, w1) => (OutOfFuel, w1)
          end
      end.

(** *** The archive ([zipfile.ZipFile]) *)

Definition zipfile := list (string * string).

(** [ZipFile(path)] *)
Definition ZipFile (path : PurePath.t) : M zipfile :=
  data <- ask (fun t => Fs.read_file t (os path)) ;;
  match env_unzip E data with
  | Some members => ret members
  | None => raise BadZipFile
  end.

(** [NameToInfo[name]]: the last member of that name. *)
Definition getinfo (z : zipfile) (name : string) : option (string * string) :=
  find (fun m => String.eqb (fst m) name) (rev z).

(** [modpack.open(name).read()] *)
Definition zip_read (z : zipfile) (name : string) : M string :=
  match getinfo z name with
  | Some m => ret (snd m)
  | None => raise (KeyError name)
  end.

Definition namelist (z : zipfile) : list string := map fst z.

Definition ends_with_slash (s : string) : bool :=
  match rev (list_ascii_of_string s) with
  | c :: _ => Ascii.eqb c "/"%char
  | [] => false
  end.

(** The path of a member below the target directory: [_extract_member]
    drops the empty, [.] and [..] components of the name. *)
Definition member_path (name : string) : list string :=
  filter (fun x => Str.nonempty x && negb (String.eqb x ".") && negb (String.eqb x ".."))
    (Str.split "/" name).

(** [ZipFile._extract_member] *)
Definition extract_member (z : zipfile) (target : Fs.ospath) (name : string) : M unit :=
  m <- item name (getinfo z name) ;;
  let targetpath := target ++ member_path (fst m) in
  let upperdirs := removelast targetpath in
  upper_exists <- test (fun t => Fs.exists_ t upperdirs) ;;
  (match upperdirs with
   | [] => ret tt
   | _ :: _ => if upper_exists then ret tt else makedirs upperdirs
   end) ;;
  if ends_with_slash (fst m) then
    d <- test (fun t => Fs.isdir t targetpath) ;;
    if d then ret tt else sys (fun t => Fs.mkdir t targetpath)
  else
    f <- (fun w => match Fs.open_wb (fs w) targetpath with
                   | inl e => (Raise (OSError e), w)
                   | inr (t, f) => (Ok f, set_fs w t)
                   end) ;;
    (fun w => (Ok tt, set_fs w (Fs.write (fs w) f (snd m)))).

(** [modpack.extractall(path, members)] *)
Definition extractall (z : zipfile) (path : PurePath.t) (members : list string) : M unit :=
  for_each members (extract_member z (os path)).

(** [urlretrieve(url, filename)] *)
Definition urlretrieve (url : string) (filename : PurePath.t) : M unit :=
  conn <- urlopen "GET" url ;;
  f <- open_path filename ;;
  transfer conn f.

(** *** [run] *)

(** The body of the loop of lines 189-195 for one directory [d] and its
    backup [b]. *)
Definition backup_one (d b : PurePath.t) : M unit :=
  d_exists <- test (fun t => Fs.exists_ t (os d)) ;;
  (if d_exists then
     b_exists <- test (fun t => Fs.exists_ t (os b)) ;;
     (if b_exists then sys (fun t => Fs.rmtree t (os b)) else ret tt) ;;
     sys (fun t => Fs.rename t (os d) (os b))
   else ret tt) ;;
  sys (fun t => Fs.mkdir t (os d)).

Definition subdir (base_dir : PurePath.t) (d : string) : PurePath.t :=
  PurePath.join base_dir (PurePath.parse d).

Definition backup_of (d : PurePath.t) : M PurePath.t :=
  match PurePath.with_suffix d ".bak" with
  | Some b => ret b
  | None => raise (ValueError "empty name")
  end.

Definition backup (base_dir mods_bak config_bak : PurePath.t) : M unit :=
  backup_one (subdir base_dir "mods") mods_bak ;;
  backup_one (subdir base_dir "config") config_bak.

(** Lines 187-195 *)
Definition backup_step (base_dir : PurePath.t) : M PurePath.t :=
  mods_bak <- backup_of (subdir base_dir "mods") ;;
  config_bak <- backup_of (subdir base_dir "config") ;;
  backup base_dir mods_bak config_bak ;;
  ret config_bak.

(** Line 201: the ids of the loaders whose id starts with [forge-]. *)
Definition forge_ids (mc : option mc_spec) : list string :=
  let loaders :=
    match mc with
    | Some s => match modLoaders s with Some l => l | None => [] end
    | None => []
    end in
  flat_map (fun x =>
              match id x with
              | Some i => if Str.startswith i "forge-"
                          then [Str.replace "forge-" "" i] else []
              | None => []
              end) loaders.

Definition mc_version_of (mc : option mc_spec) : option string :=
  match mc with
  | Some s => version s
  | None => None
  end.

(** Lines 198-206 *)
Definition forge_step (args : arguments) (m : manifest)
    (tmp_dir base_dir : PurePath.t) : M unit :=
  if keep_forge args then ret tt
  else
    match mc_version_of (minecraft m), forge_ids (minecraft m) with
    | Some v, i :: _ =>
        if Str.nonempty v then update_forge args v i tmp_dir base_dir
        else
          logger WARNING "Could not extract Forge informations from the manifest" [] ;;
          logger DEBUG "minecraft : {}\nmodLoaders : {}" [AMinecraft (minecraft m); AKey "modLoaders"]
    | _, _ =>
        logger WARNING "Could not extract Forge informations from the manifest" [] ;;
        logger DEBUG "minecraft : {}\nmodLoaders : {}" [AMinecraft (minecraft m); AKey "modLoaders"]
    end.

(** Lines 214-219 *)
Definition apply_overrides (fuel : nat) (m : manifest) (modpack : zipfile)
    (tmp_dir base_dir : PurePath.t) : M unit :=
  match overrides m with
  | Some o =>
      let o := PurePath.parse o in
      let todo := select_overrides (namelist modpack) o in
      extractall modpack tmp_dir todo ;;
      copytree fuel (os (PurePath.join tmp_dir o)) (os base_dir) true
  | None => ret tt
  end.

(** Lines 221-222 *)
Definition restore_config (fuel : nat) (args : arguments)
    (base_dir config_bak : PurePath.t) : M unit :=
  bak_exists <- test (fun t => Fs.exists_ t (os config_bak)) ;;
  if keep_config args && bak_exists
  then copytree fuel (os config_bak) (os (subdir base_dir "config")) true
  else ret tt.

(** Lines 197-224: what follows the backup. *)
Definition after_backup (fuel : nat) (args : arguments) (m : manifest)
    (modpack : zipfile) (tmp_dir base_dir mod_store config_bak : PurePath.t)
  : M unit :=
  forge_step args m tmp_dir base_dir ;;
  logger INFO "Installing mods..." [] ;;
  copytree fuel (os mod_store) (os (subdir base_dir "mods")) true ;;
  logger INFO "Applying custom config..." [] ;;
  apply_overrides fuel m modpack tmp_dir base_dir ;;
  restore_config fuel args base_dir config_bak ;;
  n <- item "name" (name m) ;;
  logger INFO "Modpack {name} successfully installed" [AStr n].

(** Lines 186-224: everything after the downloads. *)
Definition stage (fuel : nat) (args : arguments) (m : manifest) (modpack : zipfile)
    (tmp_dir base_dir mod_store : PurePath.t) : M unit :=
  config_bak <- backup_step base_dir ;;
  after_backup fuel args m modpack tmp_dir base_dir mod_store config_bak.

(** Lines 130-156: the installation directory, the archive, the manifest
    and the blacklist. *)
Definition prepare (args : arguments) (tmp_dir : PurePath.t)
  : M (PurePath.t * zipfile * manifest * option (list string)) :=
  let base_dir := PurePath.parse (dest args) in
  base_exists <- test (fun t => Fs.exists_ t (os base_dir)) ;;
  (if base_exists then ret tt else mkdir_parents_rev false (rev (os base_dir))) ;;
  resolved <- ask (fun t => match Fs.stat t (os base_dir) with
                            | inl e => inl e
                            | inr (c, _) => inr c
                            end) ;;
  let base_dir := "/" :: resolved in
  pack_exists <- test (fun t => Fs.exists_ t (os (PurePath.parse (pack_path args)))) ;;
  pack <-
    (if pack_exists then
       logger INFO "Found local modpack {}" [AStr (pack_path args)] ;;
       ret (PurePath.parse (pack_path args))
     else
       let pack := PurePath.join tmp_dir (PurePath.parse "modpack.zip") in
       logger INFO "Downloading the modpack to {} ..." [AStr (PurePath.to_string pack)] ;;
       urlretrieve (pack_path args) pack ;;
       logger INFO "  Done" [] ;;
       ret pack) ;;
  modpack <- ZipFile pack ;;
  text <- zip_read modpack "manifest.json" ;;
  m <- (fun w => match env_json_loads E text with
                 | inl e => (Raise e, w)
                 | inr m => (Ok m, w)
                 end) ;;
  n <- item "name" (name m) ;;
  v <- item "version" (pack_version m) ;;
  logger INFO "Modpack: {name} (Version {version})" [AStr n; AStr v] ;;
  mod_blacklist <-
    match exclude args with
    | Some lines =>
        let l := map Str.rstrip lines in
        logger DEBUG "Mod blacklist: {}" (map AStr l) ;;
        ret (Some l)
    | None => ret None
    end ;;
  ret (base_dir, modpack, m, mod_blacklist).

(** Lines 158-184: the download of the mod files. *)
Definition fetch (args : arguments) (m : manifest) (tmp_dir : PurePath.t)
    (mod_blacklist : option (list string)) : M PurePath.t :=
  let mod_store := PurePath.join tmp_dir (PurePath.parse "mod_store") in
  sys (fun t => Fs.mkdir t (os mod_store)) ;;
  logger INFO "Starting mod downloads, this may take a while" [] ;;
  download_phase args m mod_store mod_blacklist ;;
  logger INFO "  Done" [] ;;
  ret mod_store.

Definition run (fuel : nat) (args : arguments) (tmp_dir : string) : M unit :=
  let tmp_dir := PurePath.parse tmp_dir in
  '(base_dir, modpack, m, mod_blacklist) <- prepare args tmp_dir ;;
  mod_store <- fetch args m tmp_dir mod_blacklist ;;
  stage fuel args m modpack tmp_dir base_dir mod_store.

End Script.

(** ** A model of [fnmatch.fnmatch] (POSIX: no case folding) *)

Module Fnmatch.

Inductive token :=
| Star
| Any
| Class (negated : bool) (items : list (ascii * ascii))
| Lit (c : ascii).

(** The text of a bracket expression, up to the closing bracket, and what
    follows it; a bracket right after the opening (or after [!]) is a
    member. *)
Fixpoint close_bracket (first : bool) (l : list ascii) : option (list ascii * list ascii) :=
  match l with
  | [] => None
  | c :: l' =>
      if Ascii.eqb c "]"%char && negb first then Some ([], l')
      else match close_bracket false l' with
           | Some (stuff, rest) => Some (c :: stuff, rest)
           | None => None
           end
  end.

Definition bracket (l : list ascii) : option (bool * list ascii * list ascii) :=
  match l with
  | c :: l' =>
      if Ascii.eqb c "!"%char then
        match close_bracket true l' with
        | Some (stuff, rest) => Some (true, stuff, rest)
        | None => None
        end
      else
        match close_bracket true l with
        | Some (stuff, rest) => Some (false, stuff, rest)
        | None => None
        end
  | [] => None
  end.

(** The members of a bracket expression: ranges [a-z] and characters. *)
Fixpoint members (l : list ascii) : list (ascii * ascii) :=
  match l with
  | a :: l1 =>
      match l1 with
      | dash :: b :: l3 =>
          if Ascii.eqb dash "-"%char then (a, b) :: members l3
          else (a, a) :: members l1
      | _ => (a, a) :: members l1
      end
  | [] => []
  end.

Fixpoint tokens (fuel : nat) (l : list ascii) : list token :=
  match fuel, l with
  | S fuel', c :: l' =>
      if Ascii.eqb c "*"%char then Star :: tokens fuel' l'
      else if Ascii.eqb c "?"%char then Any :: tokens fuel' l'
      else if Ascii.eqb c "["%char then
        match bracket l' with
        | Some (neg, stuff, rest) => Class neg (members stuff) :: tokens fuel' rest
        | None => Lit c :: tokens fuel' l'
        end
      else Lit c :: tokens fuel' l'
  | _, _ => []
  end.

Definition in_class (c : ascii) (items : list (ascii * ascii)) : bool :=
  existsb (fun r => (nat_of_ascii (fst r) <=? nat_of_ascii c)
                    && (nat_of_ascii c <=? nat_of_ascii (snd r))) items.

Fixpoint matches (p : list token) (s : list ascii) {struct p} : bool :=
  match p with
  | [] => match s with [] => true | _ :: _ => false end
  | Star :: p' =>
      (fix star (s : list ascii) : bool :=
         matches p' s || match s with [] => false | _ :: s' => star s' end) s
  | Any :: p' => match s with _ :: s' => matches p' s' | [] => false end
  | Class neg items :: p' =>
      match s with
      | c :: s' => xorb neg (in_class c items) && matches p' s'
      | [] => false
      end
  | Lit c :: p' =>
      match s with
      | d :: s' => Ascii.eqb c d && matches p' s'
      | [] => false
      end
  end.

Definition fnmatch (name pat : string) : bool :=
  let p := list_ascii_of_string pat in
  matches (tokens (List.length p) p) (list_ascii_of_string name).

End Fnmatch.

(** ** An environment for the examples *)

Module Example.

Import Fs.

Definition cwd : ospath := ["home"; "steve"].

(** Everything before the first [?], [#] or [;] is the path. *)
Fixpoint cut (s : string) : string :=
  match s with
  | EmptyString => EmptyString
  | String c s' =>
      if Ascii.eqb c "?"%char || Ascii.eqb c "#"%char || Ascii.eqb c ";"%char
      then EmptyString else String c (cut s')
  end.

Definition urlparse (u : string) : url_parts :=
  {| u_scheme := ""; u_netloc := ""; u_path := cut u;
     u_params := ""; u_query := "";
     u_fragment := String.substring (String.length (cut u))
                     (String.length u - String.length (cut u)) u |}.

Definition urlunparse (p : url_parts) : string :=
  (u_scheme p ++ u_netloc p ++ u_path p ++ u_params p ++ u_query p ++ u_fragment p)%string.

Definition served (url body : string) : exn + response :=
  inr {| resp_url := url; payload := body; failure := None |}.

(** The servers: three projects, one direct download, the installer of
    Forge under its second name only. *)
Definition internet (_ : list net_event) (method url : string) : exn + response :=
  if String.eqb url "http://minecraft.curseforge.com/mc-mods/1"
  then served "http://minecraft.curseforge.com/projects/alpha?cookie=1" ""
  else if String.eqb url "http://minecraft.curseforge.com/mc-mods/2"
  then served "http://minecraft.curseforge.com/projects/beta" ""
  else if String.eqb url "http://minecraft.curseforge.com/mc-mods/3"
  then served "http://minecraft.curseforge.com/projects/gamma" ""
  else if String.eqb url "http://minecraft.curseforge.com/projects/alpha/files/10/download"
  then served "http://cdn.example/files/alpha-1.0.jar" "alpha"
  else if String.eqb url "http://minecraft.curseforge.com/projects/beta/files/20/download"
  then served "http://cdn.example/files/beta-2.0-dev.jar" "beta"
  else if String.eqb url "http://minecraft.curseforge.com/projects/gamma/files/30/download"
  then served "http://cdn.example/files/gamma-3.0.jar" "gamma"
  else if String.eqb url "http://example.org/extra.jar"
  then served "http://example.org/extra.jar" "extra"
  else if String.eqb url (forge_installer_url "1.7.10-10.13.4.1614-1.7.10")
  then served (forge_installer_url "1.7.10-10.13.4.1614-1.7.10") "installer"
  else inl (HTTPError 404 url).

(** The installer writes the universal jar into its working directory. *)
Definition spawn (argv : list string) (dir : string) (t : node) : option (Z * node) :=
  match argv with
  | [java; jar_flag; jar; install_flag] =>
      if String.eqb java "java" && String.eqb jar_flag "-jar"
         && String.eqb install_flag "--installServer"
      then
        let dest := of_path cwd (PurePath.parse dir) in
        let jarname := PurePath.name (PurePath.parse jar) in
        match Fs.open_wb t (dest ++ [Str.replace "installer" "universal" jarname]) with
        | inr (t', f) => Some (0%Z, Fs.write t' f "forge")
        | inl _ => Some (1%Z, t)
        end
      else None
  | _ => None
  end.

Definition spec (p f : string) : mod_spec :=
  {| projectID := Some p; fileID := Some f |}.

Definition the_manifest (mods : list mod_spec) (bonus : list direct_entry)
  : manifest :=
  {| name := Some "Example Pack";
     pack_version := Some "1.0";
     files := Some mods;
     directDownload := Some bonus;
     minecraft := Some {| version := Some "1.7.10";
                          modLoaders := Some [{| id := Some "forge-10.13.4.1614" |}] |};
     overrides := Some "overrides" |}.

Definition extra : direct_entry :=
  {| url := Some "http://example.org/extra.jar"; filename := Some "extra.jar" |}.

Definition json_loads (m : manifest) (text : string) : exn + manifest :=
  if String.eqb text "manifest" then inr m
  else inl (ValueError "Expecting value").

Definition unzip (data : string) : option (list (string * string)) :=
  if String.eqb data "pack" then
    Some [("manifest.json", "manifest");
          ("overrides/", "");
          ("overrides/config/", "");
          ("overrides/config/settings.cfg", "difficulty=pack");
          ("resourcepacks/readme.txt", "read me")]
  else None.

(** An installation with a mod and a configuration file of the user, the
    pack in the working directory and an empty temporary directory. *)
Definition disk : node :=
  Dir [("home", Dir [("steve", Dir [("pack.zip", File "pack")])]);
       ("srv", Dir [("mc", Dir [("mods", Dir [("old.jar", File "old")]);
                                ("config", Dir [("settings.cfg", File "difficulty=user")])])]);
       ("tmp", Dir [("tmpa1b2", Dir [])])].

Definition start : world := {| fs := disk; log := []; net := []; procs := [] |}.

Definition args (keep_forge keep_config : bool) : arguments :=
  {| pack_path := "pack.zip"; dest := "/srv/mc"; threads := 10;
     keep_forge := keep_forge; keep_config := keep_config;
     forge_symlink := "minecraft_server.jar";
     exclude := Some ["*-dev.jar" ++ String (ascii_of_nat 10) ""]%string |}.

Definition env (m : manifest) (sched : list event) : environment :=
  {| env_cwd := cwd; env_internet := internet; env_spawn := spawn;
     env_fnmatch := Fnmatch.fnmatch; env_urlparse := urlparse;
     env_urlunparse := urlunparse; env_unzip := unzip;
     env_json_loads := json_loads m; env_schedule := sched |}.

Definition three_mods : list mod_spec :=
  [spec "1" "10"; spec "2" "20"; spec "3" "30"].

(** The pack of the examples: three mods and one direct download. *)
Definition pack : manifest := the_manifest three_mods [extra].

(** A direct download without [url] and [filename], before a good one. *)
Definition malformed : direct_entry := {| url := None; filename := None |}.

Definition pack_malformed : manifest := the_manifest three_mods [malformed; extra].

(** A direct download saved under an absolute name, before one that is
    not found. *)
Definition misplaced : direct_entry :=
  {| url := Some "http://example.org/extra.jar";
     filename := Some "/srv/mc/mods/old.jar" |}.

Definition gone : direct_entry :=
  {| url := Some "http://example.org/gone.jar"; filename := Some "gone.jar" |}.

Definition pack_misplaced : manifest := the_manifest three_mods [misplaced; gone].

(** A pack with a mod whose project page is not found. *)
Definition pack_missing : manifest :=
  the_manifest [spec "1" "10"; spec "9" "90"; spec "3" "30"] [extra].

Definition tmp : string := "/tmp/tmpa1b2".

(** A schedule of two workers' worth of events: the first two mods
    complete, the second one is observed. *)
Definition two_workers : list event := [Start; Finish 0; Start; Finish 1; Observe 1].

(** A source tree and a destination that holds the same files. *)
Definition two_trees : world :=
  {| fs := Dir [("new", Dir [("top.cfg", File "new top");
                             ("sub", Dir [("deep.cfg", File "new deep")])]);
                ("old", Dir [("top.cfg", File "old top");
                             ("sub", Dir [("deep.cfg", File "old deep")])])];
     log := []; net := []; procs := [] |}.

(** An installation after the overrides step: the backup and the new
    configuration hold the same file. *)
Definition restored : world :=
  {| fs := Dir [("srv", Dir [("mc", Dir [("config", Dir [("settings.cfg", File "difficulty=pack")]);
                                         ("config.bak", Dir [("settings.cfg", File "difficulty=user")])])])];
     log := []; net := []; procs := [] |}.

End Example.

(** * Predicates of the statements *)

Unset Implicit Arguments.

Definition patterns (B : option (list string)) : list string :=
  match B with Some l => l | None => [] end.

Definition is_body (e : net_event) : bool :=
  match e with Body _ => true | Request _ _ => false end.

Definition requests (l : list net_event) : list string :=
  flat_map (fun e => match e with Request _ u => [u] | Body _ => [] end) l.

Definition installer_call (installer dest_dir : PurePath.t) : proc_call :=
  {| argv := ["java"; "-jar"; PurePath.to_string installer; "--installServer"];
     proc_cwd := PurePath.to_string dest_dir |}.

Definition not_found (e : exn) : bool :=
  match e with HTTPError code _ => Z.eqb code 404 | _ => false end.

(** A computation is quiet when it leaves the network trace and the
    subprocess calls alone. *)
Definition quiet {A : Type} (m : M A) : Prop :=
  forall w r w', m w = (r, w') -> net w' = net w /\ procs w' = procs w.

Definition started (w : world) (full_version : string) : world :=
  add_log w {| log_level := INFO; log_template := "Updating Forge to {} ...";
               log_args := [AStr full_version] |}.

Definition result := outcome (option PurePath.t).

(** What the main thread has seen of a future. *)
Definition seen_result (f : future (option PurePath.t)) : option result :=
  match f with
  | Finished true r => Some r
  | _ => None
  end.

Definition seen (l : futures) : list (option result) := map seen_result l.

(** A future that is neither waiting nor running. *)
Definition settled (f : future (option PurePath.t)) : bool :=
  match f with
  | Finished _ _ | Cancelled => true
  | Pending _ | Running _ => false
  end.

(** A future of a batch in which no failure was observed yet. *)
Definition live (f : future (option PurePath.t)) : bool :=
  match f with
  | Cancelled => false
  | Finished true (Ok _) => true
  | Finished true _ => false
  | _ => true
  end.

(** A future that succeeded and was observed. *)
Definition succeeded (f : future (option PurePath.t)) : bool :=
  match f with
  | Finished true (Ok _) => true
  | _ => false
  end.

(** [e] is the one failure the main thread observed, at future [i]. *)
Definition observed_failure (l : futures) (e : exn) : Prop :=
  exists i, nth_error l i = Some (Finished true (Raise e))
            /\ forall j r, nth_error l j = Some (Finished true r) ->
                           j = i \/ exists v, r = Ok v.

(** What a batch that started without an observed failure ends with. *)
Definition batch_result (r : outcome unit) (l' : futures) : Prop :=
  match r with
  | Ok _ => forallb succeeded l' = true
  | Raise e => forallb settled l' = true /\ observed_failure l' e
  | OutOfFuel => True
  end.

Definition plain_name (x : string) : bool :=
  negb (String.eqb x "..") && negb (String.eqb x ".") && negb (String.eqb x "").

(** A path of names that resolution takes as they are. *)
Definition plain (p : list string) : bool := forallb plain_name p.

(** Neither path is a prefix of the other. *)
Definition apart (p q : list string) : bool :=
  negb (PurePath.prefixb p q) && negb (PurePath.prefixb q p).

(** The parent of a path is a directory of the tree. *)
Definition parent_dir (fs : Fs.node) (q : list string) : bool :=
  Fs.is_dir (Fs.lookup fs (removelast q)).

(** A plain path below an existing directory: resolution leaves it as it
    is, up to a symbolic link in the last position. *)
Definition located (fs : Fs.node) (p : list string) : bool :=
  plain p && parent_dir fs p.

Definition not_link (o : option Fs.node) : bool :=
  match o with Some (Fs.Symlink _) => false | _ => true end.

(** A tree of regular files and directories with plain names. *)
Fixpoint tidy (n : Fs.node) : bool :=
  match n with
  | Fs.File _ => true
  | Fs.Symlink _ => false
  | Fs.Dir es =>
      (fix all (es : list (string * Fs.node)) : bool :=
         match es with
         | [] => true
         | (x, m) :: es' => plain_name x && tidy m && all es'
         end) es
  end.

Definition tidy_at (o : option Fs.node) : bool :=
  match o with Some n => tidy n | None => true end.

(** [recur] merges a tidy source into its destination: its effect is one
    update of the destination by a tidy tree. *)
Definition merges (recur : Fs.ospath -> Fs.ospath -> bool -> M unit) : Prop :=
  forall src dst ov w w',
    plain src = true ->
    (exists S, Fs.lookup (fs w) src = Some S /\ tidy S = true) ->
    located (fs w) dst = true ->
    tidy_at (Fs.lookup (fs w) dst) = true ->
    apart src dst = true ->
    recur src dst ov w = (Ok tt, w') ->
    exists D', fs w' = Fs.update (fs w) dst (Some D') /\ tidy D' = true.

(** [recur] fails when the parent of its destination is a regular file. *)
Definition stops_at_file (recur : Fs.ospath -> Fs.ospath -> bool -> M unit) : Prop :=
  forall src d x ov w w',
    d <> [] -> plain d = true -> Fs.is_file (Fs.lookup (fs w) d) = true ->
    recur src (d ++ [x]) ov w <> (Ok tt, w').

(** Every directory of [t] is still a directory in [t']. *)
Definition dirs_persist (t t' : Fs.node) : Prop :=
  forall p, Fs.is_dir (Fs.lookup t p) = true -> Fs.is_dir (Fs.lookup t' p) = true.

(** A computation that removes no directory, whatever its result. *)
Definition keeps_dirs {A : Type} (m : M A) : Prop :=
  forall w r w', m w = (r, w') -> dirs_persist (fs w) (fs w').

(** The commands the script starts remove no directory. *)
Definition spawn_keeps_dirs (E : environment) : Prop :=
  forall argv dir t rc t', env_spawn E argv dir t = Some (rc, t') -> dirs_persist t t'.

(** A record of level [WARNING]. *)
Definition is_warning (r : log_record) : bool :=
  match log_level r with WARNING => true | _ => false end.

(** A computation that comes back with a result or an exception. *)
Definition returns {A : Type} (m : M A) : Prop :=
  forall w, fst (m w) <> OutOfFuel.

(** A future whose task comes back, or has come back. *)
Definition sound (f : future (option PurePath.t)) : Prop :=
  match f with
  | Pending t | Running t => returns t
  | Finished _ r => r <> OutOfFuel
  | Cancelled => True
  end.

(** ** Notions of the further properties *)

(** The file a download writes. *)
Definition target (dest_dir : PurePath.t) (conn : response) (filename : option string)
  : PurePath.t :=
  PurePath.join dest_dir
    (PurePath.parse match filename with
                    | None => PurePath.name (PurePath.parse (resp_url conn))
                    | Some f => f
                    end).

(** A direct download with both keys. *)
Definition complete (entry : direct_entry) : bool :=
  match url entry, filename entry with
  | Some _, Some _ => true
  | _, _ => false
  end.

(** The futures of the direct downloads. *)
Definition bonus_futures (E : environment) (store : PurePath.t) (bonus : list direct_entry) : futures :=
  flat_map (fun entry =>
              match url entry, filename entry with
              | Some u, Some f =>
                  [Pending (p <- download E (inl u) store (Some f) ;; ret (Some p))%monad]
              | _, _ => []
              end) bonus.

(** A computation that leaves an observation of the world as it is,
    whatever its result. *)
Definition steady {T A : Type} (obs : world -> T) (m : M A) : Prop :=
  forall w r w', m w = (r, w') -> obs w' = obs w.

(** A future whose task, if it still has to run, is steady. *)
Definition calm {T : Type} (obs : world -> T) (f : future (option PurePath.t)) : Prop :=
  match f with
  | Pending t | Running t => steady obs t
  | _ => True
  end.

(** The requests and the processes of a world. *)
Definition traffic (w : world) : list net_event * list proc_call := (net w, procs w).

(** The name of the jar the installer of Forge leaves (line 108). *)
Definition forge_jar (forge_installer : PurePath.t) : string :=
  Str.replace "installer" "universal" (PurePath.name forge_installer).

(** A target of a symbolic link that is one name. *)
Definition simple_target (t : string) : bool :=
  plain_name t && negb (Fs.target_absolute t)
  && match Str.split "/" t with [x] => String.eqb x t | _ => false end.

(** The number of directory levels of a tree. *)
Fixpoint height (n : Fs.node) : nat :=
  match n with
  | Fs.Dir es =>
      S ((fix deepest (es : list (string * Fs.node)) : nat :=
            match es with
            | [] => 0
            | (_, m) :: es' => Nat.max (height m) (deepest es')
            end) es)
  | _ => 0
  end.

(** ** Further examples *)

Module Cases.

Import Fs.

Definition E : environment := Example.env Example.pack [].

Definition store : PurePath.t := PurePath.parse "/tmp/tmpa1b2".

(** A manifest that says nothing about Minecraft. *)
Definition bare : manifest :=
  {| name := Some "Bare Pack"; pack_version := Some "1.0"; files := Some [];
     directDownload := None; minecraft := None; overrides := None |}.

Definition installer : PurePath.t :=
  PurePath.parse "/tmp/tmpa1b2/forge-1.7.10-10.13.4.1614-1.7.10-installer.jar".

Definition universal : string := "forge-1.7.10-10.13.4.1614-1.7.10-universal.jar".

Definition server (link : node) : world :=
  {| fs := Dir [("srv", Dir [("mc", Dir [(universal, File "forge");
                                         ("minecraft_server.jar", link)])])];
     log := []; net := []; procs := [] |}.

(** An installation with the server jar of Mojang under the name of the
    link. *)
Definition vanilla : world := server (File "vanilla").

(** An installation whose link points to a jar that is gone. *)
Definition stale : world := server (Symlink "forge-old-universal.jar").

(** A manifest without the key [name]. *)
Definition nameless : manifest :=
  {| name := None; pack_version := Some "1.0"; files := Some [];
     directDownload := None; minecraft := None; overrides := None |}.

(** The start of the examples, with a regular file where the backup of
    [mods] goes. *)
Definition blocked : world :=
  {| fs := update Example.disk ["srv"; "mc"; "mods.bak"] (Some (File "notes"));
     log := []; net := []; procs := [] |}.

(** The start of the examples, with one mod in the store. *)
Definition fetched : world :=
  {| fs := update Example.disk ["tmp"; "tmpa1b2"; "mod_store"]
             (Some (Dir [("alpha-1.0.jar", File "alpha")]));
     log := []; net := []; procs := [] |}.

(** The arguments of the examples, for an installation directory that is
    not there yet. *)
Definition fresh : arguments :=
  {| pack_path := "pack.zip"; dest := "/srv/new/mc"; threads := 10;
     keep_forge := true; keep_config := false;
     forge_symlink := "minecraft_server.jar"; exclude := None |}.

End Cases.

(** * Properties *)

Lemma string_compare_refl (s : string) : String.compare s s = Eq.
Proof.
  induction s as [|c s IH]; simpl; [reflexivity|].
  unfold Ascii.compare. rewrite N.compare_refl. exact IH.
Qed.

Lemma under_is_greater (root p : PurePath.t) :
  PurePath.is_under root p = true -> PurePath.gtb p root = true.
Proof.
  unfold PurePath.is_under, PurePath.gtb.
  revert p. induction root as [|x root IH]; intros [|y p]; simpl; try discriminate.
  - reflexivity.
  - rewrite andb_true_iff. intros [Hp Hl]. apply andb_true_iff in Hp as [Hxy Hp].
    apply String.eqb_eq in Hxy. subst y. rewrite string_compare_refl.
    apply IH. rewrite Hp. simpl. exact Hl.
Qed.

Lemma selection_complete (names : list string) (root : PurePath.t) (entry : string) :
  In entry names ->
  PurePath.is_under root (PurePath.parse entry) = true ->
  In entry (select_overrides names root).
Proof.
  intros Hin Hu. unfold select_overrides. apply filter_In. split; [exact Hin|].
  now apply under_is_greater.
Qed.

(** C3 (refuted on the code): the selection of line 217 is the order of
    [pathlib] on paths, not containment.  In the archive of the examples
    the entry [resourcepacks/readme.txt] lies outside the overrides root
    [overrides], is selected all the same (it is greater than the root),
    and the run extracts it into the temporary directory; it is not
    copied into the installation, since line 219 copies the extracted
    overrides root only. *)
Theorem overrides_selection_outside_root :
  let names := ["manifest.json"; "overrides/"; "overrides/config/settings.cfg";
                "resourcepacks/readme.txt"] in
  let root := PurePath.parse "overrides" in
  select_overrides names root
    = ["overrides/config/settings.cfg"; "resourcepacks/readme.txt"]
  /\ PurePath.is_under root (PurePath.parse "resourcepacks/readme.txt") = false
  /\ (let '(r, w) := run (Example.env Example.pack []) 100 (Example.args true false) Example.tmp Example.start in
      r = Ok tt
      /\ Fs.lookup (fs w) ["tmp"; "tmpa1b2"; "resourcepacks"; "readme.txt"]
         = Some (Fs.File "read me")
      /\ Fs.lookup (fs w) ["srv"; "mc"; "resourcepacks"] = None).
Proof. vm_compute. repeat split. Qed.

Section Exclusion.
Variable E : environment.

Lemma excluded_iff (F : string) (B : option (list string)) :
  excluded E F B = true <-> exists p, In p (patterns B) /\ env_fnmatch E F p = true.
Proof.
  destruct B as [[|p ps]|]; simpl.
  - split; [discriminate | intros (p & [] & _)].
  - rewrite orb_true_iff, existsb_exists. split.
    + intros [H | (q & Hq & H)]; [exists p | exists q]; auto.
    + intros (q & [<- | Hq] & H); [left | right; exists q]; auto.
  - split; [discriminate | intros (p & [] & _)].
Qed.

(** C9: the exclusion test of line 76 holds exactly when some pattern of
    the blacklist matches the file name (no blacklist counts as an empty
    one), and it reads nothing but its two arguments.  When the file name
    a mod resolves to is excluded, [download_mod] returns [None], the file
    system is what it was, and no body was read from the network: the two
    requests that resolve the name are all the traffic. *)
Theorem excluded_mod_not_stored (spec : mod_spec) (dest : PurePath.t)
    (B : option (list string)) (w w1 w2 : world) (u : string) (conn : response) :
  (forall F B', excluded E F B' = true <->
                exists p, In p (patterns B') /\ env_fnmatch E F p = true)
  /\ (mod_url E spec (add_log w {| log_level := DEBUG; log_template := "Starting mod {}";
                                    log_args := [ASpec spec] |}) = (Ok u, w1) ->
      urlopen E "GET" u w1 = (Ok conn, w2) ->
      excluded E (PurePath.name (PurePath.parse (resp_url conn))) B = true ->
      exists w', download_mod E spec dest B w = (Ok None, w')
                 /\ fs w' = fs w
                 /\ filter is_body (net w') = filter is_body (net w)).
Proof.
  split; [intros; apply excluded_iff|].
  intros Hurl Hopen Hex.
  unfold download_mod, bind, logger. rewrite Hurl, Hopen, Hex.
  eexists. split; [reflexivity|]. simpl.
  assert (Hfs1 : fs w1 = fs w /\ filter is_body (net w1) = filter is_body (net w)).
  { unfold mod_url, bind, item, urlopen, logger, ret, raise in Hurl.
    destruct (projectID spec); [|discriminate].
    destruct (env_internet E _ _ _); [discriminate|].
    destruct (fileID spec); [|discriminate]. simpl in Hurl.
    injection Hurl as _ <-. simpl. rewrite filter_app. simpl. rewrite app_nil_r. auto. }
  unfold urlopen in Hopen. destruct (env_internet E _ _ _); [discriminate|].
  injection Hopen as _ <-. simpl. rewrite filter_app. simpl. rewrite app_nil_r.
  tauto.
Qed.
End Exclusion.

Lemma quiet_ret {A : Type} (a : A) : quiet (ret a).
Proof. intros w r w' [= _ <-]. auto. Qed.

Lemma quiet_raise {A : Type} (e : exn) : quiet (@raise A e).
Proof. intros w r w' [= _ <-]. auto. Qed.

Lemma quiet_test (f : Fs.node -> bool) : quiet (test f).
Proof. intros w r w' [= _ <-]. auto. Qed.

Lemma quiet_sys (f : Fs.node -> errno + Fs.node) : quiet (sys f).
Proof. intros w r w'. unfold sys. destruct (f (fs w)); intros [= _ <-]; auto. Qed.

Lemma quiet_ask {A : Type} (f : Fs.node -> errno + A) : quiet (ask f).
Proof. intros w r w'. unfold ask. destruct (f (fs w)); intros [= _ <-]; auto. Qed.

Lemma quiet_logger (l : level) (t : string) (a : list logarg) : quiet (logger l t a).
Proof. intros w r w' [= _ <-]. auto. Qed.

Lemma quiet_bind {A B : Type} (m : M A) (k : A -> M B) :
  quiet m -> (forall a, quiet (k a)) -> quiet (bind m k).
Proof.
  intros Hm Hk w r w'. unfold bind.
  destruct (m w) as [[a|e|] w1] eqn:H1; apply Hm in H1 as [Hn Hp].
  - intros H2. apply Hk in H2 as [Hn2 Hp2]. split; congruence.
  - intros [= _ <-]. auto.
  - intros [= _ <-]. auto.
Qed.

Lemma quiet_if {A : Type} (b : bool) (m1 m2 : M A) :
  quiet m1 -> quiet m2 -> quiet (if b then m1 else m2).
Proof. destruct b; auto. Qed.

Create HintDb quiet.
#[export] Hint Resolve quiet_ret quiet_raise quiet_test quiet_sys quiet_ask
  quiet_logger quiet_if : quiet.
#[export] Hint Extern 2 (quiet (bind _ _)) => apply quiet_bind; [|intro] : quiet.

Section Forge.
Variable E : environment.

Lemma requests_app l1 l2 : requests (l1 ++ l2) = requests l1 ++ requests l2.
Proof. unfold requests. apply flat_map_app. Qed.

Lemma download_url_trace (u : string) (dir : PurePath.t) (o : outcome PurePath.t)
    (w w1 : world) :
  download E (inl u) dir None w = (o, w1) ->
  requests (net w1) = requests (net w) ++ [u] /\ procs w1 = procs w.
Proof.
  unfold download, bind, urlopen, logger, open_path, transfer, ret.
  destruct (env_internet E _ _ _) as [e|conn]; simpl.
  - intros [= _ <-]. simpl. rewrite requests_app. auto.
  - destruct (Fs.open_wb _ _) as [e|[t f]]; simpl.
    + intros [= _ <-]. simpl. rewrite requests_app. auto.
    + destruct (failure conn); simpl; intros [= _ <-]; simpl;
        rewrite !requests_app; simpl; rewrite app_nil_r; auto.
Qed.

(** Lines 104-114, after the installer is known. *)
Lemma install_trace (p dest : PurePath.t) (w : world) (k : unit -> M unit) :
  forall r w',
  (logger INFO "Forge downloaded" [] ;;
   check_call E ["java"; "-jar"; PurePath.to_string p; "--installServer"]
     (PurePath.to_string dest) ;;
   k tt)%monad w = (r, w') ->
  (forall u w2 r2 w3, k u w2 = (r2, w3) -> net w3 = net w2 /\ procs w3 = procs w2) ->
  net w' = net w /\ procs w' = procs w ++ [installer_call p dest].
Proof.
  intros r w'. unfold bind, logger, check_call. simpl.
  destruct (env_spawn E _ _ _) as [[rc t]|]; simpl.
  - destruct (Z.eqb rc 0); simpl.
    + intros H Hk. destruct (k tt _) as [r2 w3] eqn:Hk2.
      apply Hk in Hk2. simpl in Hk2. injection H as _ <-. tauto.
    + intros [= _ <-] _. simpl. auto.
  - intros [= _ <-] _. simpl. auto.
Qed.

Lemma download_returns (c : string + response) (dir : PurePath.t)
    (f : option string) (w w1 : world) :
  download E c dir f w <> (OutOfFuel, w1).
Proof.
  unfold download, bind, urlopen, logger, open_path, transfer, ret.
  destruct c as [u|conn]; simpl.
  - destruct (env_internet E _ _ _) as [e|conn]; simpl; [discriminate|].
    destruct (Fs.open_wb _ _) as [e|[t h]]; simpl; [discriminate|].
    destruct (failure conn); discriminate.
  - destruct (Fs.open_wb _ _) as [e|[t h]]; simpl; [discriminate|].
    destruct (failure conn); discriminate.
Qed.

Lemma quiet_link_forge (args : arguments) (dest_dir p : PurePath.t) :
  quiet (link_forge E args dest_dir p).
Proof. unfold link_forge. auto 10 with quiet. Qed.

(** C8: [update_forge] requests the installer under its first name; when
    that download succeeds nothing else is requested and the installer is
    started once, on the path just written.  When it fails with HTTP 404
    the second name is requested, once: its success starts the installer
    once, on the second path, and its failure is the result of the update,
    with no process started.  Any other failure of the first download is
    the result of the update: no second request, no process. *)
Theorem forge_fallback_once (args : arguments) (mc_version forge_version : string)
    (tmp_dir dest_dir : PurePath.t) (w : world) :
  let primary := (mc_version ++ "-" ++ forge_version)%string in
  let fallback := (primary ++ "-" ++ mc_version)%string in
  let '(r, w') := update_forge E args mc_version forge_version tmp_dir dest_dir w in
  match download E (inl (forge_installer_url primary)) tmp_dir None (started w primary) with
  | (Ok p, _) =>
      requests (net w') = requests (net w) ++ [forge_installer_url primary]
      /\ procs w' = procs w ++ [installer_call p dest_dir]
  | (Raise e, w1) =>
      if not_found e then
        match download E (inl (forge_installer_url fallback)) tmp_dir None w1 with
        | (Ok p, _) =>
            requests (net w')
            = requests (net w) ++ [forge_installer_url primary; forge_installer_url fallback]
            /\ procs w' = procs w ++ [installer_call p dest_dir]
        | (Raise e2, w2) =>
            r = Raise e2 /\ w' = w2
            /\ requests (net w')
               = requests (net w) ++ [forge_installer_url primary; forge_installer_url fallback]
            /\ procs w' = procs w
        | (OutOfFuel, _) => False
        end
      else
        r = Raise e /\ w' = w1
        /\ requests (net w') = requests (net w) ++ [forge_installer_url primary]
        /\ procs w' = procs w
  | (OutOfFuel, _) => False
  end.
Proof.
  intros primary fallback.
  destruct (update_forge E args mc_version forge_version tmp_dir dest_dir w) as [r w'] eqn:Hrun.
  unfold update_forge in Hrun. fold primary in Hrun. fold fallback in Hrun.
  unfold bind at 1 in Hrun. unfold logger at 1 in Hrun. fold (started w primary) in Hrun.
  unfold bind at 1 in Hrun. unfold try_except in Hrun. unfold bind at 1 in Hrun.
  destruct (download E (inl (forge_installer_url primary)) tmp_dir None (started w primary))
    as [[p|e|] w1] eqn:Hd1.
  - apply download_url_trace in Hd1 as [Hn1 Hp1]. simpl in Hn1, Hp1.
    unfold ret at 1 in Hrun. unfold bind at 1 in Hrun. unfold ret at 1 in Hrun.
    apply (install_trace p dest_dir w1 (fun _ => link_forge E args dest_dir p)) in Hrun
      as [Hn Hp].
    + rewrite Hn, Hp, Hp1. auto.
    + intros u. apply quiet_link_forge.
  - destruct e as [code u| | | | | | |]; simpl;
      try (injection Hrun as <- <-; apply download_url_trace in Hd1 as [Hn1 Hp1];
           simpl in Hn1, Hp1; auto).
    destruct (Z.eqb code 404) eqn:Hc.
    + unfold ret at 1 in Hrun. unfold bind at 1 in Hrun.
      apply download_url_trace in Hd1 as [Hn1 Hp1]. simpl in Hn1, Hp1.
      destruct (download E (inl (forge_installer_url fallback)) tmp_dir None w1)
        as [[p|e2|] w2] eqn:Hd2.
      * apply download_url_trace in Hd2 as [Hn2 Hp2].
        apply (install_trace p dest_dir w2 (fun _ => link_forge E args dest_dir p)) in Hrun
          as [Hn Hp].
        -- rewrite Hn, Hp, Hp2, Hn2, Hp1, Hn1, <- app_assoc. auto.
        -- intros u'. apply quiet_link_forge.
      * injection Hrun as <- <-. apply download_url_trace in Hd2 as [Hn2 Hp2].
        rewrite Hn2, Hn1, Hp2, Hp1, <- app_assoc. auto.
      * apply download_returns in Hd2. contradiction.
    + injection Hrun as <- <-. apply download_url_trace in Hd1 as [Hn1 Hp1].
      simpl in Hn1, Hp1. auto.
  - apply download_returns in Hd1. contradiction.
Qed.
End Forge.

Section Pool.

Lemma set_nth_length i f (l : futures) : List.length (set_nth i f l) = List.length l.
Proof. revert i; induction l; intros [|i]; simpl; auto. Qed.

Lemma nth_set_nth_eq i f (l : futures) :
  i < List.length l -> nth_error (set_nth i f l) i = Some f.
Proof.
  revert i; induction l; intros [|i]; simpl; intros H; try lia; auto.
  apply IHl. lia.
Qed.

Lemma nth_set_nth_neq i j f (l : futures) :
  j <> i -> nth_error (set_nth i f l) j = nth_error l j.
Proof.
  revert i j; induction l; intros [|i] [|j]; simpl; intros H; auto; try lia.
Qed.

Lemma seen_set_nth_unseen i f (l : futures) g :
  nth_error l i = Some g -> seen_result g = None -> seen_result f = None ->
  seen (set_nth i f l) = seen l.
Proof.
  revert i; induction l; intros [|i]; simpl; intros H Hg Hf; try discriminate.
  - injection H as ->. unfold seen. simpl. congruence.
  - unfold seen in *. simpl. f_equal. eauto.
Qed.

Lemma seen_start_first (l : futures) : seen (start_first l) = seen l.
Proof.
  induction l as [|f l IH]; simpl; auto.
  destruct f; simpl; unfold seen in *; simpl; congruence.
Qed.

Lemma seen_worker_start n (l : futures) : seen (worker_start n l) = seen l.
Proof. unfold worker_start. destruct (_ <? _); auto using seen_start_first. Qed.

Lemma seen_worker_finish i (l : futures) w :
  seen (fst (worker_finish i l w)) = seen l.
Proof.
  unfold worker_finish. destruct (nth_error l i) as [[t|t|s r|]|] eqn:H; simpl; auto.
  destruct (t w) as [r w']. simpl. eapply seen_set_nth_unseen; eauto.
Qed.

Lemma seen_cancel_all (l : futures) : seen (cancel_all l) = seen l.
Proof.
  unfold seen, cancel_all. rewrite map_map. apply map_ext. intros []; auto.
Qed.

Lemma seen_settle (l : futures) w : seen (fst (settle l w)) = seen l.
Proof.
  revert w; induction l as [|f l IH]; intros w; simpl; auto.
  destruct f as [t|t|s r|]; simpl.
  - destruct (t w) as [r w1]. specialize (IH w1). destruct (settle l w1). simpl in *.
    unfold seen in *. simpl. congruence.
  - destruct (t w) as [r w1]. specialize (IH w1). destruct (settle l w1). simpl in *.
    unfold seen in *. simpl. congruence.
  - specialize (IH w). destruct (settle l w). simpl in *. unfold seen in *. simpl. congruence.
  - specialize (IH w). destruct (settle l w). simpl in *. unfold seen in *. simpl. congruence.
Qed.

Lemma settle_settled (l : futures) w : forallb settled (fst (settle l w)) = true.
Proof.
  revert w; induction l as [|f l IH]; intros w; simpl; auto.
  destruct f as [t|t|s r|]; simpl.
  - destruct (t w) as [r w1]. specialize (IH w1). destruct (settle l w1). simpl in *. auto.
  - destruct (t w) as [r w1]. specialize (IH w1). destruct (settle l w1). simpl in *. auto.
  - specialize (IH w). destruct (settle l w). simpl in *. auto.
  - specialize (IH w). destruct (settle l w). simpl in *. auto.
Qed.

Lemma seen_work n sched (l : futures) w : seen (fst (work n sched l w)) = seen l.
Proof.
  revert l w; induction sched as [|[|i|i] sched IH]; intros l w; simpl; auto.
  - rewrite IH. apply seen_worker_start.
  - pose proof (seen_worker_finish i l w) as H. destruct (worker_finish i l w) as [l' w'].
    simpl in H. rewrite IH. exact H.
Qed.

Lemma seen_shutdown n sched (l : futures) w : seen (fst (shutdown n sched l w)) = seen l.
Proof.
  unfold shutdown. pose proof (seen_work n sched l w) as H.
  destruct (work n sched l w) as [l1 w1]. simpl in H.
  pose proof (seen_settle l1 w1) as H2. destruct (settle l1 w1). simpl in *. congruence.
Qed.

Lemma shutdown_settled n sched (l : futures) w :
  forallb settled (fst (shutdown n sched l w)) = true.
Proof.
  unfold shutdown. destruct (work n sched l w) as [l1 w1].
  pose proof (settle_settled l1 w1) as H2. destruct (settle l1 w1). auto.
Qed.

Lemma seen_nth (l : futures) j r :
  nth_error l j = Some (Finished true r) <-> nth_error (seen l) j = Some (Some r).
Proof.
  unfold seen. split.
  - intros H. erewrite map_nth_error; eauto. reflexivity.
  - intros H. rewrite nth_error_map in H. destruct (nth_error l j) as [f|]; simpl in H; [|discriminate].
    destruct f as [t|t|[] r'|]; simpl in H; try discriminate. congruence.
Qed.

Lemma observed_failure_seen (l l' : futures) e :
  seen l' = seen l -> observed_failure l e -> observed_failure l' e.
Proof.
  intros Hs (i & Hi & Hrest). exists i. split.
  - apply seen_nth. rewrite Hs. now apply seen_nth.
  - intros j r Hj. apply seen_nth in Hj. rewrite Hs in Hj. apply seen_nth in Hj. eauto.
Qed.

Lemma live_seen_ok (l : futures) j r :
  forallb live l = true -> nth_error l j = Some (Finished true r) -> exists v, r = Ok v.
Proof.
  intros Hl Hj. rewrite forallb_forall in Hl. apply nth_error_In in Hj. apply Hl in Hj.
  simpl in Hj. destruct r; try discriminate. eauto.
Qed.

(** The loop body at a failed future: every pending future is cancelled
    and the exception is raised. *)
Lemma observe_failure (l : futures) (w : world) (e : exn) :
  exists w', observe (Raise e) l w = (Raise e, cancel_all l, w') /\ fs w' = fs w.
Proof. unfold observe. destruct e; eexists; split; reflexivity. Qed.

Lemma cancel_all_none_pending (l : futures) :
  forallb (fun f => negb (is_pending f)) (cancel_all l) = true.
Proof. induction l as [|[] l IH]; simpl; auto. Qed.

Lemma failure_at (l : futures) i e r0 :
  forallb live l = true -> nth_error l i = Some (Finished false r0) ->
  observed_failure (cancel_all (set_nth i (Finished true (Raise e)) l)) e.
Proof.
  intros Hl Hi.
  assert (Hlen : i < List.length l) by (apply nth_error_Some; congruence).
  apply observed_failure_seen with (l := set_nth i (Finished true (Raise e)) l);
    [apply seen_cancel_all|].
  exists i. split; [now apply nth_set_nth_eq|].
  intros j r Hj. destruct (Nat.eq_dec j i) as [->|Hne]; [now left|right].
  rewrite nth_set_nth_neq in Hj by assumption. eapply live_seen_ok; eauto.
Qed.

Lemma live_set_nth i f (l : futures) :
  live f = true -> forallb live l = true -> forallb live (set_nth i f l) = true.
Proof.
  revert i; induction l as [|g l IH]; intros [|i]; simpl; intros Hf Hl; auto;
    apply andb_true_iff in Hl as [Hg Hl]; apply andb_true_iff; auto.
Qed.

Lemma live_start_first (l : futures) :
  forallb live l = true -> forallb live (start_first l) = true.
Proof.
  induction l as [|f l IH]; simpl; auto.
  intros H. apply andb_true_iff in H as [Hf Hl].
  destruct f; simpl in *; rewrite ?Hf, ?Hl, ?IH; auto.
Qed.

Lemma live_worker_start n (l : futures) :
  forallb live l = true -> forallb live (worker_start n l) = true.
Proof. unfold worker_start. destruct (_ <? _); auto using live_start_first. Qed.

Lemma live_worker_finish i (l : futures) w :
  forallb live l = true -> forallb live (fst (worker_finish i l w)) = true.
Proof.
  unfold worker_finish. intros Hl.
  destruct (nth_error l i) as [[t|t|s r|]|]; simpl; auto.
  destruct (t w) as [r w']. simpl. now apply live_set_nth.
Qed.

Lemma forallb_nth (P : future (option PurePath.t) -> bool) (l : futures) :
  (forall j f, nth_error l j = Some f -> P f = true) -> forallb P l = true.
Proof.
  intros H. apply forallb_forall. intros f Hin.
  apply In_nth_error in Hin as [j Hj]. eauto.
Qed.

Lemma observe_step (r0 : result) (i : nat) (l : futures) (w : world) r l1 w1 :
  forallb live l = true ->
  nth_error l i = Some (Finished false r0) ->
  observe r0 (set_nth i (Finished true r0) l) w = (r, l1, w1) ->
  match r with
  | Ok _ => exists v, r0 = Ok v /\ l1 = set_nth i (Finished true (Ok v)) l
                      /\ forallb live l1 = true
  | Raise e => observed_failure l1 e
  | OutOfFuel => True
  end.
Proof.
  intros Hl Hi. unfold observe. destruct r0 as [v|e|]; intros [= <- <- <-].
  - exists v. repeat split. now apply live_set_nth.
  - eapply failure_at; eauto.
  - exact I.
Qed.

Lemma settle_result (e : exn) (l : futures) (w : world) r l' w' :
  observed_failure l e ->
  (let '(l3, w3) := settle l w in (Raise e : outcome unit, l3, w3)) = (r, l', w') ->
  batch_result r l'.
Proof.
  intros Hobs. pose proof (settle_settled l w) as Hs. pose proof (seen_settle l w) as Hseen.
  destruct (settle l w) as [l3 w3]. simpl in *. intros [= <- <- <-]. simpl.
  split; [assumption|]. eapply observed_failure_seen; eauto.
Qed.

Lemma collect_rest_result n : forall i (l : futures) w r l' w',
  collect_rest n i l w = (r, l', w') ->
  forallb live l = true ->
  List.length l = i + n ->
  (forall j f, j < i -> nth_error l j = Some f -> succeeded f = true) ->
  batch_result r l'.
Proof.
  induction n as [|n IH]; intros i l w r l' w' Hrun Hlive Hlen Hdone.
  - simpl in Hrun. injection Hrun as <- <- <-. simpl.
    apply forallb_nth. intros j f Hj. apply (Hdone j f); auto.
    assert (j < List.length l) by (apply nth_error_Some; congruence). lia.
  - assert (Hi : i < List.length l) by lia.
    assert (Hobserve : forall l1 w1 r0,
              forallb live l1 = true -> List.length l1 = List.length l ->
              (forall j, j <> i -> nth_error l1 j = nth_error l j) ->
              nth_error l1 i = Some (Finished false r0) ->
              match observe r0 (set_nth i (Finished true r0) l1) w1 with
              | (Ok _, l2, w2) => collect_rest n (S i) l2 w2
              | (err, l2, w2) => let '(l3, w3) := settle l2 w2 in (err, l3, w3)
              end = (r, l', w') ->
              batch_result r l').
    { intros l1 w1 r0 Hlive1 Hlen1 Hsame Hat Hrun1.
      destruct (observe r0 (set_nth i (Finished true r0) l1) w1) as [[r2 l2] w2] eqn:Hobs.
      apply observe_step in Hobs; auto.
      destruct r2 as [u|e|].
      - destruct Hobs as (v & -> & -> & Hlive2).
        apply (IH (S i) (set_nth i (Finished true (Ok v)) l1) w2 r l' w'); auto.
        + rewrite set_nth_length. lia.
        + intros j g Hj Hg. destruct (Nat.eq_dec j i) as [->|Hne].
          * rewrite nth_set_nth_eq in Hg by lia. now injection Hg as <-.
          * rewrite nth_set_nth_neq, Hsame in Hg by assumption. apply (Hdone j g); auto. lia.
      - eapply settle_result; eauto.
      - destruct (settle l2 w2). injection Hrun1 as <- _ _. exact I. }
    simpl in Hrun.
    destruct (nth_error l i) as [[t|t|[|] r0|]|] eqn:Hf.
    + destruct (t w) as [r0 w0].
      rewrite nth_set_nth_eq in Hrun by assumption.
      apply (Hobserve (set_nth i (Finished false r0) l) w0 r0);
        auto using live_set_nth, set_nth_length, nth_set_nth_neq, nth_set_nth_eq.
    + destruct (t w) as [r0 w0].
      rewrite nth_set_nth_eq in Hrun by assumption.
      apply (Hobserve (set_nth i (Finished false r0) l) w0 r0);
        auto using live_set_nth, set_nth_length, nth_set_nth_neq, nth_set_nth_eq.
    + destruct (live_seen_ok l i r0 Hlive Hf) as [v ->].
      rewrite Hf in Hrun.
      apply (IH (S i) l w r l' w'); auto; [lia|].
      intros j g Hj Hg. destruct (Nat.eq_dec j i) as [->|Hne].
      * rewrite Hf in Hg. now injection Hg as <-.
      * apply (Hdone j g); auto. lia.
    + rewrite Hf in Hrun. apply (Hobserve l w r0); auto.
    + exfalso. clear Hrun. rewrite forallb_forall in Hlive.
      apply nth_error_In in Hf. apply Hlive in Hf. discriminate.
    + apply nth_error_None in Hf. lia.
Qed.

Lemma collect_result n sched : forall (l : futures) w r l' w',
  collect n sched l w = (r, l', w') ->
  forallb live l = true ->
  batch_result r l'.
Proof.
  induction sched as [|[|i|i] sched IH]; intros l w r l' w' Hrun Hlive; simpl in Hrun.
  - eapply collect_rest_result; eauto. intros j f Hj. lia.
  - eapply IH; eauto using live_worker_start.
  - pose proof (live_worker_finish i l w Hlive) as Hl.
    destruct (worker_finish i l w) as [l1 w1]. eapply IH; eauto.
  - destruct (nth_error l i) as [[t|t|[|] r0|]|] eqn:Hf; try (eapply IH; now eauto).
    destruct (observe r0 (set_nth i (Finished true r0) l) w) as [[r2 l2] w2] eqn:Hobs.
    apply observe_step in Hobs; auto.
    destruct r2 as [u|e|].
    + destruct Hobs as (v & -> & -> & Hlive2). eapply IH; eauto.
    + pose proof (shutdown_settled n sched l2 w2) as Hs.
      pose proof (seen_shutdown n sched l2 w2) as Hseen.
      destruct (shutdown n sched l2 w2) as [l3 w3]. simpl in *.
      injection Hrun as <- <- <-. simpl. split; [assumption|].
      eapply observed_failure_seen; eauto.
    + destruct (shutdown n sched l2 w2). injection Hrun as <- _ _. exact I.
Qed.

(** [cancel] changes a pending future and no other. *)
Lemma cancel_all_nth (l : futures) i f :
  nth_error l i = Some f ->
  nth_error (cancel_all l) i = Some (match f with Pending _ => Cancelled | _ => f end).
Proof.
  intros H. unfold cancel_all. rewrite nth_error_map, H. reflexivity.
Qed.

Lemma cancelled_start_first (l : futures) : forall i,
  nth_error l i = Some Cancelled -> nth_error (start_first l) i = Some Cancelled.
Proof.
  induction l as [|f l IH]; intros [|i] H; simpl in *; try discriminate.
  - injection H as ->. reflexivity.
  - destruct f; simpl; auto.
Qed.

Lemma cancelled_worker_start n (l : futures) i :
  nth_error l i = Some Cancelled -> nth_error (worker_start n l) i = Some Cancelled.
Proof.
  intros H. unfold worker_start. destruct (_ <? n); auto using cancelled_start_first.
Qed.

Lemma cancelled_worker_finish k (l : futures) w i :
  nth_error l i = Some Cancelled ->
  nth_error (fst (worker_finish k l w)) i = Some Cancelled.
Proof.
  intros H. unfold worker_finish.
  destruct (nth_error l k) as [[t|t|s r|]|] eqn:Hk; simpl; auto.
  destruct (t w) as [r w']. simpl.
  rewrite nth_set_nth_neq; auto. intros ->. congruence.
Qed.

(** No worker starts a cancelled future. *)
Lemma cancelled_work n sched : forall (l : futures) w i,
  nth_error l i = Some Cancelled ->
  nth_error (fst (work n sched l w)) i = Some Cancelled.
Proof.
  induction sched as [|[|k|k] sched IH]; intros l w i H; simpl; auto.
  - apply IH. now apply cancelled_worker_start.
  - pose proof (cancelled_worker_finish k l w i H) as Hk.
    destruct (worker_finish k l w) as [l1 w1]. apply IH. exact Hk.
Qed.

Lemma cancelled_settle (l : futures) : forall w i,
  nth_error l i = Some Cancelled ->
  nth_error (fst (settle l w)) i = Some Cancelled.
Proof.
  induction l as [|f l IH]; intros w [|i] H; simpl in *; try discriminate.
  - injection H as ->. destruct (settle l w). reflexivity.
  - destruct f as [t|t|s r|].
    + destruct (t w) as [r w1]. specialize (IH w1 i H).
      destruct (settle l w1). exact IH.
    + destruct (t w) as [r w1]. specialize (IH w1 i H).
      destruct (settle l w1). exact IH.
    + specialize (IH w i H). destruct (settle l w). exact IH.
    + specialize (IH w i H). destruct (settle l w). exact IH.
Qed.

(** A cancelled future stays cancelled to the end of the block: its task
    is never run. *)
Lemma cancelled_shutdown n sched (l : futures) w i :
  nth_error l i = Some Cancelled ->
  nth_error (fst (shutdown n sched l w)) i = Some Cancelled.
Proof.
  intros H. unfold shutdown.
  pose proof (cancelled_work n sched l w i H) as Hw.
  destruct (work n sched l w) as [l1 w1]. now apply cancelled_settle.
Qed.

(** What was pending when a failure is observed is cancelled. *)
Lemma pending_cancelled (l : futures) i j r t :
  nth_error l j = Some (Pending t) -> j <> i ->
  nth_error (cancel_all (set_nth i (Finished true r) l)) j = Some Cancelled.
Proof.
  intros Hj Hne. rewrite (cancel_all_nth _ j (Pending t)); auto.
  now rewrite nth_set_nth_neq.
Qed.

(** The failure of future [i] is observed at its turn in the schedule. *)
Lemma observed_cancels n sched (l : futures) w i e :
  nth_error l i = Some (Finished false (Raise e)) ->
  exists l2 w2,
    collect n (Observe i :: sched) l w = (Raise e, l2, w2)
    /\ forall j t, nth_error l j = Some (Pending t) -> nth_error l2 j = Some Cancelled.
Proof.
  intros Hi. cbn [collect]. rewrite Hi. unfold observe.
  match goal with
  | |- context [shutdown n sched ?l1 ?w1] =>
      pose proof (fun j => cancelled_shutdown n sched l1 w1 j) as Hs;
      destruct (shutdown n sched l1 w1) as [l2 w2]
  end.
  exists l2, w2. split; [reflexivity|].
  intros j t Hj. apply Hs. apply (pending_cancelled l i j _ t Hj). congruence.
Qed.

(** The failure of future [i] is observed once the schedule is used up. *)
Lemma collected_cancels n (l : futures) w i t e w1 :
  nth_error l i = Some (Pending t) \/ nth_error l i = Some (Running t) ->
  t w = (Raise e, w1) ->
  exists l2 w2,
    collect_rest (S n) i l w = (Raise e, l2, w2)
    /\ forall j t', j <> i -> nth_error l j = Some (Pending t') ->
                    nth_error l2 j = Some Cancelled.
Proof.
  intros Hi Ht.
  assert (Hlen : i < List.length l) by (apply nth_error_Some; destruct Hi; congruence).
  cbn [collect_rest].
  assert (Hstep : (let '(l1, w0) :=
                     let '(r, w') := t w in (set_nth i (Finished false r) l, w') in
                   match nth_error l1 i with
                   | Some (Finished false r) =>
                       match observe r (set_nth i (Finished true r) l1) w0 with
                       | (Ok _, l2, w2) => collect_rest n (S i) l2 w2
                       | (err, l2, w2) => let '(l3, w3) := settle l2 w2 in (err, l3, w3)
                       end
                   | _ => collect_rest n (S i) l1 w0
                   end)
                  = (let '(l3, w3) :=
                       settle (cancel_all (set_nth i (Finished true (Raise e))
                                             (set_nth i (Finished false (Raise e)) l)))
                         (match e with
                          | HTTPError _ u =>
                              add_log w1 {| log_level := ERROR;
                                            log_template := "Error while fetching {}";
                                            log_args := [AStr u] |}
                          | _ => w1
                          end) in
                     (Raise e, l3, w3))).
  { rewrite Ht. rewrite nth_set_nth_eq by exact Hlen. unfold observe. reflexivity. }
  assert (Hgoal : exists l2 w2,
             (let '(l3, w3) :=
                settle (cancel_all (set_nth i (Finished true (Raise e))
                                      (set_nth i (Finished false (Raise e)) l)))
                  (match e with
                   | HTTPError _ u =>
                       add_log w1 {| log_level := ERROR;
                                     log_template := "Error while fetching {}";
                                     log_args := [AStr u] |}
                   | _ => w1
                   end) in
              (Raise e : outcome unit, l3, w3)) = (Raise e, l2, w2)
             /\ forall j t', j <> i -> nth_error l j = Some (Pending t') ->
                             nth_error l2 j = Some Cancelled).
  { match goal with
    | |- context [settle ?l1 ?w0] =>
        pose proof (fun j => cancelled_settle l1 w0 j) as Hs;
        destruct (settle l1 w0) as [l3 w3]
    end.
    exists l3, w3. split; [reflexivity|].
    intros j t' Hne Hj. apply Hs.
    apply (pending_cancelled _ i j _ t'); auto. now rewrite nth_set_nth_neq. }
  destruct Hgoal as (l2 & w2 & Heq & Hc). exists l2, w2. split; [|exact Hc].
  destruct Hi as [Hi|Hi]; rewrite Hi; rewrite Hstep; exact Heq.
Qed.

(** The same for a future that a worker has completed and the loop has
    not seen yet. *)
Lemma completed_cancels n (l : futures) w i e :
  nth_error l i = Some (Finished false (Raise e)) ->
  exists l2 w2,
    collect_rest (S n) i l w = (Raise e, l2, w2)
    /\ forall j t', nth_error l j = Some (Pending t') -> nth_error l2 j = Some Cancelled.
Proof.
  intros Hi. cbn [collect_rest]. rewrite Hi. cbv beta iota zeta. rewrite Hi. unfold observe.
  match goal with
  | |- context [settle ?l1 ?w0] =>
      pose proof (fun j => cancelled_settle l1 w0 j) as Hs;
      destruct (settle l1 w0) as [l3 w3]
  end.
  exists l3, w3. split; [reflexivity|].
  intros j t' Hj. apply Hs. apply (pending_cancelled l i j _ t' Hj). congruence.
Qed.

End Pool.

Module FsFacts.
Import Fs.

Lemma child_put_eq es x n : child (put es x n) x = Some n.
Proof.
  induction es as [|[y m] es IH]; simpl.
  - now rewrite String.eqb_refl.
  - destruct (String.eqb x y) eqn:Hxy; simpl.
    + now rewrite String.eqb_refl.
    + now rewrite Hxy.
Qed.

Lemma child_put_neq es x y n : x <> y -> child (put es x n) y = child es y.
Proof.
  intros Hne. induction es as [|[z m] es IH]; simpl.
  - apply not_eq_sym in Hne. apply String.eqb_neq in Hne. now rewrite Hne.
  - destruct (String.eqb x z) eqn:Hxz; simpl.
    + apply String.eqb_eq in Hxz. subst z.
      apply not_eq_sym in Hne. apply String.eqb_neq in Hne. now rewrite Hne.
    + destruct (String.eqb y z); auto.
Qed.

Lemma child_del_eq es x : child (del es x) x = None.
Proof.
  induction es as [|[y m] es IH]; simpl; auto.
  destruct (String.eqb x y) eqn:Hxy; simpl; auto. now rewrite Hxy.
Qed.

Lemma child_del_neq es x y : x <> y -> child (del es x) y = child es y.
Proof.
  intros Hne. induction es as [|[z m] es IH]; simpl; auto.
  destruct (String.eqb x z) eqn:Hxz; simpl.
  - apply String.eqb_eq in Hxz. subst z.
    apply not_eq_sym in Hne. apply String.eqb_neq in Hne. now rewrite Hne.
  - destruct (String.eqb y z); auto.
Qed.

Lemma lookup_app n p q :
  lookup n (p ++ q) = match lookup n p with Some m => lookup m q | None => None end.
Proof.
  revert n; induction p as [|x p IH]; intros n; simpl; auto.
  destruct n as [d|es|t]; auto. destruct (child es x); auto.
Qed.

Lemma lookup_nil n : lookup n [] = Some n.
Proof. reflexivity. Qed.

(** Prefixes *)

Lemma prefixb_app p q : PurePath.prefixb p (p ++ q) = true.
Proof. induction p; simpl; auto. now rewrite String.eqb_refl. Qed.

Lemma prefixb_true p q : PurePath.prefixb p q = true -> exists r, q = p ++ r.
Proof.
  revert q; induction p as [|x p IH]; intros q; simpl.
  - exists q. reflexivity.
  - destruct q as [|y q]; [discriminate|]. rewrite andb_true_iff. intros [Hxy Hp].
    apply String.eqb_eq in Hxy. subst y. destruct (IH q Hp) as [r ->]. now exists r.
Qed.

Lemma prefixb_refl p : PurePath.prefixb p p = true.
Proof. rewrite <- (app_nil_r p) at 2. apply prefixb_app. Qed.

Lemma apart_sym p q : apart p q = apart q p.
Proof. unfold apart. apply andb_comm. Qed.

Lemma apart_cons x p q : apart (x :: p) (x :: q) = apart p q.
Proof. unfold apart. simpl. now rewrite String.eqb_refl. Qed.

Lemma apart_app_r p q r : apart p q = true -> apart p (q ++ r) = true.
Proof.
  revert q; induction p as [|x p IH]; intros [|y q]; simpl; try discriminate.
  unfold apart. simpl. destruct (String.eqb x y) eqn:Hxy; simpl.
  - rewrite String.eqb_sym, Hxy. simpl. apply IH.
  - rewrite String.eqb_sym, Hxy. reflexivity.
Qed.

Lemma apart_app_l p q r : apart p q = true -> apart (p ++ r) q = true.
Proof. intros H. rewrite apart_sym. apply apart_app_r. now rewrite apart_sym. Qed.

Lemma apart_siblings p x y : x <> y -> apart (p ++ [x]) (p ++ [y]) = true.
Proof.
  intros Hne. induction p as [|z p IH]; simpl.
  - unfold apart. simpl. apply String.eqb_neq in Hne. rewrite Hne.
    rewrite String.eqb_sym, Hne. reflexivity.
  - now rewrite apart_cons.
Qed.

Lemma apart_irrefl_prefix p q : apart p (p ++ q) = false.
Proof. unfold apart. now rewrite prefixb_app. Qed.

(** Lookup after an update *)

Lemma update_deep es x y q v :
  update (Dir es) (x :: y :: q) v
  = match child es x with
    | Some c => Dir (put es x (update c (y :: q) v))
    | None => Dir es
    end.
Proof. reflexivity. Qed.

Lemma lookup_cons es x p :
  lookup (Dir es) (x :: p)
  = match child es x with Some m => lookup m p | None => None end.
Proof. reflexivity. Qed.

Lemma update_apart q : forall fs p v,
  apart q p = true -> lookup (update fs q v) p = lookup fs p.
Proof.
  induction q as [|x q IH]; intros fs p v Hap.
  - discriminate.
  - destruct p as [|y p]; [unfold apart in Hap; simpl in Hap; discriminate|].
    simpl. destruct fs as [d|es|t]; auto.
    destruct (String.eqb x y) eqn:Hxy.
    + apply String.eqb_eq in Hxy. subst y. rewrite apart_cons in Hap.
      destruct q as [|z q].
      * discriminate.
      * destruct (child es x) as [c|] eqn:Hc; simpl; [|now rewrite Hc].
        rewrite child_put_eq. now apply IH.
    + apply String.eqb_neq in Hxy.
      destruct q as [|z q].
      * destruct v; simpl; [now rewrite child_put_neq | now rewrite child_del_neq].
      * destruct (child es x) as [c|] eqn:Hc; simpl; auto.
        now rewrite child_put_neq.
Qed.

Lemma update_same q : forall fs v,
  q <> [] -> parent_dir fs q = true -> lookup (update fs q v) q = v.
Proof.
  unfold parent_dir.
  induction q as [|x q IH]; intros fs v Hne Hpar; [congruence|].
  destruct q as [|y q].
  - simpl in *. destruct fs as [d|es|t]; try discriminate.
    destruct v; simpl; [now rewrite child_put_eq | now rewrite child_del_eq].
  - change (removelast (x :: y :: q)) with (x :: removelast (y :: q)) in Hpar.
    simpl in Hpar. destruct fs as [d|es|t]; try discriminate.
    destruct (child es x) as [c|] eqn:Hc; [|discriminate].
    rewrite update_deep, Hc, lookup_cons, child_put_eq.
    apply IH; [discriminate | assumption].
Qed.

Lemma update_below q r : forall fs n,
  q <> [] -> parent_dir fs q = true ->
  lookup (update fs q (Some n)) (q ++ r) = lookup n r.
Proof.
  intros fs n Hne Hpar. rewrite lookup_app, update_same; auto.
Qed.

Lemma update_removed_below q r : forall fs,
  q <> [] -> parent_dir fs q = true -> lookup (update fs q None) (q ++ r) = None.
Proof.
  intros fs Hne Hpar. rewrite lookup_app, update_same; auto.
Qed.

(** A directory above the updated path remains a directory. *)
Lemma update_above q : forall fs p r v es,
  q = p ++ r -> r <> [] -> lookup fs p = Some (Dir es) ->
  exists es', lookup (update fs q v) p = Some (Dir es').
Proof.
  induction q as [|x q IH]; intros fs p r v es Hq Hr Hp.
  - destruct p, r; try discriminate. congruence.
  - destruct p as [|y p].
    + simpl in Hp. injection Hp as ->. simpl.
      destruct q; [eauto|]. destruct (child es x); eauto.
    + simpl in Hq. injection Hq as <- Hq.
      simpl in Hp. destruct fs as [d|es0|t]; try discriminate.
      destruct (child es0 x) as [c|] eqn:Hc; [|discriminate].
      destruct q as [|z q]; [destruct p, r; discriminate || congruence|].
      rewrite update_deep, Hc, lookup_cons, child_put_eq. eapply IH; eauto.
Qed.

(** Resolution of plain paths *)

Lemma walk_cons fs b follow cur x rest :
  walk fs b follow cur (x :: rest)
  = if String.eqb x ".." then walk fs b follow (removelast cur) rest
    else if String.eqb x "." || String.eqb x "" then walk fs b follow cur rest
    else
      match lookup fs (cur ++ [x]) with
      | None =>
          match rest with [] => inr (cur ++ [x]) | _ :: _ => inl ENOENT end
      | Some (File _) =>
          match rest with [] => inr (cur ++ [x]) | _ :: _ => inl ENOTDIR end
      | Some (Dir _) => walk fs b follow (cur ++ [x]) rest
      | Some (Symlink t) =>
          match rest, follow with
          | [], false => inr (cur ++ [x])
          | _, _ =>
              match b with
              | O => inl ELOOP
              | S b' =>
                  walk fs b' follow
                    (if target_absolute t then [] else cur)
                    (Str.split "/" t ++ rest)
              end
          end
      end.
Proof. destruct b; reflexivity. Qed.

Lemma walk_nil fs b follow cur : walk fs b follow cur [] = inr cur.
Proof. destruct b; reflexivity. Qed.

Lemma plain_name_cases x :
  plain_name x = true ->
  String.eqb x ".." = false /\ (String.eqb x "." || String.eqb x "") = false.
Proof.
  unfold plain_name. rewrite !andb_true_iff, !negb_true_iff.
  intros [[-> ->] ->]. auto.
Qed.

Lemma walk_existing fs b follow p : forall cur n,
  plain p = true -> lookup fs (cur ++ p) = Some n ->
  follow = false \/ not_link (Some n) = true ->
  walk fs b follow cur p = inr (cur ++ p).
Proof.
  induction p as [|x rest IH]; intros cur n Hpl Hn Hf.
  - rewrite walk_nil, app_nil_r. reflexivity.
  - simpl in Hpl. apply andb_true_iff in Hpl as [Hx Hrest].
    apply plain_name_cases in Hx as [H1 H2].
    rewrite walk_cons, H1, H2.
    replace (cur ++ x :: rest) with ((cur ++ [x]) ++ rest) in * by (now rewrite <- app_assoc).
    rewrite lookup_app in Hn.
    destruct (lookup fs (cur ++ [x])) as [[d|es|t]|] eqn:Hm; try discriminate.
    + destruct rest; [now rewrite app_nil_r | discriminate].
    + apply (IH (cur ++ [x]) n); auto. rewrite lookup_app, Hm. exact Hn.
    + destruct rest; [|discriminate]. simpl in Hn. injection Hn as <-.
      destruct Hf as [-> | Hf]; [now rewrite app_nil_r | simpl in Hf; discriminate Hf].
Qed.

Lemma walk_new_leaf fs b follow p x : forall cur,
  plain p = true -> plain_name x = true ->
  is_dir (lookup fs (cur ++ p)) = true -> lookup fs (cur ++ p ++ [x]) = None ->
  walk fs b follow cur (p ++ [x]) = inr (cur ++ p ++ [x]).
Proof.
  induction p as [|y rest IH]; intros cur Hpl Hx Hd Hnone.
  - simpl in *. apply plain_name_cases in Hx as [H1 H2].
    rewrite walk_cons, H1, H2, Hnone. reflexivity.
  - simpl in Hpl. apply andb_true_iff in Hpl as [Hy Hrest].
    apply plain_name_cases in Hy as [H1 H2].
    simpl. rewrite walk_cons, H1, H2.
    replace (cur ++ y :: rest) with ((cur ++ [y]) ++ rest) in Hd by (now rewrite <- app_assoc).
    replace (cur ++ y :: rest ++ [x]) with ((cur ++ [y]) ++ rest ++ [x]) in * by (now rewrite <- app_assoc).
    rewrite lookup_app in Hd.
    destruct (lookup fs (cur ++ [y])) as [[d|es|t]|] eqn:Hm;
      try (simpl in Hd; discriminate Hd).
    + destruct rest; simpl in Hd; discriminate Hd.
    + apply IH; auto.
      * rewrite lookup_app, Hm. exact Hd.
      * rewrite <- Hnone. f_equal. now rewrite <- app_assoc.
    + destruct rest; simpl in Hd; discriminate Hd.
Qed.

Lemma removelast_snoc (p : list string) x : removelast (p ++ [x]) = p.
Proof. apply removelast_last. Qed.

Lemma plain_app p q : plain (p ++ q) = plain p && plain q.
Proof. apply forallb_app. Qed.

Lemma resolve_located fs follow p :
  located fs p = true ->
  follow = false \/ not_link (lookup fs p) = true ->
  resolve fs follow p = inr p.
Proof.
  unfold located, parent_dir, resolve. intros H Hf. apply andb_true_iff in H as [Hpl Hd].
  destruct (lookup fs p) as [n|] eqn:Hn.
  - apply (walk_existing fs max_links follow p [] n); auto.
  - destruct (exists_last (l := p)) as (q & x & ->).
    { intros ->. simpl in Hn. discriminate. }
    rewrite removelast_snoc in Hd. rewrite plain_app in Hpl.
    apply andb_true_iff in Hpl as [Hq Hx]. simpl in Hx. rewrite andb_true_r in Hx.
    apply (walk_new_leaf fs max_links follow q x []); auto.
Qed.

Lemma stat_located fs p :
  located fs p = true -> not_link (lookup fs p) = true ->
  stat fs p = match lookup fs p with Some n => inr (p, n) | None => inl ENOENT end.
Proof.
  intros H Hl. unfold stat, stat_gen. rewrite resolve_located; auto.
Qed.

Lemma lstat_located fs p :
  located fs p = true ->
  lstat fs p = match lookup fs p with Some n => inr (p, n) | None => inl ENOENT end.
Proof.
  intros H. unfold lstat, stat_gen. rewrite resolve_located; auto.
Qed.

Lemma exists_located fs p :
  located fs p = true -> not_link (lookup fs p) = true ->
  exists_ fs p = is_some (lookup fs p).
Proof.
  intros H Hl. unfold exists_. rewrite stat_located by assumption.
  destruct (lookup fs p); reflexivity.
Qed.

Lemma isdir_located fs p :
  located fs p = true -> not_link (lookup fs p) = true ->
  isdir fs p = is_dir (lookup fs p).
Proof.
  intros H Hl. unfold isdir. rewrite stat_located by assumption.
  destruct (lookup fs p) as [[]|]; reflexivity.
Qed.

End FsFacts.

Module FsCalls.
Import Fs FsFacts.

Lemma list_eqb_eq a b : list_eqb a b = true <-> a = b.
Proof.
  revert b; induction a as [|x a IH]; intros [|y b]; simpl; split; try congruence; auto.
  - rewrite andb_true_iff, String.eqb_eq, IH. intros [-> ->]; reflexivity.
  - intros [= -> ->]. rewrite String.eqb_refl. simpl. now apply IH.
Qed.

Lemma apart_neq p q : apart p q = true -> list_eqb p q = false.
Proof.
  intros H. destruct (list_eqb p q) eqn:He; auto. apply list_eqb_eq in He. subst q.
  unfold apart in H. rewrite prefixb_refl in H. discriminate.
Qed.

Lemma apart_not_prefix p q : apart p q = true -> PurePath.prefixb p q = false.
Proof. unfold apart. rewrite andb_true_iff, !negb_true_iff. tauto. Qed.

Lemma located_nonempty_parent fs p :
  located fs p = true -> parent_dir fs p = true.
Proof. unfold located. rewrite andb_true_iff. tauto. Qed.

Lemma mkdir_located fs p :
  located fs p = true ->
  mkdir fs p = match lookup fs p with
               | Some _ => inl EEXIST
               | None => inr (update fs p (Some (Dir [])))
               end.
Proof. intros H. unfold mkdir. rewrite resolve_located; auto. Qed.

Lemma rmtree_located fs p :
  located fs p = true -> p <> [] ->
  rmtree fs p = match lookup fs p with
                | Some (Dir _) => inr (update fs p None)
                | Some (File _) => inl ENOTDIR
                | Some (Symlink _) => inl ERMLINK
                | None => inl ENOENT
                end.
Proof.
  intros H Hne. unfold rmtree. rewrite lstat_located by assumption.
  destruct (lookup fs p) as [[]|]; auto. destruct p; congruence.
Qed.

Lemma rename_located fs a b :
  located fs a = true -> located fs b = true -> apart a b = true ->
  rename fs a b =
    match lookup fs a with
    | None => inl ENOENT
    | Some ns =>
        let move := inr (update (update fs a None) b (Some ns)) in
        match lookup fs b, ns with
        | None, _ => move
        | Some (Dir []), Dir _ => move
        | Some (Dir (_ :: _)), Dir _ => inl ENOTEMPTY
        | Some (Dir _), _ => inl EISDIR
        | Some _, Dir _ => inl ENOTDIR
        | Some _, _ => move
        end
    end.
Proof.
  intros Ha Hb Hap. unfold rename. rewrite !resolve_located by auto.
  rewrite (apart_neq _ _ Hap), (apart_not_prefix _ _ Hap). reflexivity.
Qed.

(** Updating a sibling keeps a path located. *)
Lemma located_update fs p q v :
  located fs p = true -> removelast q = removelast p -> q <> [] ->
  located (update fs q v) p = true.
Proof.
  unfold located, parent_dir. rewrite !andb_true_iff. intros [Hpl Hd] Hpar Hne.
  split; [assumption|].
  destruct (lookup fs (removelast p)) as [[d|es|t]|] eqn:Hl; try discriminate.
  destruct (exists_last Hne) as (q0 & x & ->). rewrite removelast_snoc in Hpar. subst q0.
  destruct (update_above (removelast p ++ [x]) fs (removelast p) [x] v es eq_refl)
    as [es' ->]; auto; discriminate.
Qed.

End FsCalls.

Section Backup.
Import Fs FsFacts FsCalls.
Variable E : environment.

Lemma fs_set_fs (w : world) (t : node) : fs (set_fs w t) = t.
Proof. reflexivity. Qed.

Lemma located_child fs c x :
  plain (c ++ [x]) = true -> is_dir (lookup fs c) = true -> located fs (c ++ [x]) = true.
Proof.
  intros Hp Hd. unfold located, parent_dir. now rewrite Hp, removelast_snoc, Hd.
Qed.

Lemma snoc_nonempty (c : list string) x : c ++ [x] <> [].
Proof. destruct c; discriminate. Qed.

Lemma backup_one_spec (d b : PurePath.t) c x y w w' :
  os E d = c ++ [x] -> os E b = c ++ [y] -> x <> y ->
  plain (c ++ [x]) = true -> plain (c ++ [y]) = true ->
  is_dir (lookup (fs w) c) = true ->
  backup_one E d b w = (Ok tt, w') ->
  lookup (fs w') (c ++ [x]) = Some (Dir [])
  /\ lookup (fs w') (c ++ [y])
     = match lookup (fs w) (c ++ [x]) with
       | Some n => Some n
       | None => lookup (fs w) (c ++ [y])
       end
  /\ (forall q, apart q (c ++ [x]) = true -> apart q (c ++ [y]) = true ->
                lookup (fs w') q = lookup (fs w) q)
  /\ is_dir (lookup (fs w') c) = true.
Proof.
  intros Hd Hb Hxy Hpx Hpy Hc.
  set (pd := c ++ [x]) in *. set (pb := c ++ [y]) in *.
  assert (Hap : apart pd pb = true) by (now apply apart_siblings).
  assert (Hap' : apart pb pd = true) by (now rewrite apart_sym).
  assert (Hld : located (fs w) pd = true) by (now apply located_child).
  assert (Hlb : located (fs w) pb = true) by (now apply located_child).
  assert (Hnd : pd <> []) by apply snoc_nonempty.
  assert (Hnb : pb <> []) by apply snoc_nonempty.
  assert (Hsame : removelast pb = removelast pd)
    by (unfold pb, pd; now rewrite !removelast_snoc).
  unfold backup_one, bind, test, sys, ret. rewrite Hd, Hb. fold pd. fold pb.
  assert (Hmoved : forall t ns,
            located t pd = true -> located t pb = true ->
            lookup t pd = Some ns ->
            (forall q, apart q pd = true -> apart q pb = true -> lookup t q = lookup (fs w) q) ->
            lookup (fs w) pd = Some ns ->
            let t3 := update (update (update t pd None) pb (Some ns)) pd (Some (Dir [])) in
            mkdir (update (update t pd None) pb (Some ns)) pd = inr t3
            /\ lookup t3 pd = Some (Dir [])
            /\ lookup t3 pb = Some ns
            /\ (forall q, apart q pd = true -> apart q pb = true -> lookup t3 q = lookup (fs w) q)
            /\ is_dir (lookup t3 c) = true).
  { intros t ns Ht1 Ht2 Hns Hfr Hns0 t3.
    assert (L1 : located (update t pd None) pb = true) by (apply located_update; auto).
    assert (L2 : located (update (update t pd None) pb (Some ns)) pd = true)
      by (apply located_update; auto; apply located_update; auto).
    assert (L3 : located t3 pd = true) by (apply located_update; auto).
    repeat split.
    - rewrite mkdir_located by assumption.
      rewrite update_apart by assumption.
      rewrite update_same; auto. now apply located_nonempty_parent.
    - unfold t3. apply update_same; auto. now apply located_nonempty_parent.
    - unfold t3. rewrite update_apart by assumption.
      apply update_same; auto. now apply located_nonempty_parent.
    - intros q H1 H2. unfold t3. rewrite !update_apart; auto; now rewrite apart_sym.
    - apply located_nonempty_parent in L3. unfold parent_dir, pd in L3.
      now rewrite removelast_snoc in L3. }
  destruct (exists_ (fs w) pd) eqn:Hex.
  - assert (Hsome : exists ns, lookup (fs w) pd = Some ns).
    { destruct (lookup (fs w) pd) eqn:Hl; eauto.
      rewrite exists_located in Hex by (auto; now rewrite Hl). rewrite Hl in Hex. discriminate. }
    destruct Hsome as [ns Hns]. rewrite Hns.
    destruct (exists_ (fs w) pb) eqn:Hexb.
    + rewrite rmtree_located by assumption.
      destruct (lookup (fs w) pb) as [[dd|es|tt]|] eqn:Hlb0; try discriminate.
      rewrite ?fs_set_fs.
      assert (L1 : located (update (fs w) pb None) pd = true) by (apply located_update; auto).
      assert (L2 : located (update (fs w) pb None) pb = true) by (apply located_update; auto).
      rewrite rename_located by assumption.
      rewrite update_apart by assumption. rewrite Hns.
      rewrite update_same by (auto; now apply located_nonempty_parent).
      cbv beta iota zeta. rewrite ?fs_set_fs.
      destruct (Hmoved (update (fs w) pb None) ns) as (M1 & M2 & M3 & M4 & M5); auto.
      { now rewrite update_apart. }
      { intros q H1 H2. rewrite update_apart; auto. now rewrite apart_sym. }
      rewrite M1. intros [= <-]. rewrite ?fs_set_fs. auto.
    + rewrite ?fs_set_fs. rewrite rename_located by assumption. rewrite Hns. cbv zeta.
      destruct (Hmoved (fs w) ns) as (M1 & M2 & M3 & M4 & M5); auto.
      destruct (lookup (fs w) pb) as [[dd|es|tt]|] eqn:Hlb0.
      * rewrite exists_located in Hexb by (auto; now rewrite Hlb0).
        rewrite Hlb0 in Hexb. discriminate.
      * rewrite exists_located in Hexb by (auto; now rewrite Hlb0).
        rewrite Hlb0 in Hexb. discriminate.
      * destruct ns; try discriminate; rewrite ?fs_set_fs; rewrite M1; intros [= <-]; rewrite ?fs_set_fs; auto.
      * rewrite ?fs_set_fs. rewrite M1. intros [= <-]. rewrite ?fs_set_fs. auto.
  - rewrite mkdir_located by assumption.
    destruct (lookup (fs w) pd) eqn:Hl; [discriminate|].
    intros [= <-]. rewrite ?fs_set_fs.
    repeat split.
    + apply update_same; auto. now apply located_nonempty_parent.
    + now rewrite update_apart.
    + intros q H1 H2. rewrite update_apart; auto. now rewrite apart_sym.
    + assert (L : located (update (fs w) pd (Some (Dir []))) pd = true)
        by (apply located_update; auto).
      apply located_nonempty_parent in L. unfold parent_dir, pd in L.
      now rewrite removelast_snoc in L.
Qed.
End Backup.

Section BackupTwice.
Import Fs FsFacts FsCalls.
Variable E : environment.

Lemma name_snoc (p : PurePath.t) x : p <> [] -> PurePath.name (p ++ [x]) = x.
Proof.
  intros Hp. unfold PurePath.name. rewrite rev_app_distr. simpl.
  destruct (rev p) eqn:Hr; auto.
  apply (f_equal (@rev string)) in Hr. rewrite rev_involutive in Hr. simpl in Hr. congruence.
Qed.

Lemma os_absolute (c : list string) : os E ("/" :: c) = c.
Proof. reflexivity. Qed.

Lemma subdir_absolute (c : list string) (d : string) :
  PurePath.is_absolute (PurePath.parse d) = false ->
  subdir ("/" :: c) d = "/" :: c ++ PurePath.parse d.
Proof. unfold subdir, PurePath.join. now intros ->. Qed.

Lemma backup_of_mods (c : list string) :
  backup_of (subdir ("/" :: c) "mods") = ret ("/" :: c ++ ["mods.bak"]).
Proof.
  rewrite subdir_absolute by reflexivity. change (PurePath.parse "mods") with ["mods"].
  unfold backup_of, PurePath.with_suffix, PurePath.suffix.
  change ("/" :: c ++ ["mods"]) with (("/" :: c) ++ ["mods"]).
  rewrite name_snoc by discriminate. rewrite removelast_snoc. reflexivity.
Qed.

Lemma backup_of_config (c : list string) :
  backup_of (subdir ("/" :: c) "config") = ret ("/" :: c ++ ["config.bak"]).
Proof.
  rewrite subdir_absolute by reflexivity. change (PurePath.parse "config") with ["config"].
  unfold backup_of, PurePath.with_suffix, PurePath.suffix.
  change ("/" :: c ++ ["config"]) with (("/" :: c) ++ ["config"]).
  rewrite name_snoc by discriminate. rewrite removelast_snoc. reflexivity.
Qed.

Lemma plain_child (c : list string) x :
  plain c = true -> plain_name x = true -> plain (c ++ [x]) = true.
Proof. intros Hc Hx. rewrite plain_app, Hc. simpl. now rewrite Hx. Qed.

(** One pass of the backup step over an installation at [c]. *)
Lemma backup_step_spec (c : list string) (w w' : world) (b : PurePath.t) :
  plain c = true -> is_dir (lookup (fs w) c) = true ->
  backup_step E ("/" :: c) w = (Ok b, w') ->
  b = "/" :: c ++ ["config.bak"]
  /\ is_dir (lookup (fs w') c) = true
  /\ lookup (fs w') (c ++ ["mods"]) = Some (Dir [])
  /\ lookup (fs w') (c ++ ["config"]) = Some (Dir [])
  /\ lookup (fs w') (c ++ ["mods.bak"])
     = match lookup (fs w) (c ++ ["mods"]) with
       | Some n => Some n
       | None => lookup (fs w) (c ++ ["mods.bak"])
       end
  /\ lookup (fs w') (c ++ ["config.bak"])
     = match lookup (fs w) (c ++ ["config"]) with
       | Some n => Some n
       | None => lookup (fs w) (c ++ ["config.bak"])
       end
  /\ (forall q, apart q (c ++ ["mods"]) = true -> apart q (c ++ ["mods.bak"]) = true ->
                apart q (c ++ ["config"]) = true -> apart q (c ++ ["config.bak"]) = true ->
                lookup (fs w') q = lookup (fs w) q).
Proof.
  intros Hc Hd. unfold backup_step, backup.
  rewrite backup_of_mods, backup_of_config.
  unfold bind at 1. unfold ret at 1. unfold bind at 1. unfold ret at 1.
  unfold bind at 1. unfold bind at 1.
  destruct (backup_one E (subdir ("/" :: c) "mods") ("/" :: c ++ ["mods.bak"]) w)
    as [[[]|e|] wa] eqn:H1; try discriminate.
  destruct (backup_one E (subdir ("/" :: c) "config") ("/" :: c ++ ["config.bak"]) wa)
    as [[[]|e|] wb] eqn:H2; try discriminate.
  intros [= <- <-].
  apply (backup_one_spec E _ _ c "mods" "mods.bak") in H1
    as (A1 & A2 & A3 & A4); auto using plain_child; try discriminate.
  apply (backup_one_spec E _ _ c "config" "config.bak") in H2
    as (B1 & B2 & B3 & B4); auto using plain_child; try discriminate.
  assert (S : forall x y : string, x <> y -> apart (c ++ [x]) (c ++ [y]) = true)
    by (intros; now apply apart_siblings).
  repeat split; auto.
  - rewrite B3, A1; auto; apply S; discriminate.
  - rewrite B3, A2; auto; apply S; discriminate.
  - rewrite B2. rewrite !A3; auto; apply S; discriminate.
  - intros q Q1 Q2 Q3 Q4. rewrite B3, A3; auto.
Qed.

(** C2 (amended): the first backup step moves [mods] and [config] to
    [mods.bak] and [config.bak]; a second backup step right after it
    removes these backups and puts the empty directories of the first step
    in their place.  After two steps [mods], [config], [mods.bak] and
    [config.bak] are four empty directories: what the installation held
    before is in none of them. *)
Theorem backup_twice_empties (c : list string) (w w1 w2 : world) (b1 b2 : PurePath.t) :
  plain c = true ->
  is_dir (lookup (fs w) c) = true ->
  backup_step E ("/" :: c) w = (Ok b1, w1) ->
  backup_step E ("/" :: c) w1 = (Ok b2, w2) ->
  (forall n, lookup (fs w) (c ++ ["mods"]) = Some n ->
             lookup (fs w1) (c ++ ["mods.bak"]) = Some n)
  /\ (forall n, lookup (fs w) (c ++ ["config"]) = Some n ->
                lookup (fs w1) (c ++ ["config.bak"]) = Some n)
  /\ lookup (fs w2) (c ++ ["mods"]) = Some (Dir [])
  /\ lookup (fs w2) (c ++ ["config"]) = Some (Dir [])
  /\ lookup (fs w2) (c ++ ["mods.bak"]) = Some (Dir [])
  /\ lookup (fs w2) (c ++ ["config.bak"]) = Some (Dir []).
Proof.
  intros Hc Hd H1 H2.
  apply backup_step_spec in H1 as (_ & D1 & M1 & C1 & MB1 & CB1 & _); auto.
  apply backup_step_spec in H2 as (_ & D2 & M2 & C2 & MB & CB & _); auto.
  rewrite M1 in MB. rewrite C1 in CB.
  repeat split; auto.
  - intros n Hn. rewrite MB1, Hn. reflexivity.
  - intros n Hn. rewrite CB1, Hn. reflexivity.
Qed.
End BackupTwice.

Module Tidy.
Import Fs FsFacts FsCalls.

Lemma tidy_dir_cons x m es :
  tidy (Dir ((x, m) :: es)) = plain_name x && tidy m && tidy (Dir es).
Proof. reflexivity. Qed.

Lemma tidy_child es x m :
  tidy (Dir es) = true -> child es x = Some m -> tidy m = true /\ plain_name x = true.
Proof.
  induction es as [|[y n] es IH]; simpl child; [discriminate|].
  rewrite tidy_dir_cons, !andb_true_iff. intros [[Hy Hn] Hes].
  destruct (String.eqb x y) eqn:Hxy.
  - apply String.eqb_eq in Hxy. subst y. intros [= <-]. auto.
  - auto.
Qed.

Lemma tidy_names es x :
  tidy (Dir es) = true -> In x (map fst es) -> plain_name x = true.
Proof.
  induction es as [|[y n] es IH]; simpl; [tauto|].
  change (plain_name y && tidy n && tidy (Dir es) = true -> y = x \/ In x (map fst es) ->
          plain_name x = true).
  rewrite !andb_true_iff. intros [[Hy Hn] Hes] [<-|Hin]; auto.
Qed.

Lemma names_child es x : In x (map fst es) -> exists m, child es x = Some m.
Proof.
  induction es as [|[y n] es IH]; simpl; [tauto|].
  intros [<-|Hin].
  - rewrite String.eqb_refl. eauto.
  - destruct (String.eqb x y); eauto.
Qed.

Lemma tidy_put es x m :
  tidy (Dir es) = true -> plain_name x = true -> tidy m = true ->
  tidy (Dir (put es x m)) = true.
Proof.
  intros Hes Hx Hm. induction es as [|[y n] es IH]; simpl put.
  - rewrite tidy_dir_cons, Hx, Hm. reflexivity.
  - rewrite tidy_dir_cons, !andb_true_iff in Hes. destruct Hes as [[Hy Hn] Hes].
    destruct (String.eqb x y).
    + rewrite tidy_dir_cons, Hx, Hm. exact Hes.
    + rewrite tidy_dir_cons, Hy, Hn. now apply IH.
Qed.

Lemma tidy_lookup p : forall n m,
  tidy n = true -> lookup n p = Some m -> tidy m = true /\ plain p = true.
Proof.
  induction p as [|x p IH]; intros n m Hn Hl; simpl in Hl.
  - injection Hl as <-. auto.
  - destruct n as [d|es|t]; try discriminate.
    destruct (child es x) as [c|] eqn:Hc; [|discriminate].
    destruct (tidy_child es x c Hn Hc) as [Hc1 Hx].
    destruct (IH c m Hc1 Hl) as [Hm Hp]. simpl. now rewrite Hx, Hp.
Qed.

Lemma tidy_not_link n : tidy n = true -> not_link (Some n) = true.
Proof. destruct n; simpl; auto. Qed.

Lemma tidy_at_not_link o : tidy_at o = true -> not_link o = true.
Proof. destruct o as [[]|]; simpl; auto. Qed.

(** More on updates *)

Lemma put_same es x c : child es x = Some c -> put es x c = es.
Proof.
  induction es as [|[y n] es IH]; simpl; [discriminate|].
  destruct (String.eqb x y) eqn:Hxy.
  - apply String.eqb_eq in Hxy. subst y. now intros [= ->].
  - intros H. now rewrite IH.
Qed.

Lemma put_put es x a b : put (put es x a) x b = put es x b.
Proof.
  induction es as [|[y n] es IH]; simpl.
  - now rewrite String.eqb_refl.
  - destruct (String.eqb x y) eqn:Hxy; simpl.
    + now rewrite String.eqb_refl.
    + now rewrite Hxy, IH.
Qed.

Lemma update_id p : forall fs n, lookup fs p = Some n -> update fs p (Some n) = fs.
Proof.
  induction p as [|x p IH]; intros fs n Hl.
  - simpl in *. congruence.
  - simpl in Hl. destruct fs as [d|es|t]; try discriminate.
    destruct (child es x) as [c|] eqn:Hc; [|discriminate].
    destruct p as [|y p].
    + simpl in *. injection Hl as ->. now rewrite put_same.
    + rewrite update_deep, Hc, (IH c n Hl). now rewrite put_same.
Qed.

Lemma update_update p : forall fs a b,
  update (update fs p (Some a)) p (Some b) = update fs p (Some b).
Proof.
  induction p as [|x p IH]; intros fs a b; [reflexivity|].
  destruct fs as [d|es|t]; try reflexivity.
  destruct p as [|y p].
  - simpl. now rewrite put_put.
  - rewrite !update_deep. destruct (child es x) as [c|] eqn:Hc.
    + rewrite update_deep, child_put_eq, put_put, IH. reflexivity.
    + rewrite update_deep, Hc. reflexivity.
Qed.

Lemma update_app p : forall fs a v D,
  lookup fs p = Some D -> a <> [] ->
  update fs (p ++ a) v = update fs p (Some (update D a v)).
Proof.
  induction p as [|x p IH]; intros fs a v D Hl Ha.
  - simpl in Hl. injection Hl as ->. reflexivity.
  - simpl in Hl. destruct fs as [d|es|t]; try discriminate.
    destruct (child es x) as [c|] eqn:Hc; [|discriminate].
    destruct p as [|y p].
    + simpl in Hl. injection Hl as ->. simpl app.
      destruct a as [|z a]; [congruence|]. rewrite update_deep, Hc. reflexivity.
    + change ((x :: y :: p) ++ a) with (x :: y :: (p ++ a)).
      rewrite !update_deep, Hc. f_equal. f_equal.
      apply (IH c a v D); auto.
Qed.

Lemma lookup_update_here p : forall fs old m,
  lookup fs p = Some old -> lookup (update fs p (Some m)) p = Some m.
Proof.
  induction p as [|x p IH]; intros fs old m Hl; [reflexivity|].
  simpl in Hl. destruct fs as [d|es|t]; try discriminate.
  destruct (child es x) as [c|] eqn:Hc; [|discriminate].
  destruct p as [|y p].
  - simpl. now rewrite child_put_eq.
  - rewrite update_deep, Hc, lookup_cons, child_put_eq. eapply IH; eauto.
Qed.

Lemma lookup_parent fs q x n :
  lookup fs (q ++ [x]) = Some n -> is_dir (lookup fs q) = true.
Proof.
  rewrite lookup_app. destruct (lookup fs q) as [[d|es|t]|]; simpl; try discriminate; auto.
Qed.

Lemma lookup_prefix_dir fs p r n :
  lookup fs (p ++ r) = Some n -> r <> [] -> is_dir (lookup fs p) = true.
Proof.
  rewrite lookup_app. destruct (lookup fs p) as [[d|es|t]|]; simpl; auto;
    destruct r; simpl; congruence.
Qed.

Lemma lookup_child fs p es x :
  lookup fs p = Some (Dir es) -> lookup fs (p ++ [x]) = child es x.
Proof.
  intros H. rewrite lookup_app, H. simpl. destruct (child es x); reflexivity.
Qed.

(** The new node of a directory after one of its entries was set. *)
Lemma update_child fs p es x n :
  lookup fs p = Some (Dir es) ->
  update fs (p ++ [x]) (Some n) = update fs p (Some (Dir (put es x n))).
Proof. intros H. rewrite (update_app p fs [x] (Some n) (Dir es)); auto. discriminate. Qed.

Lemma located_dir fs p :
  plain p = true -> is_dir (lookup fs p) = true -> located fs p = true.
Proof.
  intros Hp Hl. unfold located, parent_dir. rewrite Hp. simpl.
  destruct p as [|y p'] eqn:Hp0; [exact Hl|]. rewrite <- Hp0 in *.
  destruct (exists_last (l := p)) as (q & x & ->); [congruence|].
  rewrite removelast_snoc. destruct (lookup fs (q ++ [x])) eqn:Hq; [|discriminate].
  eapply lookup_parent; eauto.
Qed.

Lemma located_of_lookup fs p n :
  plain p = true -> p <> [] -> lookup fs p = Some n -> located fs p = true.
Proof.
  intros Hp Hne Hl. unfold located, parent_dir. rewrite Hp. simpl.
  destruct (exists_last Hne) as (q & x & ->).
  rewrite removelast_snoc. eapply lookup_parent; eauto.
Qed.

Lemma apart_nonempty_l p q : apart p q = true -> p <> [].
Proof. intros H ->. discriminate. Qed.

Lemma apart_nonempty_r p q : apart p q = true -> q <> [].
Proof. intros H ->. unfold apart in H. simpl in H. rewrite andb_false_r in H. discriminate. Qed.

(** A path through a regular file does not resolve. *)
Lemma walk_file_below fs b follow x r p : forall cur,
  p <> [] -> plain p = true -> is_file (lookup fs (cur ++ p)) = true ->
  walk fs b follow cur (p ++ x :: r) = inl ENOTDIR.
Proof.
  induction p as [|y p IH]; intros cur Hne Hpl Hf; [congruence|].
  simpl in Hpl. apply andb_true_iff in Hpl as [Hy Hp].
  apply plain_name_cases in Hy as [H1 H2].
  simpl app. rewrite walk_cons, H1, H2.
  replace (cur ++ y :: p) with ((cur ++ [y]) ++ p) in Hf by (now rewrite <- app_assoc).
  rewrite lookup_app in Hf.
  destruct (lookup fs (cur ++ [y])) as [[d|es|t]|] eqn:Hm; try (simpl in Hf; discriminate Hf).
  - destruct p; reflexivity.
  - destruct p as [|z p]; [simpl in Hf; discriminate Hf|].
    apply IH; auto; [discriminate|]. now rewrite lookup_app, Hm.
  - destruct p; simpl in Hf; discriminate Hf.
Qed.

Lemma resolve_file_below fs follow p x :
  p <> [] -> plain p = true -> is_file (lookup fs p) = true ->
  resolve fs follow (p ++ [x]) = inl ENOTDIR.
Proof. intros. unfold resolve. now apply walk_file_below. Qed.

End Tidy.

Module Merge.
Import Fs FsFacts FsCalls Tidy.

Lemma last_name_snoc (p : list string) x : last_name (p ++ [x]) = x.
Proof. unfold last_name. now rewrite rev_app_distr. Qed.

Lemma read_file_located fs p data :
  located fs p = true -> lookup fs p = Some (File data) -> read_file fs p = inr data.
Proof.
  intros H Hl. unfold read_file. rewrite stat_located, Hl; auto. now rewrite Hl.
Qed.

Lemma open_wb_located fs p :
  located fs p = true -> not_link (lookup fs p) = true ->
  open_wb fs p = match lookup fs p with
                 | Some (Dir _) => inl EISDIR
                 | Some (Symlink _) => inl ELOOP
                 | _ => inr (update fs p (Some (File "")), p)
                 end.
Proof. intros H Hl. unfold open_wb. rewrite resolve_located; auto. Qed.

Lemma samefile_apart fs a b :
  located fs a = true -> located fs b = true ->
  not_link (lookup fs a) = true -> not_link (lookup fs b) = true ->
  apart a b = true -> samefile fs a b = false.
Proof.
  intros Ha Hb Hla Hlb Hap. unfold samefile. rewrite !stat_located by assumption.
  destruct (lookup fs a); auto. destruct (lookup fs b); auto. now apply apart_neq.
Qed.

(** Writing a whole file at a located path. *)
Lemma store_file fs p data :
  located fs p = true -> p <> [] ->
  write (update fs p (Some (File ""))) p data = update fs p (Some (File data)).
Proof.
  intros H Hne. unfold write.
  rewrite update_same by (auto; now apply located_nonempty_parent).
  apply update_update.
Qed.

Lemma copy2_file (w w1 : world) (s d : list string) (data : string) :
  located (fs w) s = true -> lookup (fs w) s = Some (File data) ->
  located (fs w) d = true -> tidy_at (lookup (fs w) d) = true ->
  plain_name (last_name s) = true ->
  apart s d = true ->
  copy2 s d w = (Ok tt, w1) ->
  exists n', fs w1 = update (fs w) d (Some n') /\ tidy n' = true
             /\ (is_dir (lookup (fs w) d) = false -> n' = File data).
Proof.
  intros Hs Hsl Hd Hdt Hi Hap.
  assert (Hnd : d <> []) by (eapply apart_nonempty_r; eauto).
  unfold copy2, bind, test, ask, ret, raise.
  rewrite isdir_located by (auto using tidy_at_not_link).
  destruct (lookup (fs w) d) as [[old|dd|t]|] eqn:Hdl;
    cbv beta iota zeta delta [is_dir]; try discriminate Hdt.
  - rewrite samefile_apart; auto; try (rewrite ?Hsl, ?Hdl; reflexivity).
    rewrite (read_file_located _ _ data) by assumption.
    rewrite open_wb_located, Hdl by (auto; now rewrite Hdl).
    intros [= <-]. simpl fs. rewrite store_file by assumption. eauto.
  - set (d2 := d ++ [last_name s]).
    assert (Hd2 : located (fs w) d2 = true).
    { apply located_child; [|now rewrite Hdl].
      apply andb_true_iff in Hd as [Hp _]. now apply plain_child. }
    assert (Hc : lookup (fs w) d2 = child dd (last_name s)) by (now apply lookup_child).
    assert (Ht2 : tidy_at (lookup (fs w) d2) = true).
    { rewrite Hc. destruct (child dd (last_name s)) eqn:Hch; auto.
      simpl. eapply tidy_child; eauto. }
    rewrite samefile_apart; auto using tidy_at_not_link;
      try (rewrite ?Hsl; reflexivity); [|now apply apart_app_r].
    rewrite (read_file_located _ _ data) by assumption.
    rewrite open_wb_located by (auto using tidy_at_not_link).
    destruct (lookup (fs w) d2) as [[old2|dd2|t2]|] eqn:Hl2; try discriminate.
    + intros [= <-]. simpl fs. rewrite store_file by (auto; apply snoc_nonempty).
      unfold d2. rewrite (update_child _ _ dd) by assumption.
      eexists. split; [reflexivity|]. split; [|discriminate].
      apply tidy_put; auto.
    + intros [= <-]. simpl fs. rewrite store_file by (auto; apply snoc_nonempty).
      unfold d2. rewrite (update_child _ _ dd) by assumption.
      eexists. split; [reflexivity|]. split; [|discriminate].
      apply tidy_put; auto.
  - rewrite samefile_apart; auto; try (rewrite ?Hsl, ?Hdl; reflexivity).
    rewrite (read_file_located _ _ data) by assumption.
    rewrite open_wb_located, Hdl by (auto; now rewrite Hdl).
    intros [= <-]. simpl fs. rewrite store_file by assumption. eauto.
Qed.

End Merge.

Module MergeTree.
Import Fs FsFacts FsCalls Tidy Merge.

(** Below a regular file nothing can be created. *)
Lemma no_calls_below_file fs d x :
  d <> [] -> plain d = true -> is_file (lookup fs d) = true ->
  exists_ fs (d ++ [x]) = false /\ isdir fs (d ++ [x]) = false
  /\ mkdir fs (d ++ [x]) = inl ENOTDIR
  /\ open_wb fs (d ++ [x]) = inl ENOTDIR
  /\ (forall a, samefile fs a (d ++ [x]) = false).
Proof.
  intros Hne Hp Hf.
  assert (R : forall follow, resolve fs follow (d ++ [x]) = inl ENOTDIR)
    by (intros; now apply resolve_file_below).
  unfold exists_, isdir, mkdir, open_wb, samefile, stat, stat_gen. rewrite !R.
  repeat split; auto. intros a. destruct (resolve fs true a); auto.
  destruct (lookup fs l); auto.
Qed.

Lemma makedirs_child (w : world) (d : list string) :
  d <> [] -> located (fs w) d = true ->
  makedirs d w = sys (fun t => mkdir t d) w.
Proof.
  intros Hne Hd. destruct (exists_last Hne) as (q & x & ->).
  unfold makedirs. rewrite rev_app_distr. simpl.
  unfold bind at 1. unfold test at 1. rewrite rev_involutive.
  apply andb_true_iff in Hd as [Hp Hq]. unfold parent_dir in Hq.
  rewrite removelast_snoc in Hq. rewrite plain_app in Hp. apply andb_true_iff in Hp as [Hp _].
  rewrite exists_located.
  - destruct (lookup (fs w) q) as [[]|]; try discriminate. reflexivity.
  - now apply located_dir.
  - destruct (lookup (fs w) q) as [[]|]; try discriminate. reflexivity.
Qed.

Section Entry.
Variable recur : ospath -> ospath -> bool -> M unit.
Hypothesis recur_merges : merges recur.
Hypothesis recur_stops : stops_at_file recur.

(** One entry of the source is merged into the destination, which has
    to be a directory. *)
Lemma copy_entry_merges (src dst : list string) (ov : bool) (item : string)
    (w w1 : world) (es : list (string * node)) (D : node) :
  plain src = true -> lookup (fs w) src = Some (Dir es) -> tidy (Dir es) = true ->
  In item (map fst es) ->
  located (fs w) dst = true -> lookup (fs w) dst = Some D -> tidy D = true ->
  apart src dst = true ->
  copy_entry recur src dst ov item w = (Ok tt, w1) ->
  exists ds n', D = Dir ds
                /\ fs w1 = update (fs w) (dst ++ [item]) (Some n')
                /\ tidy n' = true.
Proof.
  intros Hps Hsl Hst Hin Hd Hdl Hdt Hap.
  destruct (names_child es item Hin) as [m Hm].
  destruct (tidy_child es item m Hst Hm) as [Hmt Hi].
  assert (Hls : lookup (fs w) (src ++ [item]) = Some m)
    by (now rewrite (lookup_child _ _ es)).
  assert (Hs : located (fs w) (src ++ [item]) = true).
  { eapply located_of_lookup; eauto using plain_child, snoc_nonempty. }
  assert (Hnd : dst <> []) by (eapply apart_nonempty_r; eauto).
  assert (Hpd : plain dst = true) by (apply andb_true_iff in Hd; tauto).
  unfold copy_entry, bind, test, ret.
  rewrite isdir_located, Hls by (auto; rewrite Hls; now apply tidy_not_link).
  destruct D as [old|ds|t]; [| |discriminate].
  - (* the destination is a regular file *)
    destruct (no_calls_below_file (fs w) dst item) as (X1 & X2 & X3 & X4 & X5);
      auto; [now rewrite Hdl|].
    destruct m as [data|ms|t]; cbv beta iota zeta delta [is_dir];
      [|intros H; exfalso; revert H; apply recur_stops; auto; now rewrite Hdl
       |discriminate].
    rewrite X1, orb_true_r. unfold copy2, bind, test, ask, ret, raise.
    rewrite X2, X5. rewrite (read_file_located _ _ data) by assumption.
    rewrite X4. discriminate.
  - (* the destination is a directory *)
    assert (Hld : located (fs w) (dst ++ [item]) = true).
    { apply located_child; [now apply plain_child | now rewrite Hdl]. }
    assert (Hc : lookup (fs w) (dst ++ [item]) = child ds item)
      by (now apply lookup_child).
    assert (Ht : tidy_at (lookup (fs w) (dst ++ [item])) = true).
    { rewrite Hc. destruct (child ds item) eqn:Hch; auto.
      simpl. apply (tidy_child ds item n Hdt Hch). }
    assert (Hap2 : apart (src ++ [item]) (dst ++ [item]) = true)
      by (now apply apart_app_l, apart_app_r).
    destruct m as [data|ms|t]; cbv beta iota zeta delta [is_dir]; [| |discriminate].
    + rewrite exists_located by (auto using tidy_at_not_link).
      destruct (ov || negb (is_some (lookup (fs w) (dst ++ [item])))) eqn:Hcopy.
      * intros H. apply (copy2_file _ _ _ _ data) in H as (n' & E1 & E2 & _); auto;
          [eauto | now rewrite last_name_snoc].
      * intros [= <-]. apply orb_false_iff in Hcopy as [_ Hex].
        destruct (lookup (fs w) (dst ++ [item])) as [n|] eqn:Hn; [|discriminate].
        exists ds, n. repeat split; auto. symmetry. now apply update_id.
    + intros H. apply recur_merges in H as (D' & E1 & E2); eauto using plain_child.
Qed.

Lemma for_each_merges (src dst : list string) (ov : bool)
    (es : list (string * node)) (items : list string) : forall (w w' : world) (D : node),
  plain src = true -> lookup (fs w) src = Some (Dir es) -> tidy (Dir es) = true ->
  incl items (map fst es) ->
  located (fs w) dst = true -> lookup (fs w) dst = Some D -> tidy D = true ->
  apart src dst = true ->
  for_each items (copy_entry recur src dst ov) w = (Ok tt, w') ->
  exists D', fs w' = update (fs w) dst (Some D') /\ tidy D' = true.
Proof.
  induction items as [|item items IH]; intros w w' D Hps Hsl Hst Hin Hd Hdl Hdt Hap.
  - intros [= <-]. exists D. split; auto. symmetry. now apply update_id.
  - simpl. unfold bind at 1.
    destruct (copy_entry recur src dst ov item w) as [[[]|e|] w1] eqn:H1; try discriminate.
    intros H2.
    destruct (copy_entry_merges src dst ov item w w1 es D Hps Hsl Hst
                (Hin item (or_introl eq_refl)) Hd Hdl Hdt Hap H1)
      as (ds & n' & -> & E1 & E2).
    assert (Hi : plain_name item = true).
    { apply (tidy_names es item Hst). apply Hin. now left. }
    rewrite (update_child _ _ ds) in E1 by assumption.
    assert (Hnd : dst <> []) by (eapply apart_nonempty_r; eauto).
    assert (Hpd : plain dst = true) by (apply andb_true_iff in Hd; tauto).
    assert (Hdl1 : lookup (fs w1) dst = Some (Dir (put ds item n'))).
    { rewrite E1. eapply lookup_update_here; eauto. }
    eapply IH in H2 as (D' & F1 & F2); eauto.
    + exists D'. split; auto. rewrite F1, E1. apply update_update.
    + rewrite E1, update_apart; auto. now rewrite apart_sym.
    + intros i Hi'. apply Hin. now right.
    + eapply located_of_lookup; eauto.
    + now apply tidy_put.
Qed.
End Entry.

Lemma copytree_stops (fuel : nat) : stops_at_file (copytree fuel).
Proof.
  intros src d x ov w w' Hne Hp Hf.
  destruct fuel as [|fuel]; [discriminate|].
  destruct (no_calls_below_file (fs w) d x) as (X1 & X2 & X3 & X4 & X5); auto.
  simpl. unfold bind at 1. unfold test at 1. rewrite X1.
  unfold bind at 1. unfold makedirs. rewrite rev_app_distr. simpl.
  unfold bind at 1. unfold test at 1. rewrite rev_involutive.
  destruct (lookup (fs w) d) as [n|] eqn:Hl; [|discriminate].
  rewrite exists_located, Hl.
  - simpl. unfold bind at 1. unfold ret at 1. unfold sys. rewrite X3. discriminate.
  - eapply located_of_lookup; eauto.
  - rewrite Hl. destruct n; try discriminate; reflexivity.
Qed.

Lemma copytree_merges (fuel : nat) : merges (copytree fuel).
Proof.
  induction fuel as [|fuel IH]; intros src dst ov w w' Hps (S & Hsl & Hst) Hd Hdt Hap;
    [discriminate|].
  assert (Hnd : dst <> []) by (eapply apart_nonempty_r; eauto).
  assert (Hns : src <> []) by (eapply apart_nonempty_l; eauto).
  assert (Hls : located (fs w) src = true) by (eapply located_of_lookup; eauto).
  simpl. unfold bind at 1. unfold test at 1.
  rewrite exists_located by (auto using tidy_at_not_link).
  assert (Hloop : forall w1 D,
            lookup (fs w1) src = Some S -> located (fs w1) dst = true ->
            lookup (fs w1) dst = Some D -> tidy D = true ->
            (items <- ask (fun t => listdir t src) ;;
             for_each items (copy_entry (copytree fuel) src dst ov))%monad w1 = (Ok tt, w') ->
            exists D', fs w' = update (fs w1) dst (Some D') /\ tidy D' = true).
  { intros w1 D Hsl1 Hd1 Hdl1 Hdt1. unfold bind, ask, listdir.
    rewrite stat_located, Hsl1
      by (try (eapply located_of_lookup; eauto); rewrite Hsl1; now apply tidy_not_link).
    destruct S as [data|es|t]; try discriminate.
    eapply for_each_merges; eauto using copytree_stops. apply incl_refl. }
  destruct (lookup (fs w) dst) as [D|] eqn:Hdl; simpl is_some; cbv iota.
  - unfold bind at 1. unfold ret at 1. eapply Hloop; eauto.
  - unfold bind at 1. rewrite makedirs_child by assumption. unfold sys.
    rewrite mkdir_located, Hdl by assumption.
    intros H. eapply (Hloop _ (Dir [])) in H as (D' & F1 & F2).
    + exists D'. split; auto. rewrite F1. simpl fs. apply update_update.
    + simpl fs. rewrite update_apart; auto. now rewrite apart_sym.
    + simpl fs. apply located_update; auto.
    + simpl fs. apply update_same; auto. now apply located_nonempty_parent.
    + reflexivity.
Qed.

End MergeTree.

Module Overwrite.
Import Fs FsFacts FsCalls Tidy Merge MergeTree.

(** A regular file of the source replaces a regular file of the
    destination when [override] is set. *)
Lemma copy_entry_file (recur : ospath -> ospath -> bool -> M unit)
    (src dst : list string) (item data : string) (w w1 : world) :
  plain src = true -> plain dst = true -> plain_name item = true ->
  lookup (fs w) (src ++ [item]) = Some (File data) ->
  is_file (lookup (fs w) (dst ++ [item])) = true ->
  apart src dst = true ->
  copy_entry recur src dst true item w = (Ok tt, w1) ->
  fs w1 = update (fs w) (dst ++ [item]) (Some (File data)).
Proof.
  intros Hps Hpd Hi Hsl Hdf Hap.
  assert (Hs : located (fs w) (src ++ [item]) = true)
    by (eapply located_of_lookup; eauto using plain_child, snoc_nonempty).
  destruct (lookup (fs w) (dst ++ [item])) as [[old| |]|] eqn:Hdl; try discriminate.
  assert (Hd : located (fs w) (dst ++ [item]) = true)
    by (eapply located_of_lookup; eauto using plain_child, snoc_nonempty).
  assert (Hap2 : apart (src ++ [item]) (dst ++ [item]) = true)
    by (now apply apart_app_l, apart_app_r).
  assert (Hcopy : forall w0, fs w0 = fs w -> copy2 (src ++ [item]) (dst ++ [item]) w0 = (Ok tt, w1) ->
                  fs w1 = update (fs w) (dst ++ [item]) (Some (File data))).
  { intros w0 Hw0 H. apply (copy2_file _ _ _ _ data) in H as (n' & E1 & _ & E3).
    - rewrite E1, E3, Hw0; auto. now rewrite Hw0, Hdl.
    - now rewrite Hw0.
    - now rewrite Hw0.
    - now rewrite Hw0.
    - now rewrite Hw0, Hdl.
    - now rewrite last_name_snoc.
    - exact Hap2. }
  unfold copy_entry. unfold bind at 1. unfold test at 1.
  rewrite isdir_located; [|exact Hs|now rewrite Hsl]. rewrite Hsl.
  cbv beta iota zeta delta [is_dir]. unfold bind at 1. unfold test at 1.
  change (true || negb (exists_ (fs w) (dst ++ [item]))) with true. cbv iota.
  apply Hcopy. reflexivity.
Qed.

Lemma lookup_snoc_cons fs (p : list string) x r :
  lookup fs (p ++ x :: r) = lookup fs ((p ++ [x]) ++ r).
Proof. now rewrite <- app_assoc. Qed.

(** A directory of the source goes through the recursive call. *)
Lemma copy_entry_dir (recur : ospath -> ospath -> bool -> M unit)
    (src dst : list string) (ov : bool) (item : string) (m : node) (w w1 : world) :
  plain src = true -> plain_name item = true ->
  lookup (fs w) (src ++ [item]) = Some m -> tidy m = true -> is_dir (Some m) = true ->
  copy_entry recur src dst ov item w = (Ok tt, w1) ->
  recur (src ++ [item]) (dst ++ [item]) true w = (Ok tt, w1).
Proof.
  intros Hps Hi Hls Hmt Hmd.
  unfold copy_entry. unfold bind at 1. unfold test at 1.
  rewrite isdir_located, Hls, Hmd.
  - intros H1. exact H1.
  - eapply located_of_lookup; eauto using plain_child, snoc_nonempty.
  - rewrite Hls. now apply tidy_not_link.
Qed.

(** The entry that leads to the target file. *)
Lemma copy_entry_target (fuel : nat) (src dst : list string) (ov : bool)
    (es ds : list (string * node)) (i0 : string) (rest : list string) (c : string)
    (w w1 : world) :
  (forall s d w w',
    plain s = true ->
    (exists S, lookup (fs w) s = Some S /\ tidy S = true) ->
    located (fs w) d = true -> tidy_at (lookup (fs w) d) = true ->
    apart s d = true ->
    copytree fuel s d true w = (Ok tt, w') ->
    rest <> [] ->
    lookup (fs w) (s ++ rest) = Some (File c) ->
    is_file (lookup (fs w) (d ++ rest)) = true ->
    lookup (fs w') (d ++ rest) = Some (File c)) ->
  plain src = true -> tidy (Dir es) = true -> apart src dst = true ->
  ov = true \/ rest <> [] ->
  lookup (Dir es) (i0 :: rest) = Some (File c) ->
  lookup (fs w) src = Some (Dir es) ->
  located (fs w) dst = true -> lookup (fs w) dst = Some (Dir ds) -> tidy (Dir ds) = true ->
  is_file (lookup (fs w) (dst ++ i0 :: rest)) = true ->
  copy_entry (copytree fuel) src dst ov i0 w = (Ok tt, w1) ->
  lookup (fs w1) (dst ++ i0 :: rest) = Some (File c).
Proof.
  intros deeper Hps Hst Hap Hov Hfile Hsl Hd Hdl Hdt Hf H1.
  assert (Hpd : plain dst = true) by (apply andb_true_iff in Hd; tauto).
  rewrite lookup_cons in Hfile.
  destruct (child es i0) as [m|] eqn:Hm; [|discriminate].
  assert (Hi : plain_name i0 = true) by (apply (tidy_child es i0 m Hst Hm)).
  assert (Hls : lookup (fs w) (src ++ [i0]) = Some m)
    by (now rewrite (lookup_child _ _ es)).
  destruct (tidy_child es i0 m Hst Hm) as [Hmt _].
  destruct rest as [|y rest'].
  - rewrite lookup_nil in Hfile. injection Hfile as ->.
    destruct Hov as [-> | Hne]; [|exfalso; now apply Hne].
    apply (copy_entry_file _ _ _ _ c) in H1; auto.
    rewrite H1. apply update_same; [apply snoc_nonempty|].
    unfold parent_dir. now rewrite removelast_snoc, Hdl.
  - assert (Hmd : is_dir (Some m) = true).
    { destruct m as [|ms|]; auto; discriminate. }
    apply (copy_entry_dir _ _ _ _ _ m) in H1; auto.
    rewrite lookup_snoc_cons. rewrite lookup_snoc_cons in Hf.
    apply (deeper (src ++ [i0]) (dst ++ [i0]) w w1).
    + now apply plain_child.
    + exists m. auto.
    + apply located_child; [now apply plain_child | now rewrite Hdl].
    + rewrite (lookup_child _ _ ds) by assumption.
      destruct (child ds i0) eqn:Hch; auto. simpl.
      apply (tidy_child ds i0 n Hdt Hch).
    + now apply apart_app_l, apart_app_r.
    + exact H1.
    + discriminate.
    + rewrite lookup_app, Hls. exact Hfile.
    + exact Hf.
Qed.

Lemma for_each_overwrites (fuel : nat) (src dst : list string) (ov : bool)
    (es : list (string * node)) (i0 : string) (rest : list string) (c : string) :
  (forall s d w w',
    plain s = true ->
    (exists S, lookup (fs w) s = Some S /\ tidy S = true) ->
    located (fs w) d = true -> tidy_at (lookup (fs w) d) = true ->
    apart s d = true ->
    copytree fuel s d true w = (Ok tt, w') ->
    rest <> [] ->
    lookup (fs w) (s ++ rest) = Some (File c) ->
    is_file (lookup (fs w) (d ++ rest)) = true ->
    lookup (fs w') (d ++ rest) = Some (File c)) ->
  plain src = true -> tidy (Dir es) = true -> apart src dst = true ->
  ov = true \/ rest <> [] ->
  lookup (Dir es) (i0 :: rest) = Some (File c) ->
  forall (items : list string) (w w' : world) ds,
    incl items (map fst es) ->
    lookup (fs w) src = Some (Dir es) ->
    located (fs w) dst = true -> lookup (fs w) dst = Some (Dir ds) -> tidy (Dir ds) = true ->
    is_file (lookup (fs w) (dst ++ i0 :: rest)) = true ->
    In i0 items \/ lookup (fs w) (dst ++ i0 :: rest) = Some (File c) ->
    for_each items (copy_entry (copytree fuel) src dst ov) w = (Ok tt, w') ->
    lookup (fs w') (dst ++ i0 :: rest) = Some (File c).
Proof.
  intros deeper Hps Hst Hap Hov Hfile.
  induction items as [|item items IH]; intros w w' ds Hin Hsl Hd Hdl Hdt Hf Hstate.
    - intros [= <-]. destruct Hstate as [[]|H]; exact H.
    - simpl. unfold bind at 1.
      destruct (copy_entry (copytree fuel) src dst ov item w) as [[[]|e|] w1] eqn:H1;
        try discriminate.
      intros H2.
      assert (Hnd : dst <> []) by (eapply apart_nonempty_r; eauto).
      assert (Hpd : plain dst = true) by (apply andb_true_iff in Hd; tauto).
      assert (Hitem : In item (map fst es)) by (apply Hin; now left).
      assert (Hi : plain_name item = true) by (apply (tidy_names es item Hst Hitem)).
      destruct (copy_entry_merges (copytree fuel) (copytree_merges fuel) (copytree_stops fuel)
                  src dst ov item w w1 es (Dir ds) Hps Hsl Hst Hitem Hd Hdl Hdt Hap H1)
        as (ds' & n' & Hds & E1 & E2).
      injection Hds as <-.
      assert (E1' := E1). rewrite (update_child _ _ ds) in E1' by assumption.
      assert (Hdl1 : lookup (fs w1) dst = Some (Dir (put ds item n')))
        by (rewrite E1'; eapply lookup_update_here; eauto).
      assert (Hsl1 : lookup (fs w1) src = Some (Dir es))
        by (rewrite E1', update_apart; auto; now rewrite apart_sym).
      assert (Hd1 : located (fs w1) dst = true) by (eapply located_of_lookup; eauto).
      assert (Hdt1 : tidy (Dir (put ds item n')) = true) by (now apply tidy_put).
      assert (Hin1 : incl items (map fst es)) by (intros i Hi'; apply Hin; now right).
      destruct (String.eqb item i0) eqn:Heq.
      + (* the entry of the target *)
        apply String.eqb_eq in Heq. subst item.
        assert (Hdone : lookup (fs w1) (dst ++ i0 :: rest) = Some (File c)).
        { apply (copy_entry_target fuel src dst ov es ds i0 rest c w w1); auto. }
        apply (IH w1 w' (put ds i0 n') Hin1 Hsl1 Hd1 Hdl1 Hdt1); auto.
        now rewrite Hdone.
      + (* another entry *)
        apply String.eqb_neq in Heq.
        assert (Hsame : lookup (fs w1) (dst ++ i0 :: rest) = lookup (fs w) (dst ++ i0 :: rest)).
        { replace (dst ++ i0 :: rest) with ((dst ++ [i0]) ++ rest)
            by (now rewrite <- app_assoc).
          rewrite E1. apply update_apart.
          apply apart_app_r. now apply apart_siblings. }
        apply (IH w1 w' (put ds item n') Hin1 Hsl1 Hd1 Hdl1 Hdt1); auto.
        * now rewrite Hsame.
        * rewrite Hsame. destruct Hstate as [[Hbad|Hin0]|Hdone]; auto.
          exfalso. now apply Heq.
Qed.

Lemma child_names es x m : child es x = Some m -> In x (map fst es).
Proof.
  induction es as [|[y n] es IH]; simpl; [discriminate|].
  destruct (String.eqb x y) eqn:Hxy; auto.
  apply String.eqb_eq in Hxy. auto.
Qed.

Lemma lookup_dir_above fs p r n :
  lookup fs (p ++ r) = Some n -> r <> [] -> exists es, lookup fs p = Some (Dir es).
Proof.
  rewrite lookup_app. destruct (lookup fs p) as [[d|es|t]|]; eauto;
    destruct r; simpl; congruence.
Qed.

(** [copytree] replaces a regular file of the destination by the file of
    the same path in the source: always below the top level, and at the top
    level when [override] is set. *)
Lemma copytree_overwrites (fuel : nat) : forall src dst ov w w' p c,
  plain src = true ->
  (exists S, lookup (fs w) src = Some S /\ tidy S = true) ->
  located (fs w) dst = true -> tidy_at (lookup (fs w) dst) = true ->
  apart src dst = true ->
  copytree fuel src dst ov w = (Ok tt, w') ->
  p <> [] ->
  lookup (fs w) (src ++ p) = Some (File c) ->
  is_file (lookup (fs w) (dst ++ p)) = true ->
  ov = true \/ 2 <= List.length p ->
  lookup (fs w') (dst ++ p) = Some (File c).
Proof.
  induction fuel as [|fuel IH];
    intros src dst ov w w' p c Hps (S & Hsl & Hst) Hd Hdt Hap Hrun Hp Hsf Hdf Hov;
    [discriminate|].
  destruct p as [|i0 rest]; [congruence|].
  destruct (lookup_dir_above _ _ _ _ Hsf) as [es Hes]; [discriminate|].
  rewrite Hsl in Hes. injection Hes as ->.
  destruct (lookup (fs w) (dst ++ i0 :: rest)) as [nd|] eqn:Hdl0; [|discriminate].
  destruct (lookup_dir_above _ _ _ _ Hdl0) as [ds Hds]; [discriminate|].
  rewrite Hds in Hdt. simpl in Hdt.
  assert (Hns : src <> []) by (eapply apart_nonempty_l; eauto).
  revert Hrun. simpl. unfold bind at 1. unfold test at 1.
  rewrite exists_located, Hds by (auto; now rewrite Hds).
  simpl is_some. cbv iota. unfold bind at 1. unfold ret at 1.
  unfold bind at 1. unfold ask at 1. unfold listdir.
  rewrite stat_located, Hsl;
    [|eapply located_of_lookup; eauto|now rewrite Hsl].
  intros Hloop.
  assert (Hfile : lookup (Dir es) (i0 :: rest) = Some (File c))
    by (now rewrite lookup_app, Hsl in Hsf).
  assert (Hdeeper : forall s d w0 w0',
            plain s = true ->
            (exists S, lookup (fs w0) s = Some S /\ tidy S = true) ->
            located (fs w0) d = true -> tidy_at (lookup (fs w0) d) = true ->
            apart s d = true ->
            copytree fuel s d true w0 = (Ok tt, w0') ->
            rest <> [] ->
            lookup (fs w0) (s ++ rest) = Some (File c) ->
            is_file (lookup (fs w0) (d ++ rest)) = true ->
            lookup (fs w0') (d ++ rest) = Some (File c)).
  { intros s d w0 w0' H1 H2 H3 H4 H5 H6 H7 H8 H9.
    apply (IH s d true w0 w0' rest c); auto. }
  assert (Hov' : ov = true \/ rest <> []).
  { destruct Hov as [->|Hlen]; auto. right. intros ->. simpl in Hlen. lia. }
  assert (Hin0 : In i0 (map fst es)).
  { rewrite lookup_cons in Hfile.
    destruct (child es i0) eqn:Hc; [|discriminate]. eapply child_names; eauto. }
  apply (for_each_overwrites fuel src dst ov es i0 rest c Hdeeper Hps Hst Hap Hov' Hfile
           (map fst es) w w' ds); auto.
  - apply incl_refl.
  - now rewrite Hdl0.
Qed.

End Overwrite.

Module Persist.
Import Fs FsFacts FsCalls Tidy.

Lemma dirs_persist_refl t : dirs_persist t t.
Proof. intros p H. exact H. Qed.

Lemma dirs_persist_trans t1 t2 t3 :
  dirs_persist t1 t2 -> dirs_persist t2 t3 -> dirs_persist t1 t3.
Proof. intros H1 H2 p H. auto. Qed.

Lemma prefix_cases (q p : list string) :
  PurePath.prefixb q p = true
  \/ (exists r, r <> [] /\ q = p ++ r)
  \/ apart q p = true.
Proof.
  unfold apart. destruct (PurePath.prefixb q p) eqn:H1; auto.
  destruct (PurePath.prefixb p q) eqn:H2; auto.
  right. left. apply prefixb_true in H2 as [r ->]. exists r. split; auto.
  intros ->. rewrite app_nil_r, prefixb_refl in H1. discriminate.
Qed.

Lemma update_keeps_dirs t q v :
  is_dir (lookup t q) = false -> dirs_persist t (update t q v).
Proof.
  intros Hq p Hp. destruct (prefix_cases q p) as [H|[(r & Hr & ->)|H]].
  - apply prefixb_true in H as [r ->]. exfalso.
    destruct r as [|x r].
    + rewrite app_nil_r in Hp. congruence.
    + destruct (lookup t (q ++ x :: r)) eqn:Hl; [|discriminate].
      erewrite lookup_prefix_dir in Hq; eauto; discriminate.
  - destruct (lookup t p) as [[d|es|l]|] eqn:Hl; try discriminate.
    destruct (update_above (p ++ r) t p r v es eq_refl Hr Hl) as [es' ->]. reflexivity.
  - now rewrite update_apart.
Qed.

Lemma mkdir_keeps t p t' : mkdir t p = inr t' -> dirs_persist t t'.
Proof.
  unfold mkdir. destruct (resolve t false p) as [e|c]; [discriminate|].
  destruct (lookup t c) eqn:Hl; [discriminate|]. intros [= <-].
  apply update_keeps_dirs. now rewrite Hl.
Qed.

Lemma open_wb_keeps t p t' f : open_wb t p = inr (t', f) -> dirs_persist t t'.
Proof.
  unfold open_wb. destruct (resolve t true p) as [e|c]; [discriminate|].
  destruct (lookup t c) as [[d|es|l]|] eqn:Hl; try discriminate;
    intros [= <- <-]; apply update_keeps_dirs; now rewrite Hl.
Qed.

Lemma write_keeps t f data : dirs_persist t (write t f data).
Proof.
  unfold write. destruct (lookup t f) as [[d|es|l]|] eqn:Hl;
    try apply dirs_persist_refl.
  apply update_keeps_dirs. now rewrite Hl.
Qed.

Lemma unlink_keeps t p t' : unlink t p = inr t' -> dirs_persist t t'.
Proof.
  unfold unlink, lstat, stat_gen. destruct (resolve t false p) as [e|c]; [discriminate|].
  destruct (lookup t c) as [[d|es|l]|] eqn:Hl; try discriminate;
    intros [= <-]; apply update_keeps_dirs; now rewrite Hl.
Qed.

Lemma symlink_keeps t target p t' : symlink t target p = inr t' -> dirs_persist t t'.
Proof.
  unfold symlink. destruct (resolve t false p) as [e|c]; [discriminate|].
  destruct (lookup t c) eqn:Hl; [discriminate|]. intros [= <-].
  apply update_keeps_dirs. now rewrite Hl.
Qed.

(** The monad *)

Lemma keeps_ret {A : Type} (a : A) : keeps_dirs (ret a).
Proof. intros w r w' [= _ <-]. apply dirs_persist_refl. Qed.

Lemma keeps_raise {A : Type} (e : exn) : keeps_dirs (@raise A e).
Proof. intros w r w' [= _ <-]. apply dirs_persist_refl. Qed.

Lemma keeps_out_of_fuel {A : Type} : keeps_dirs (@out_of_fuel A).
Proof. intros w r w' [= _ <-]. apply dirs_persist_refl. Qed.

Lemma keeps_test (f : node -> bool) : keeps_dirs (test f).
Proof. intros w r w' [= _ <-]. apply dirs_persist_refl. Qed.

Lemma keeps_ask {A : Type} (f : node -> errno + A) : keeps_dirs (ask f).
Proof.
  intros w r w'. unfold ask. destruct (f (fs w)); intros [= _ <-]; apply dirs_persist_refl.
Qed.

Lemma keeps_logger l t a : keeps_dirs (logger l t a).
Proof. intros w r w' [= _ <-]. apply dirs_persist_refl. Qed.

Lemma keeps_item {A : Type} key (o : option A) : keeps_dirs (item key o).
Proof. destruct o; [apply keeps_ret | apply keeps_raise]. Qed.

Lemma keeps_sys (f : node -> errno + node) :
  (forall t t', f t = inr t' -> dirs_persist t t') -> keeps_dirs (sys f).
Proof.
  intros Hf w r w'. unfold sys. destruct (f (fs w)) eqn:H; intros [= _ <-].
  - apply dirs_persist_refl.
  - simpl. auto.
Qed.

Lemma keeps_bind {A B : Type} (m : M A) (k : A -> M B) :
  keeps_dirs m -> (forall a, keeps_dirs (k a)) -> keeps_dirs (bind m k).
Proof.
  intros Hm Hk w r w'. unfold bind.
  destruct (m w) as [[a|e|] w1] eqn:H1; apply Hm in H1.
  - intros H2. apply Hk in H2. eapply dirs_persist_trans; eauto.
  - now intros [= _ <-].
  - now intros [= _ <-].
Qed.

Lemma keeps_try {A : Type} (m : M A) (h : exn -> M A) :
  keeps_dirs m -> (forall e, keeps_dirs (h e)) -> keeps_dirs (try_except m h).
Proof.
  intros Hm Hh w r w'. unfold try_except.
  destruct (m w) as [[a|e|] w1] eqn:H1; apply Hm in H1.
  - now intros [= _ <-].
  - intros H2. apply Hh in H2. eapply dirs_persist_trans; eauto.
  - now intros [= _ <-].
Qed.

Lemma keeps_if {A : Type} (b : bool) (m1 m2 : M A) :
  keeps_dirs m1 -> keeps_dirs m2 -> keeps_dirs (if b then m1 else m2).
Proof. destruct b; auto. Qed.

Lemma keeps_for_each {A : Type} (l : list A) (body : A -> M unit) :
  (forall a, keeps_dirs (body a)) -> keeps_dirs (for_each l body).
Proof.
  intros Hb. induction l as [|a l IH]; simpl.
  - apply keeps_ret.
  - apply keeps_bind; auto.
Qed.

Create HintDb dirs.
#[export] Hint Resolve keeps_ret keeps_raise keeps_out_of_fuel keeps_test keeps_ask
  keeps_logger keeps_item keeps_if keeps_for_each keeps_try : dirs.
#[export] Hint Resolve mkdir_keeps unlink_keeps symlink_keeps : dirs.
#[export] Hint Extern 2 (keeps_dirs (bind _ _)) => apply keeps_bind; [|intro] : dirs.
#[export] Hint Extern 2 (keeps_dirs (sys _)) => apply keeps_sys; intros : dirs.

Lemma keeps_opened p (k : list string -> M unit) :
  (forall f, keeps_dirs (k f)) ->
  keeps_dirs (bind (fun w => match open_wb (fs w) p with
                             | inl e => (Raise (OSError e), w)
                             | inr (t, f) => (Ok f, set_fs w t)
                             end) k).
Proof.
  intros Hk. apply keeps_bind; auto.
  intros w r w'. destruct (open_wb (fs w) p) as [e|[t f]] eqn:Ho; intros [= _ <-].
  - apply dirs_persist_refl.
  - simpl. eapply open_wb_keeps; eauto.
Qed.

Lemma keeps_written f data :
  keeps_dirs (fun w => (Ok tt, set_fs w (write (fs w) f data))).
Proof. intros w r w' [= _ <-]. simpl. apply write_keeps. Qed.

Lemma keeps_makedirs_rev rp : keeps_dirs (makedirs_rev rp).
Proof.
  induction rp as [|x rp IH]; simpl.
  - eauto with dirs.
  - apply keeps_bind; [eauto with dirs|]. intros b.
    apply keeps_bind; [|intros; eauto with dirs].
    apply keeps_if; [eauto with dirs|]. apply keeps_try; auto.
    intros [ | | [] | | | | | ]; eauto with dirs.
Qed.

Lemma keeps_makedirs p : keeps_dirs (makedirs p).
Proof. apply keeps_makedirs_rev. Qed.

Lemma keeps_copy2 s d : keeps_dirs (copy2 s d).
Proof.
  unfold copy2. apply keeps_bind; [eauto with dirs|]. intros b.
  apply keeps_bind; [eauto with dirs|]. intros same.
  apply keeps_if; [eauto with dirs|].
  apply keeps_bind; [eauto with dirs|]. intros data.
  apply keeps_opened. intros f. apply keeps_written.
Qed.

Lemma keeps_copy_entry recur src dst ov item :
  (forall s d o, keeps_dirs (recur s d o)) ->
  keeps_dirs (copy_entry recur src dst ov item).
Proof.
  intros Hr. unfold copy_entry. apply keeps_bind; [eauto with dirs|]. intros b.
  apply keeps_if; auto. apply keeps_bind; [eauto with dirs|]. intros b'.
  apply keeps_if; auto using keeps_copy2 with dirs.
Qed.

Lemma keeps_copytree fuel : forall src dst ov, keeps_dirs (copytree fuel src dst ov).
Proof.
  induction fuel as [|fuel IH]; intros src dst ov; simpl.
  - apply keeps_out_of_fuel.
  - apply keeps_bind; [eauto with dirs|]. intros b.
    apply keeps_bind; [apply keeps_if; auto using keeps_makedirs with dirs|]. intros _.
    apply keeps_bind; [eauto with dirs|]. intros items.
    apply keeps_for_each. intros item. now apply keeps_copy_entry.
Qed.

End Persist.

Section StagePersist.
Import Fs FsFacts FsCalls Tidy Persist.
Variable E : environment.
Hypothesis spawn_ok : spawn_keeps_dirs E.

Lemma keeps_urlopen method url : keeps_dirs (urlopen E method url).
Proof.
  intros w r w'. unfold urlopen.
  destruct (env_internet E _ _ _); intros [= _ <-]; apply dirs_persist_refl.
Qed.

Lemma keeps_transfer conn f : keeps_dirs (transfer conn f).
Proof.
  intros w r w'. unfold transfer.
  destruct (failure conn); intros [= _ <-]; simpl; apply write_keeps.
Qed.

Lemma keeps_open_wb p : keeps_dirs (open_path E p).
Proof.
  intros w r w'. unfold open_path.
  destruct (Fs.open_wb (fs w) (os E p)) as [e|[t f]] eqn:Ho; intros [= _ <-].
  - apply dirs_persist_refl.
  - simpl. eapply open_wb_keeps; eauto.
Qed.

Lemma keeps_download c dir f : keeps_dirs (download E c dir f).
Proof.
  unfold download.
  apply keeps_bind; [destruct c; auto using keeps_urlopen with dirs|]. intros conn.
  apply keeps_bind; [eauto with dirs|]. intros _.
  apply keeps_bind; [apply keeps_open_wb|]. intros h.
  apply keeps_bind; [apply keeps_transfer|]. intros _. eauto with dirs.
Qed.

Lemma keeps_check_call argv dir : keeps_dirs (check_call E argv dir).
Proof.
  intros w r w'. unfold check_call.
  destruct (env_spawn E argv dir (fs w)) as [[rc t]|] eqn:Hs.
  - destruct (Z.eqb rc 0); intros [= _ <-]; simpl; eapply spawn_ok; eauto.
  - intros [= _ <-]. apply dirs_persist_refl.
Qed.

Lemma keeps_link_forge args dest p : keeps_dirs (link_forge E args dest p).
Proof. unfold link_forge. eauto 12 with dirs. Qed.

Lemma keeps_update_forge args mc fv tmp dest :
  keeps_dirs (update_forge E args mc fv tmp dest).
Proof.
  unfold update_forge.
  apply keeps_bind; [eauto with dirs|]. intros _.
  apply keeps_bind.
  - apply keeps_try.
    + apply keeps_bind; [apply keeps_download|]. intros; eauto with dirs.
    + intros [code u| | | | | | |]; eauto with dirs.
  - intros [p|].
    + apply keeps_bind; [eauto with dirs|]. intros p'.
      apply keeps_bind; [eauto with dirs|]. intros _.
      apply keeps_bind; [apply keeps_check_call|]. intros _. apply keeps_link_forge.
    + apply keeps_bind; [apply keeps_download|]. intros p'.
      apply keeps_bind; [eauto with dirs|]. intros _.
      apply keeps_bind; [apply keeps_check_call|]. intros _. apply keeps_link_forge.
Qed.

Lemma keeps_forge_step args m tmp base : keeps_dirs (forge_step E args m tmp base).
Proof.
  unfold forge_step. destruct (keep_forge args); [eauto with dirs|].
  destruct (mc_version_of (minecraft m)); [|eauto with dirs].
  destruct (forge_ids (minecraft m)); [eauto with dirs|].
  apply keeps_if; [apply keeps_update_forge | eauto with dirs].
Qed.

Lemma keeps_extract_member z target name : keeps_dirs (extract_member z target name).
Proof.
  unfold extract_member.
  apply keeps_bind; [eauto with dirs|]. intros m.
  apply keeps_bind; [eauto with dirs|]. intros b.
  apply keeps_bind.
  - destruct (removelast _); [eauto with dirs|].
    apply keeps_if; [eauto with dirs | apply keeps_makedirs].
  - intros _. apply keeps_if.
    + eauto with dirs.
    + apply keeps_opened. intros f. apply keeps_written.
Qed.

Lemma keeps_apply_overrides fuel m z tmp base :
  keeps_dirs (apply_overrides E fuel m z tmp base).
Proof.
  unfold apply_overrides. destruct (overrides m); [|eauto with dirs].
  apply keeps_bind.
  - unfold extractall. apply keeps_for_each. intros. apply keeps_extract_member.
  - intros _. apply keeps_copytree.
Qed.

Lemma keeps_restore_config fuel args base bak :
  keeps_dirs (restore_config E fuel args base bak).
Proof.
  unfold restore_config. apply keeps_bind; [eauto with dirs|]. intros b.
  apply keeps_if; [apply keeps_copytree | eauto with dirs].
Qed.

Lemma keeps_after_backup fuel args m modpack tmp base store bak :
  keeps_dirs (after_backup E fuel args m modpack tmp base store bak).
Proof.
  unfold after_backup.
  apply keeps_bind; [apply keeps_forge_step|]. intros _.
  apply keeps_bind; [eauto with dirs|]. intros _.
  apply keeps_bind; [apply keeps_copytree|]. intros _.
  apply keeps_bind; [eauto with dirs|]. intros _.
  apply keeps_bind; [apply keeps_apply_overrides|]. intros _.
  apply keeps_bind; [apply keeps_restore_config|]. intros _.
  eauto with dirs.
Qed.

Lemma backups_outlive_stage (fuel : nat) (args : arguments) (m : manifest)
    (modpack : zipfile) (tmp_dir mod_store : PurePath.t) (c : list string)
    (w w' : world) :
  plain c = true ->
  is_dir (lookup (fs w) c) = true ->
  is_dir (lookup (fs w) (c ++ ["mods"])) = true ->
  is_dir (lookup (fs w) (c ++ ["config"])) = true ->
  stage E fuel args m modpack tmp_dir ("/" :: c) mod_store w = (Ok tt, w') ->
  is_dir (lookup (fs w') (c ++ ["mods.bak"])) = true
  /\ is_dir (lookup (fs w') (c ++ ["config.bak"])) = true.
Proof.
  intros Hc Hd Hm Hcf. unfold stage. unfold bind at 1.
  destruct (backup_step E ("/" :: c) w) as [[b|e|] w1] eqn:Hb; try discriminate.
  intros Hrest.
  apply backup_step_spec in Hb as (-> & D1 & M1 & C1 & MB & CB & _); auto.
  apply keeps_after_backup in Hrest.
  split; apply Hrest.
  - rewrite MB. destruct (lookup (fs w) (c ++ ["mods"])); [exact Hm | discriminate].
  - rewrite CB. destruct (lookup (fs w) (c ++ ["config"])); [exact Hcf | discriminate].
Qed.
End StagePersist.

Section Claims.
Import Fs FsFacts FsCalls Tidy Overwrite.
Variable E : environment.

(** C10: [copy_entry] is the body of the loop of [copytree].  For an entry
    that is a directory it is the recursive call with [override] true,
    whatever [override] the caller gave (line 124 passes none).  For a
    regular file whose destination exists it does nothing when [override]
    is false.  So a call with [override] false still overwrites every file
    that lies at depth two or more below the destination. *)
Theorem recursion_always_overrides :
  (forall recur src dst ov item w,
     isdir (fs w) (src ++ [item]) = true ->
     copy_entry recur src dst ov item w = recur (src ++ [item]) (dst ++ [item]) true w)
  /\ (forall recur src dst item w,
        isdir (fs w) (src ++ [item]) = false ->
        exists_ (fs w) (dst ++ [item]) = true ->
        copy_entry recur src dst false item w = (Ok tt, w))
  /\ (forall fuel src dst w w' p c,
        plain src = true ->
        (exists S, lookup (fs w) src = Some S /\ tidy S = true) ->
        located (fs w) dst = true -> tidy_at (lookup (fs w) dst) = true ->
        apart src dst = true ->
        2 <= List.length p ->
        lookup (fs w) (src ++ p) = Some (File c) ->
        is_file (lookup (fs w) (dst ++ p)) = true ->
        copytree fuel src dst false w = (Ok tt, w') ->
        lookup (fs w') (dst ++ p) = Some (File c)).
Proof.
  split; [|split].
  - intros recur src dst ov item w H. unfold copy_entry, bind, test. now rewrite H.
  - intros recur src dst item w H1 H2. unfold copy_entry, bind, test. now rewrite H1, H2.
  - intros fuel src dst w w' p c H1 H2 H3 H4 H5 Hlen H6 H7 H8.
    eapply copytree_overwrites; eauto. intros ->. simpl in Hlen. lia.
Qed.

(** The restore step on a backup of regular files and directories. *)
Lemma restore_step_overwrites (fuel : nat) (args : arguments) (c p : list string)
    (backed_up : string) (w w' : world) :
  plain c = true ->
  keep_config args = true ->
  (exists S, lookup (fs w) (c ++ ["config.bak"]) = Some S /\ tidy S = true) ->
  tidy_at (lookup (fs w) (c ++ ["config"])) = true ->
  p <> [] ->
  lookup (fs w) ((c ++ ["config.bak"]) ++ p) = Some (File backed_up) ->
  is_file (lookup (fs w) ((c ++ ["config"]) ++ p)) = true ->
  restore_config E fuel args ("/" :: c) ("/" :: c ++ ["config.bak"]) w = (Ok tt, w') ->
  lookup (fs w') ((c ++ ["config"]) ++ p) = Some (File backed_up).
Proof.
  intros Hc Hk (S & Hsl & Hst) Hdt Hp Hsf Hdf.
  assert (Hpb : plain (c ++ ["config.bak"]) = true) by (now apply plain_child).
  assert (Hpc : plain (c ++ ["config"]) = true) by (now apply plain_child).
  unfold restore_config. unfold bind at 1. unfold test at 1.
  change (os E ("/" :: c ++ ["config.bak"])) with (c ++ ["config.bak"]).
  rewrite exists_located, Hsl, Hk;
    [|eapply located_of_lookup; eauto using snoc_nonempty
     |rewrite Hsl; now apply tidy_not_link].
  cbv beta iota delta [andb is_some].
  rewrite subdir_absolute by reflexivity.
  change (os E ("/" :: c ++ PurePath.parse "config")) with (c ++ ["config"]).
  intros Hrun.
  destruct (lookup (fs w) ((c ++ ["config"]) ++ p)) as [nd|] eqn:Hdl; [|discriminate].
  destruct (lookup_dir_above _ _ _ _ Hdl Hp) as [ds Hds].
  apply (copytree_overwrites fuel (c ++ ["config.bak"]) (c ++ ["config"]) true w w'
           p backed_up); auto.
  - exists S. auto.
  - apply (located_of_lookup _ _ (Dir ds)); auto using snoc_nonempty.
  - apply apart_siblings. discriminate.
  - now rewrite Hdl.
Qed.

(** The backup step returns the path of [config.bak]. *)
Lemma backup_step_path (c : list string) (w w' : world) (b : PurePath.t) :
  backup_step E ("/" :: c) w = (Ok b, w') -> b = "/" :: c ++ ["config.bak"].
Proof.
  unfold backup_step. rewrite backup_of_mods, backup_of_config.
  unfold bind at 1. unfold ret at 1. unfold bind at 1. unfold ret at 1.
  unfold bind at 1.
  destruct (backup E ("/" :: c) _ _ w) as [[[]|e|] w1]; try discriminate.
  unfold ret. now intros [= <- _].
Qed.

(** A run that completes has gone through the backup step, the steps up
    to the overrides and the restore step, in this order, and ends with
    the files the restore step leaves. *)
Lemma run_through_restore (fuel : nat) (args : arguments) (tmp_dir : string)
    (c : list string) (modpack : zipfile) (m : manifest) (bl : option (list string))
    (store : PurePath.t) (w w1 w2 w' : world) :
  prepare E args (PurePath.parse tmp_dir) w = (Ok ("/" :: c, modpack, m, bl), w1) ->
  fetch E args m (PurePath.parse tmp_dir) bl w1 = (Ok store, w2) ->
  run E fuel args tmp_dir w = (Ok tt, w') ->
  exists w3 w6 w7,
    backup_step E ("/" :: c) w2 = (Ok ("/" :: c ++ ["config.bak"]), w3)
    /\ (forge_step E args m (PurePath.parse tmp_dir) ("/" :: c) ;;
        logger INFO "Installing mods..." [] ;;
        copytree fuel (os E store) (os E (subdir ("/" :: c) "mods")) true ;;
        logger INFO "Applying custom config..." [] ;;
        apply_overrides E fuel m modpack (PurePath.parse tmp_dir) ("/" :: c)) w3
       = (Ok tt, w6)
    /\ restore_config E fuel args ("/" :: c) ("/" :: c ++ ["config.bak"]) w6 = (Ok tt, w7)
    /\ fs w' = fs w7.
Proof.
  intros Hp Hf. unfold run. unfold bind at 1. rewrite Hp.
  unfold bind at 1. rewrite Hf.
  unfold stage. unfold bind at 1.
  destruct (backup_step E ("/" :: c) w2) as [[bak|e|] w3] eqn:Hb; try discriminate.
  pose proof (backup_step_path _ _ _ _ Hb) as ->.
  unfold after_backup. unfold bind at 1.
  destruct (forge_step E args m (PurePath.parse tmp_dir) ("/" :: c) w3) as [[[]|e|] w4] eqn:H4;
    try discriminate.
  unfold bind at 1. unfold logger at 1. unfold bind at 1.
  match goal with
  | |- context [copytree fuel ?s ?d true ?w0] =>
      destruct (copytree fuel s d true w0) as [[[]|e|] w5] eqn:H5; try discriminate
  end.
  unfold bind at 1. unfold logger at 1. unfold bind at 1.
  match goal with
  | |- context [apply_overrides E fuel m modpack ?t ?b ?w0] =>
      destruct (apply_overrides E fuel m modpack t b w0) as [[[]|e|] w6] eqn:H6;
        try discriminate
  end.
  unfold bind at 1.
  destruct (restore_config E fuel args ("/" :: c) ("/" :: c ++ ["config.bak"]) w6)
    as [[[]|e|] w7] eqn:Hr; try discriminate.
  unfold bind at 1. destruct (name m) as [n|]; [|discriminate].
  unfold item, ret, logger. intros [= <-].
  exists w3, w6, w7. split; [reflexivity|]. split; [|split; [exact Hr | reflexivity]].
  cbv beta iota delta [bind logger]. rewrite H4. cbv beta iota.
  rewrite H5. cbv beta iota. exact H6.
Qed.

(** C1 (amended): a run with [keep_config] that completes has gone
    through the backup step, then the steps up to the overrides, then the
    restore step of lines 221-222, and it ends with the files that the
    restore step leaves: no later step changes a file.  The restore step
    calls [copytree] with its default [override], so every file of the
    configuration backup replaces the file of the same path in [config],
    also one that the overrides step has just put there: the run ends
    with the backed-up content of such a file, not with the content of
    the overrides. *)
Theorem restore_overwrites_overrides (fuel : nat) (args : arguments) (tmp_dir : string)
    (c : list string) (modpack : zipfile) (m : manifest) (bl : option (list string))
    (store : PurePath.t) (w w1 w2 w' : world) :
  keep_config args = true ->
  plain c = true ->
  prepare E args (PurePath.parse tmp_dir) w = (Ok ("/" :: c, modpack, m, bl), w1) ->
  fetch E args m (PurePath.parse tmp_dir) bl w1 = (Ok store, w2) ->
  run E fuel args tmp_dir w = (Ok tt, w') ->
  exists w3 w6 w7,
    backup_step E ("/" :: c) w2 = (Ok ("/" :: c ++ ["config.bak"]), w3)
    /\ (forge_step E args m (PurePath.parse tmp_dir) ("/" :: c) ;;
        logger INFO "Installing mods..." [] ;;
        copytree fuel (os E store) (os E (subdir ("/" :: c) "mods")) true ;;
        logger INFO "Applying custom config..." [] ;;
        apply_overrides E fuel m modpack (PurePath.parse tmp_dir) ("/" :: c)) w3
       = (Ok tt, w6)
    /\ restore_config E fuel args ("/" :: c) ("/" :: c ++ ["config.bak"]) w6 = (Ok tt, w7)
    /\ fs w' = fs w7
    /\ forall (p : list string) (backed_up : string),
         (exists S, lookup (fs w6) (c ++ ["config.bak"]) = Some S /\ tidy S = true) ->
         tidy_at (lookup (fs w6) (c ++ ["config"])) = true ->
         p <> [] ->
         lookup (fs w6) ((c ++ ["config.bak"]) ++ p) = Some (File backed_up) ->
         is_file (lookup (fs w6) ((c ++ ["config"]) ++ p)) = true ->
         lookup (fs w') ((c ++ ["config"]) ++ p) = Some (File backed_up).
Proof.
  intros Hk Hc Hp Hf Hrun.
  destruct (run_through_restore fuel args tmp_dir c modpack m bl store w w1 w2 w' Hp Hf Hrun)
    as (w3 & w6 & w7 & Hb & Hmid & Hr & Hfs).
  exists w3, w6, w7. repeat (split; [assumption|]).
  intros p backed_up HS Ht Hne Hbak Hlive. rewrite Hfs.
  exact (restore_step_overwrites fuel args c p backed_up w6 w7 Hc Hk HS Ht Hne Hbak Hlive Hr).
Qed.

End Claims.

(** ** The download batch *)

Lemma returns_ret {A : Type} (a : A) : returns (ret a).
Proof. intros w. discriminate. Qed.

Lemma returns_raise {A : Type} (e : exn) : returns (@raise A e).
Proof. intros w. discriminate. Qed.

Lemma returns_logger l t a : returns (logger l t a).
Proof. intros w. discriminate. Qed.

Lemma returns_item {A : Type} key (o : option A) : returns (item key o).
Proof. destruct o; intros w; discriminate. Qed.

Lemma returns_bind {A B : Type} (m : M A) (k : A -> M B) :
  returns m -> (forall a, returns (k a)) -> returns (bind m k).
Proof.
  intros Hm Hk w. unfold bind. specialize (Hm w).
  destruct (m w) as [[a|e|] w1]; simpl in *; [apply Hk | discriminate | congruence].
Qed.

Create HintDb returns.
#[export] Hint Resolve returns_ret returns_raise returns_logger returns_item : returns.
#[export] Hint Extern 2 (returns (bind _ _)) => apply returns_bind; [|intro] : returns.

Section Totality.
Variable E : environment.

Lemma returns_urlopen method u : returns (urlopen E method u).
Proof. intros w. unfold urlopen. destruct (env_internet E _ _ _); discriminate. Qed.

Lemma returns_open_path p : returns (open_path E p).
Proof. intros w. unfold open_path. destruct (Fs.open_wb _ _) as [e|[t f]]; discriminate. Qed.

Lemma returns_transfer conn f : returns (transfer conn f).
Proof. intros w. unfold transfer. destruct (failure conn); discriminate. Qed.

Hint Resolve returns_urlopen returns_open_path returns_transfer : returns.

Lemma returns_download c d f : returns (download E c d f).
Proof. unfold download. destruct c; auto 10 with returns. Qed.

Lemma returns_mod_url spec : returns (mod_url E spec).
Proof. unfold mod_url. auto 10 with returns. Qed.

Lemma returns_download_mod spec dest bl : returns (download_mod E spec dest bl).
Proof.
  unfold download_mod.
  apply returns_bind; [apply returns_logger|]. intros _.
  apply returns_bind; [apply returns_mod_url|]. intros u.
  apply returns_bind; [apply returns_urlopen|]. intros conn.
  destruct (excluded E _ bl); auto using returns_download with returns.
Qed.

Lemma sound_nth (l : futures) i f : Forall sound l -> nth_error l i = Some f -> sound f.
Proof. intros H Hi. apply nth_error_In in Hi. rewrite Forall_forall in H. auto. Qed.

Lemma sound_set_nth i f (l : futures) :
  sound f -> Forall sound l -> Forall sound (set_nth i f l).
Proof.
  revert i; induction l as [|g l IH]; intros [|i] Hf Hl; simpl; auto;
    inversion Hl; subst; constructor; auto.
Qed.

Lemma sound_start_first (l : futures) : Forall sound l -> Forall sound (start_first l).
Proof.
  induction l as [|f l IH]; simpl; auto. intros H. inversion H; subst.
  destruct f; constructor; auto.
Qed.

Lemma sound_worker_start n (l : futures) : Forall sound l -> Forall sound (worker_start n l).
Proof. unfold worker_start. destruct (_ <? _); auto using sound_start_first. Qed.

Lemma sound_worker_finish i (l : futures) w :
  Forall sound l -> Forall sound (fst (worker_finish i l w)).
Proof.
  unfold worker_finish. intros Hl.
  destruct (nth_error l i) as [[t|t|s r|]|] eqn:Hi; simpl; auto.
  pose proof (sound_nth l i _ Hl Hi w) as Ht.
  destruct (t w) as [r w']. simpl in *. apply sound_set_nth; auto.
Qed.

Lemma sound_cancel_all (l : futures) : Forall sound l -> Forall sound (cancel_all l).
Proof.
  unfold cancel_all. induction 1 as [|f l Hf Hl IH]; simpl; constructor; auto.
  destruct f; simpl; auto.
Qed.

Lemma sound_observe r (l : futures) w :
  r <> OutOfFuel -> Forall sound l ->
  fst (fst (observe r l w)) <> OutOfFuel /\ Forall sound (snd (fst (observe r l w))).
Proof.
  intros Hr Hl. unfold observe. destruct r as [v|e|]; simpl.
  - split; [discriminate | assumption].
  - split; [discriminate | now apply sound_cancel_all].
  - congruence.
Qed.

Lemma collect_rest_returns n : forall i (l : futures) w,
  Forall sound l -> fst (fst (collect_rest n i l w)) <> OutOfFuel.
Proof.
  induction n as [|n IH]; intros i l w Hl; cbn [collect_rest]; [discriminate|].
  assert (Hstep : forall l1 w1, Forall sound l1 ->
            fst (fst (match nth_error l1 i with
                      | Some (Finished false r) =>
                          match observe r (set_nth i (Finished true r) l1) w1 with
                          | (Ok _, l2, w2) => collect_rest n (S i) l2 w2
                          | (err, l2, w2) => let '(l3, w3) := settle l2 w2 in (err, l3, w3)
                          end
                      | _ => collect_rest n (S i) l1 w1
                      end)) <> OutOfFuel).
  { intros l1 w1 H1.
    destruct (nth_error l1 i) as [[t|t|[|] r|]|] eqn:Hi; try (now apply IH).
    pose proof (sound_nth l1 i _ H1 Hi) as Hr. simpl in Hr.
    destruct (sound_observe r (set_nth i (Finished true r) l1) w1 Hr) as [Ho Hs].
    { apply sound_set_nth; auto. }
    destruct (observe r (set_nth i (Finished true r) l1) w1) as [[r2 l2] w2].
    simpl in Ho, Hs. destruct r2 as [v|e|]; [now apply IH| |congruence].
    destruct (settle l2 w2). discriminate. }
  destruct (nth_error l i) as [[t|t|s r|]|] eqn:Hi; try (now apply Hstep).
  - pose proof (sound_nth l i _ Hl Hi w) as Ht.
    destruct (t w) as [r w']. apply Hstep. apply sound_set_nth; auto.
  - pose proof (sound_nth l i _ Hl Hi w) as Ht.
    destruct (t w) as [r w']. apply Hstep. apply sound_set_nth; auto.
Qed.

Lemma collect_returns n sched : forall (l : futures) w,
  Forall sound l -> fst (fst (collect n sched l w)) <> OutOfFuel.
Proof.
  induction sched as [|[|i|i] sched IH]; intros l w Hl; cbn [collect].
  - now apply collect_rest_returns.
  - apply IH. now apply sound_worker_start.
  - pose proof (sound_worker_finish i l w Hl) as H1.
    destruct (worker_finish i l w) as [l1 w1]. now apply IH.
  - destruct (nth_error l i) as [[t|t|[|] r|]|] eqn:Hi; try (now apply IH).
    pose proof (sound_nth l i _ Hl Hi) as Hr. simpl in Hr.
    destruct (sound_observe r (set_nth i (Finished true r) l) w Hr) as [Ho Hs].
    { apply sound_set_nth; auto. }
    destruct (observe r (set_nth i (Finished true r) l) w) as [[r2 l2] w2].
    simpl in Ho, Hs. destruct r2 as [v|e|]; [now apply IH| |congruence].
    destruct (shutdown n sched l2 w2). discriminate.
Qed.

Lemma sound_submitted (mods : list mod_spec) (store : PurePath.t) (bl : option (list string)) :
  Forall sound (map (fun spec => Pending (download_mod E spec store bl)) mods).
Proof.
  induction mods as [|s mods IH]; simpl; constructor; auto.
  simpl. apply returns_download_mod.
Qed.

Lemma submit_bonus_sound (bonus : list direct_entry) (store : PurePath.t) :
  forall (l : futures) (w : world),
    Forall sound l ->
    fst (fst (submit_bonus E bonus store l w)) <> OutOfFuel
    /\ Forall sound (snd (fst (submit_bonus E bonus store l w))).
Proof.
  induction bonus as [|entry bonus IH]; intros l w Hl; cbn [submit_bonus].
  - split; [discriminate | assumption].
  - assert (Hw : logger_kw WARNING "Error while handling entry {}" [AEntry entry] ["file"] w
                 = (Raise (TypeError "_log() got an unexpected keyword argument"), w))
      by reflexivity.
    destruct (url entry) as [u|], (filename entry) as [f|];
      try (rewrite Hw; split; [discriminate | assumption]).
    apply IH. apply Forall_app. split; [assumption|]. constructor; [|constructor].
    simpl. apply returns_bind; [apply returns_download | intros p; apply returns_ret].
Qed.

(** The block of the downloads always comes back. *)
Lemma returns_download_phase args m store bl : returns (download_phase E args m store bl).
Proof.
  intros w. unfold download_phase.
  destruct (threads args <=? 0)%Z; [discriminate|].
  destruct (files m) as [mods|]; [|discriminate].
  destruct (submit_bonus_sound (match directDownload m with Some b => b | None => [] end)
              store _ w (sound_submitted mods store bl)) as [Hr Hs].
  destruct (submit_bonus _ _ _ _ w) as [[r l1] w1]. simpl in Hr, Hs.
  destruct r as [v|e|]; [| |congruence].
  - pose proof (collect_returns (Z.to_nat (threads args)) (env_schedule E) l1 w1 Hs) as Hc.
    destruct (collect _ _ l1 w1) as [[r2 l2] w2]. simpl in Hc.
    destruct r2; [discriminate | discriminate | congruence].
  - destruct (shutdown _ _ l1 w1). discriminate.
Qed.

End Totality.

Section Batch.
Variable E : environment.

Lemma live_app (l1 l2 : futures) :
  forallb live l1 = true -> forallb live l2 = true -> forallb live (l1 ++ l2) = true.
Proof. intros H1 H2. rewrite forallb_app, H1, H2. reflexivity. Qed.

Lemma live_submitted (mods : list mod_spec) (store : PurePath.t) (bl : option (list string)) :
  forallb live (map (fun spec => Pending (download_mod E spec store bl)) mods) = true.
Proof. induction mods as [|s mods IH]; simpl; auto. Qed.

Lemma submit_bonus_live (bonus : list direct_entry) (store : PurePath.t) :
  forall (l : futures) (w : world) r l1 w1,
    forallb live l = true ->
    submit_bonus E bonus store l w = (r, l1, w1) ->
    forallb live l1 = true.
Proof.
  induction bonus as [|entry bonus IH]; intros l w r l1 w1 Hl; cbn [submit_bonus].
  - intros [= _ <- _]. exact Hl.
  - destruct (url entry) as [u|], (filename entry) as [f|].
    + apply IH. apply live_app; auto.
    + destruct (logger_kw _ _ _ _ w) as [[| |] w2]; [apply IH; auto| |]; now intros [= _ <- _].
    + destruct (logger_kw _ _ _ _ w) as [[| |] w2]; [apply IH; auto| |]; now intros [= _ <- _].
    + destruct (logger_kw _ _ _ _ w) as [[| |] w2]; [apply IH; auto| |]; now intros [= _ <- _].
Qed.

(** The block of the downloads ends as its loop does. *)
Lemma download_phase_raises (args : arguments) (m : manifest) (store : PurePath.t)
    (bl : option (list string)) (mods : list mod_spec) (w : world) l1 w1 e l2 w2 :
  (0 < threads args)%Z -> files m = Some mods ->
  submit_bonus E (match directDownload m with Some b => b | None => [] end) store
    (map (fun spec => Pending (download_mod E spec store bl)) mods) w = (Ok tt, l1, w1) ->
  collect (Z.to_nat (threads args)) (env_schedule E) l1 w1 = (Raise e, l2, w2) ->
  download_phase E args m store bl w = (Raise e, w2).
Proof.
  intros Hn Hm Hs Hc. unfold download_phase.
  destruct (Z.leb_spec (threads args) 0) as [H|_]; [lia|].
  rewrite Hm, Hs, Hc. reflexivity.
Qed.


End Batch.

Import Fs.

Lemma example_spawn_keeps_dirs (m : manifest) (sched : list event) :
  spawn_keeps_dirs (Example.env m sched).
Proof.
  intros argv dir t rc t'. simpl. unfold Example.spawn.
  destruct argv as [|a1 [|a2 [|a3 [|a4 [|a5 rest]]]]]; try discriminate.
  destruct (_ && _); [|discriminate].
  destruct (open_wb t _) as [e|[t1 f]] eqn:Ho; intros [= _ <-].
  - apply Persist.dirs_persist_refl.
  - apply Persist.dirs_persist_trans with (t2 := t1).
    + exact (Persist.open_wb_keeps _ _ _ _ Ho).
    + apply Persist.write_keeps.
Qed.

Section Run.
Variable E : environment.
Hypothesis spawn_ok : spawn_keeps_dirs E.

End Run.

(** ** Runs of the examples *)

(** The warning of line 172 is a [TypeError]: the loop stops at the first
    entry that lacks [url] or [filename]. *)
Lemma warning_raises (E : environment) (entry : direct_entry) (bonus : list direct_entry)
    (store : PurePath.t) (l : futures) (w : world) :
  url entry = None \/ filename entry = None ->
  submit_bonus E (entry :: bonus) store l w
  = (Raise (TypeError "_log() got an unexpected keyword argument"), l, w).
Proof.
  intros H. cbn [submit_bonus].
  destruct (url entry) as [u|], (filename entry) as [f|]; try reflexivity.
  destruct H; discriminate.
Qed.

(** C7 (refuted on the code): [logging.warning] gets the keyword [file],
    which [Logger._log] does not take.  With a direct download that has
    neither [url] nor [filename], followed by a good one, the run ends
    with a [TypeError]; no warning is logged, the good entry is never
    submitted, the mods submitted before still download, and the
    installation is not updated. *)
Theorem malformed_entry_aborts_run :
  let '(r, w) := run (Example.env Example.pack_malformed []) 100
                   (Example.args true false) Example.tmp Example.start in
  r = Raise (TypeError "_log() got an unexpected keyword argument")
  /\ existsb is_warning (log w) = false
  /\ lookup (fs w) ["tmp"; "tmpa1b2"; "mod_store"; "alpha-1.0.jar"] = Some (File "alpha")
  /\ lookup (fs w) ["tmp"; "tmpa1b2"; "mod_store"; "extra.jar"] = None
  /\ lookup (fs w) ["srv"; "mc"] = lookup Example.disk ["srv"; "mc"].
Proof. vm_compute. repeat split. Qed.

(** C5 (refuted on the code): line 57 joins the file name of a direct
    download to the store with [/], and an absolute name replaces the
    store.  With a direct download named [/srv/mc/mods/old.jar], followed
    by one that is not found, the run ends with the [HTTPError] of the
    download phase, before any backup, and the mod of the installation
    holds what was downloaded. *)
Theorem failed_download_reaches_installation :
  let '(r, w) := run (Example.env Example.pack_misplaced []) 100
                   (Example.args true false) Example.tmp Example.start in
  r = Raise (HTTPError 404 "http://example.org/gone.jar")
  /\ PurePath.join (PurePath.parse "/tmp/tmpa1b2/mod_store")
       (PurePath.parse "/srv/mc/mods/old.jar")
     = PurePath.parse "/srv/mc/mods/old.jar"
  /\ lookup Example.disk ["srv"; "mc"; "mods"; "old.jar"] = Some (File "old")
  /\ lookup (fs w) ["srv"; "mc"; "mods"; "old.jar"] = Some (File "extra")
  /\ lookup (fs w) ["srv"; "mc"; "mods.bak"] = None.
Proof. vm_compute. repeat split. Qed.

(** C1, as the specification states it, fails: with [keep_config], a
    configuration file of the user and an overrides root that supplies the
    same file, the run ends with the content of the backup in [config],
    not with the content of the overrides. *)
Lemma restore_clobbers_overrides :
  let '(r, w) := run (Example.env Example.pack []) 100
                   (Example.args true true) Example.tmp Example.start in
  r = Ok tt
  /\ keep_config (Example.args true true) = true
  /\ lookup (fs w) ["tmp"; "tmpa1b2"; "overrides"; "config"; "settings.cfg"]
     = Some (File "difficulty=pack")
  /\ lookup (fs w) ["srv"; "mc"; "config.bak"; "settings.cfg"] = Some (File "difficulty=user")
  /\ lookup (fs w) ["srv"; "mc"; "config"; "settings.cfg"] = Some (File "difficulty=user")
  /\ lookup (fs w) ["srv"; "mc"; "config"; "settings.cfg"] <> Some (File "difficulty=pack").
Proof. vm_compute. repeat split. discriminate. Qed.

(** C2, as the specification states it, fails: after the second backup
    step the backup of [mods] is an empty directory; the mod that the
    first step had moved there is gone. *)
Lemma second_backup_loses_originals :
  let E := Example.env Example.pack [] in
  let base := PurePath.parse "/srv/mc" in
  let '(r1, w1) := backup_step E base Example.start in
  let '(r2, w2) := backup_step E base w1 in
  r1 = Ok (PurePath.parse "/srv/mc/config.bak")
  /\ r2 = Ok (PurePath.parse "/srv/mc/config.bak")
  /\ lookup Example.disk ["srv"; "mc"; "mods"; "old.jar"] = Some (File "old")
  /\ lookup (fs w1) ["srv"; "mc"; "mods.bak"; "old.jar"] = Some (File "old")
  /\ lookup (fs w2) ["srv"; "mc"; "mods.bak"] = Some (Dir [])
  /\ lookup (fs w2) ["srv"; "mc"; "mods"] = Some (Dir [])
  /\ lookup (fs w2) ["srv"; "mc"; "config.bak"] = Some (Dir [])
  /\ lookup (fs w2) ["srv"; "mc"; "config"] = Some (Dir []).
Proof. vm_compute. repeat split. Qed.


(** ** The theorems at the examples *)

Lemma backup_twice_empties_witness :
  exists w2,
    lookup (fs w2) ["srv"; "mc"; "mods"] = Some (Dir [])
    /\ lookup (fs w2) ["srv"; "mc"; "config"] = Some (Dir [])
    /\ lookup (fs w2) ["srv"; "mc"; "mods.bak"] = Some (Dir [])
    /\ lookup (fs w2) ["srv"; "mc"; "config.bak"] = Some (Dir []).
Proof.
  pose (E := Example.env Example.pack []).
  let r1 := eval vm_compute in (backup_step E ("/" :: ["srv"; "mc"]) Example.start) in
  lazymatch r1 with
  | (Ok ?b1, ?w1) =>
      let r2 := eval vm_compute in (backup_step E ("/" :: ["srv"; "mc"]) w1) in
      lazymatch r2 with
      | (Ok ?b2, ?w2) =>
          exists w2;
          apply (backup_twice_empties E ["srv"; "mc"] Example.start w1 w2 b1 b2);
          vm_compute; reflexivity
      end
  end.
Defined.


Lemma excluded_mod_not_stored_witness :
  exists w',
    download_mod (Example.env Example.pack []) (Example.spec "2" "20")
      (PurePath.parse "/tmp/tmpa1b2/mod_store") (Some ["*-dev.jar"]) Example.start
    = (Ok None, w')
    /\ fs w' = fs Example.start
    /\ filter is_body (net w') = filter is_body (net Example.start).
Proof.
  pose (E := Example.env Example.pack []).
  pose (s := Example.spec "2" "20").
  let r := eval vm_compute in
    (mod_url E s (add_log Example.start {| log_level := DEBUG; log_template := "Starting mod {}";
                                            log_args := [ASpec s] |})) in
  lazymatch r with
  | (Ok ?u, ?w1) =>
      let r2 := eval vm_compute in (urlopen E "GET" u w1) in
      lazymatch r2 with
      | (Ok ?conn, ?w2) =>
          apply (proj2 (excluded_mod_not_stored E s (PurePath.parse "/tmp/tmpa1b2/mod_store")
                          (Some ["*-dev.jar"]) Example.start w1 w2 u conn));
          vm_compute; reflexivity
      end
  end.
Defined.

Lemma recursion_always_overrides_witness :
  exists w',
    copytree 5 ["new"] ["old"] false Example.two_trees = (Ok tt, w')
    /\ lookup (fs w') ["old"; "top.cfg"] = Some (File "old top")
    /\ lookup (fs w') (["old"] ++ ["sub"; "deep.cfg"]) = Some (File "new deep").
Proof.
  let r := eval vm_compute in (copytree 5 ["new"] ["old"] false Example.two_trees) in
  lazymatch r with
  | (_, ?w') =>
      exists w'; split; [vm_compute; reflexivity|]; split; [vm_compute; reflexivity|];
      apply (proj2 (proj2 recursion_always_overrides)
               5 ["new"] ["old"] Example.two_trees w' ["sub"; "deep.cfg"] "new deep");
      try (vm_compute; reflexivity);
      exists (Dir [("top.cfg", File "new top"); ("sub", Dir [("deep.cfg", File "new deep")])]);
      split; vm_compute; reflexivity
  end.
Defined.

Lemma restore_overwrites_overrides_witness :
  exists w',
    run (Example.env Example.pack []) 100 (Example.args true true) Example.tmp Example.start
    = (Ok tt, w')
    /\ lookup (fs w') ((["srv"; "mc"] ++ ["config"]) ++ ["settings.cfg"])
       = Some (File "difficulty=user").
Proof.
  pose (E := Example.env Example.pack []).
  pose (a := Example.args true true).
  let r := eval vm_compute in (prepare E a (PurePath.parse Example.tmp) Example.start) in
  lazymatch r with
  | (Ok (_, ?mp, ?m, ?bl), ?w1) =>
      let r2 := eval vm_compute in (fetch E a m (PurePath.parse Example.tmp) bl w1) in
      lazymatch r2 with
      | (Ok ?store, ?w2) =>
          let r3 := eval vm_compute in (run E 100 a Example.tmp Example.start) in
          lazymatch r3 with
          | (_, ?w') =>
              exists w'; split; [vm_compute; reflexivity|];
              assert (Hp : prepare E a (PurePath.parse Example.tmp) Example.start
                           = (Ok ("/" :: ["srv"; "mc"], mp, m, bl), w1))
                by (vm_compute; reflexivity);
              assert (Hf : fetch E a m (PurePath.parse Example.tmp) bl w1 = (Ok store, w2))
                by (vm_compute; reflexivity);
              assert (Hrun : run E 100 a Example.tmp Example.start = (Ok tt, w'))
                by (vm_compute; reflexivity);
              pose proof (restore_overwrites_overrides E 100 a Example.tmp ["srv"; "mc"] mp m bl
                          store Example.start w1 w2 w' eq_refl eq_refl Hp Hf Hrun) as HH
          end
      end
  end.
  destruct HH as (w3 & w6 & w7 & Hb & Hmid & _ & _ & Hfinal).
  vm_compute in Hb.
  injection Hb as Hb. subst w3.
  vm_compute in Hmid.
  injection Hmid as Hmid. subst w6.
  apply Hfinal.
  - exists (Dir [("settings.cfg", File "difficulty=user")]). split; vm_compute; reflexivity.
  - vm_compute; reflexivity.
  - discriminate.
  - vm_compute; reflexivity.
  - vm_compute; reflexivity.
Defined.


(** * Further properties of the script *)

Import Fs FsFacts FsCalls Tidy Merge MergeTree Overwrite Persist.

(** ** The selection of the overrides *)

Lemma compare_prefix (p root : PurePath.t) :
  PurePath.prefixb p root = true -> PurePath.gtb p root = false.
Proof.
  unfold PurePath.gtb. revert root.
  induction p as [|x p IH]; intros [|y root]; simpl; try discriminate; try reflexivity.
  rewrite andb_true_iff. intros [Hxy Hp]. apply String.eqb_eq in Hxy. subst y.
  rewrite string_compare_refl. now apply IH.
Qed.

(** X1: line 217 selects every entry of the archive that lies below the
    overrides root, and never the root itself nor a directory above it. *)
Theorem overrides_selection (names : list string) (root : PurePath.t) (entry : string) :
  (In entry names ->
   PurePath.is_under root (PurePath.parse entry) = true ->
   In entry (select_overrides names root))
  /\ (In entry (select_overrides names root) ->
      In entry names /\ PurePath.prefixb (PurePath.parse entry) root = false).
Proof.
  split.
  - intros Hin Hu. unfold select_overrides. apply filter_In. split; [exact Hin|].
    now apply under_is_greater.
  - unfold select_overrides. rewrite filter_In. intros [Hin Hg]. split; [exact Hin|].
    destruct (PurePath.prefixb (PurePath.parse entry) root) eqn:Hp; [|reflexivity].
    rewrite (compare_prefix _ _ Hp) in Hg. discriminate.
Qed.

Lemma overrides_selection_witness :
  In "overrides/config/settings.cfg"
    (select_overrides ["manifest.json"; "overrides/"; "overrides/config/settings.cfg"]
       (PurePath.parse "overrides"))
  /\ PurePath.prefixb (PurePath.parse "overrides/config/settings.cfg")
       (PurePath.parse "overrides") = false.
Proof.
  pose (names := ["manifest.json"; "overrides/"; "overrides/config/settings.cfg"]).
  pose (H := overrides_selection names (PurePath.parse "overrides")
               "overrides/config/settings.cfg").
  assert (Hin : In "overrides/config/settings.cfg" (select_overrides names (PurePath.parse "overrides"))).
  { apply (proj1 H); [right; right; left; reflexivity | vm_compute; reflexivity]. }
  split; [exact Hin | exact (proj2 (proj2 H Hin))].
Defined.

(** ** The recursive copy *)

(** X2: [copytree] removes no directory, whatever its arguments and
    whether it completes or fails. *)
Theorem copytree_keeps_directories (fuel : nat) (src dst : ospath) (ov : bool)
    (w w' : world) (r : outcome unit) (p : list string) :
  copytree fuel src dst ov w = (r, w') ->
  is_dir (lookup (fs w) p) = true ->
  is_dir (lookup (fs w') p) = true.
Proof. intros Hrun. exact (keeps_copytree fuel src dst ov w r w' Hrun p). Qed.

Lemma copytree_keeps_directories_witness :
  exists r w',
    copytree 5 ["new"] ["old"] false Example.two_trees = (r, w')
    /\ is_dir (lookup (fs w') ["old"; "sub"]) = true.
Proof.
  let x := eval vm_compute in (copytree 5 ["new"] ["old"] false Example.two_trees) in
  lazymatch x with
  | (?r, ?w') =>
      exists r, w'; split; [vm_compute; reflexivity|];
      apply (copytree_keeps_directories 5 ["new"] ["old"] false Example.two_trees w' r
               ["old"; "sub"]); vm_compute; reflexivity
  end.
Defined.

(** X3: a copy of a tree of regular files and directories that completes
    changes nothing outside its destination; the source is as it was. *)
Theorem copytree_frame (fuel : nat) (src dst : list string) (ov : bool)
    (w w' : world) (q : list string) :
  plain src = true ->
  (exists S, lookup (fs w) src = Some S /\ tidy S = true) ->
  located (fs w) dst = true ->
  tidy_at (lookup (fs w) dst) = true ->
  apart src dst = true ->
  copytree fuel src dst ov w = (Ok tt, w') ->
  (apart dst q = true -> lookup (fs w') q = lookup (fs w) q)
  /\ lookup (fs w') src = lookup (fs w) src.
Proof.
  intros Hps Hs Hd Hdt Hap Hrun.
  destruct (copytree_merges fuel src dst ov w w' Hps Hs Hd Hdt Hap Hrun) as (D' & -> & _).
  split.
  - intros Hq. now apply update_apart.
  - apply update_apart. now rewrite apart_sym.
Qed.

Lemma copytree_frame_witness :
  exists w',
    copytree 5 ["new"] ["old"] false Example.two_trees = (Ok tt, w')
    /\ lookup (fs w') ["new"] = lookup (fs Example.two_trees) ["new"].
Proof.
  let x := eval vm_compute in (copytree 5 ["new"] ["old"] false Example.two_trees) in
  lazymatch x with
  | (_, ?w') =>
      exists w'; split; [vm_compute; reflexivity|];
      apply (copytree_frame 5 ["new"] ["old"] false Example.two_trees w' ["new"]);
      try (vm_compute; reflexivity);
      exists (Dir [("top.cfg", File "new top"); ("sub", Dir [("deep.cfg", File "new deep")])]);
      split; vm_compute; reflexivity
  end.
Defined.

(** ** Sources and overrides that are not there *)

Lemma listdir_missing fs p :
  located fs p = true -> lookup fs p = None -> listdir fs p = inl ENOENT.
Proof.
  intros Hl Hn. unfold listdir. rewrite stat_located, Hn; auto. now rewrite Hn.
Qed.

(** X4: [copytree] looks at its destination first (lines 118-119) and at
    its source after that (line 120): when the source does not exist, the
    copy fails with ENOENT, and a destination that did not exist has been
    created as an empty directory by then. *)
Theorem copytree_missing_source (fuel : nat) (src dst : list string) (ov : bool)
    (w : world) :
  located (fs w) src = true -> lookup (fs w) src = None ->
  located (fs w) dst = true -> not_link (lookup (fs w) dst) = true ->
  dst <> [] -> apart src dst = true ->
  copytree (S fuel) src dst ov w
  = (Raise (OSError ENOENT),
     if is_some (lookup (fs w) dst) then w
     else set_fs w (update (fs w) dst (Some (Dir [])))).
Proof.
  intros Hs Hsn Hd Hdl Hne Hap. cbn [copytree].
  unfold bind at 1. unfold test at 1. rewrite exists_located by assumption.
  destruct (lookup (fs w) dst) as [D|] eqn:HD; cbv beta iota delta [is_some].
  - unfold bind at 1. unfold ret at 1. unfold bind at 1. unfold ask at 1.
    rewrite listdir_missing by assumption. reflexivity.
  - unfold bind at 1. rewrite makedirs_child by assumption.
    unfold sys at 1. rewrite mkdir_located, HD by assumption.
    unfold bind at 1. unfold ask at 1. rewrite fs_set_fs.
    rewrite listdir_missing; [reflexivity| |].
    + unfold located, parent_dir in *. apply andb_true_iff in Hs as [Hp Hpar].
      apply andb_true_iff. split; [exact Hp|].
      apply (update_keeps_dirs (fs w) dst (Some (Dir []))); [now rewrite HD | exact Hpar].
    + rewrite update_apart; [exact Hsn | now rewrite apart_sym].
Qed.

Lemma copytree_missing_source_witness :
  copytree 1 ["nowhere"] ["old"] true Example.two_trees
  = (Raise (OSError ENOENT), Example.two_trees)
  /\ copytree 1 ["nowhere"] ["fresh"] true Example.two_trees
     = (Raise (OSError ENOENT),
        set_fs Example.two_trees (update (fs Example.two_trees) ["fresh"] (Some (Dir [])))).
Proof.
  split.
  - apply (copytree_missing_source 0 ["nowhere"] ["old"] true Example.two_trees);
      first [vm_compute; reflexivity | discriminate].
  - apply (copytree_missing_source 0 ["nowhere"] ["fresh"] true Example.two_trees);
      first [vm_compute; reflexivity | discriminate].
Defined.

Section Overrides.
Variable E : environment.

(** X5: when the manifest names an overrides root and line 217 selects no
    entry, nothing is extracted, and the copy of line 219 fails with
    ENOENT on the root that is not there: the run stops at this step and
    leaves the files as the installation of the mods left them. *)
Theorem overrides_without_entries (fuel : nat) (m : manifest) (modpack : zipfile)
    (tmp_dir base_dir : PurePath.t) (o : string) (w : world) :
  overrides m = Some o ->
  select_overrides (namelist modpack) (PurePath.parse o) = [] ->
  located (fs w) (os E (PurePath.join tmp_dir (PurePath.parse o))) = true ->
  lookup (fs w) (os E (PurePath.join tmp_dir (PurePath.parse o))) = None ->
  located (fs w) (os E base_dir) = true ->
  is_dir (lookup (fs w) (os E base_dir)) = true ->
  apply_overrides E (S fuel) m modpack tmp_dir base_dir w = (Raise (OSError ENOENT), w).
Proof.
  intros Ho Hsel Hs Hsn Hd Hdd. unfold apply_overrides. rewrite Ho, Hsel.
  unfold extractall. cbn [for_each]. unfold bind at 1. unfold ret at 1.
  destruct (lookup (fs w) (os E base_dir)) as [[|ds|]|] eqn:HD; try discriminate.
  cbn [copytree].
  unfold bind at 1. unfold test at 1. rewrite exists_located, HD by (auto; now rewrite HD).
  cbv beta iota delta [is_some].
  unfold bind at 1. unfold ret at 1. unfold bind at 1. unfold ask at 1.
  rewrite listdir_missing by assumption. reflexivity.
Qed.
End Overrides.

Lemma overrides_without_entries_witness :
  apply_overrides (Example.env Example.pack []) 1 Example.pack
    [("manifest.json", "manifest"); ("modlist.html", "")]
    (PurePath.parse "/tmp/tmpa1b2") (PurePath.parse "/srv/mc") Example.start
  = (Raise (OSError ENOENT), Example.start).
Proof.
  apply (overrides_without_entries (Example.env Example.pack []) 0 Example.pack
           [("manifest.json", "manifest"); ("modlist.html", "")]
           (PurePath.parse "/tmp/tmpa1b2") (PurePath.parse "/srv/mc") "overrides"
           Example.start); vm_compute; reflexivity.
Defined.

(** ** What a download stores *)

Section Downloads.
Variable E : environment.

Lemma located_parent fs p : located fs p = true -> p <> [] -> parent_dir fs p = true.
Proof. unfold located. intros H _. apply andb_true_iff in H. tauto. Qed.

(** What [download] does once it has the connection. *)
Lemma open_path_new (q : PurePath.t) (w : world) :
  located (fs w) (os E q) = true ->
  is_dir (lookup (fs w) (os E q)) = false -> not_link (lookup (fs w) (os E q)) = true ->
  open_path E q w = (Ok (os E q), set_fs w (update (fs w) (os E q) (Some (File "")))).
Proof.
  intros Hl Hd Hnl. unfold open_path. rewrite open_wb_located by assumption.
  destruct (lookup (fs w) (os E q)) as [[d|es|t]|]; try discriminate; reflexivity.
Qed.

Lemma transfer_new (conn : response) (p : list string) (w : world) (t : node) :
  located t p = true -> p <> [] ->
  transfer conn p (set_fs w (update t p (Some (File ""))))
  = (match failure conn with Some e => Raise e | None => Ok tt end,
     set_fs (add_net w (Body (resp_url conn))) (update t p (Some (File (payload conn))))).
Proof.
  intros Hl Hne. unfold transfer. rewrite fs_set_fs. rewrite store_file by assumption.
  destruct (failure conn); reflexivity.
Qed.

Lemma stored (conn : response) (dest_dir : PurePath.t) (filename : option string)
    (w : world) :
  let p := os E (target dest_dir conn filename) in
  located (fs w) p = true -> p <> [] ->
  is_dir (lookup (fs w) p) = false -> not_link (lookup (fs w) p) = true ->
  exists w',
    download E (inr conn) dest_dir filename w
    = (match failure conn with
       | None => Ok (target dest_dir conn filename)
       | Some e => Raise e
       end, w')
    /\ fs w' = update (fs w) p (Some (File (payload conn)))
    /\ net w' = net w ++ [Body (resp_url conn)].
Proof.
  intros p Hl Hne Hd Hnl. unfold download.
  unfold bind at 1. unfold ret at 1.
  unfold bind at 1. unfold logger at 1.
  unfold bind at 1. fold (target dest_dir conn filename).
  rewrite open_path_new by assumption.
  unfold bind at 1. rewrite transfer_new by assumption.
  destruct (failure conn) as [e|].
  - eexists. split; [reflexivity|]. split; reflexivity.
  - unfold bind at 1. unfold logger at 1. unfold ret at 1.
    eexists. split; [reflexivity|]. split; reflexivity.
Qed.

Lemma download_url (u : string) (conn : response) (dest_dir : PurePath.t)
    (filename : option string) (w : world) :
  env_internet E (net w) "GET" u = inr conn ->
  download E (inl u) dest_dir filename w
  = download E (inr conn) dest_dir filename (add_net w (Request "GET" u)).
Proof.
  intros H. unfold download. unfold bind at 1. unfold urlopen. rewrite H.
  symmetry. unfold bind at 1. unfold ret at 1. reflexivity.
Qed.

(** X6: [download] of a URL makes one GET request and writes the body it
    reads to [dest_dir / filename], where [filename] defaults to the name
    of the URL after the redirections; a file that was there is replaced.
    When reading the body fails, the exception is the result and the file
    holds what was read before. Nothing else in the tree changes. *)
Theorem download_stores_body (u : string) (conn : response) (dest_dir : PurePath.t)
    (filename : option string) (w : world) :
  let p := os E (target dest_dir conn filename) in
  env_internet E (net w) "GET" u = inr conn ->
  located (fs w) p = true -> p <> [] ->
  is_dir (lookup (fs w) p) = false -> not_link (lookup (fs w) p) = true ->
  exists w',
    download E (inl u) dest_dir filename w
    = (match failure conn with
       | None => Ok (target dest_dir conn filename)
       | Some e => Raise e
       end, w')
    /\ lookup (fs w') p = Some (File (payload conn))
    /\ (forall q, apart p q = true -> lookup (fs w') q = lookup (fs w) q)
    /\ net w' = net w ++ [Request "GET" u; Body (resp_url conn)].
Proof.
  intros p Hnet Hl Hne Hd Hnl.
  destruct (stored conn dest_dir filename (add_net w (Request "GET" u)) Hl Hne Hd Hnl)
    as (w' & Hrun & Hfs & Hn).
  exists w'. split; [|split; [|split]].
  - rewrite (download_url u conn dest_dir filename w Hnet). exact Hrun.
  - rewrite Hfs. apply update_same; [assumption | now apply located_parent].
  - intros q Hq. rewrite Hfs. now apply update_apart.
  - rewrite Hn. cbn [net add_net]. rewrite <- app_assoc. reflexivity.
Qed.

(** X7: a mod that is not excluded is stored under the name of the URL
    its download redirects to; the result of [download_mod] is that path,
    and the file holds the body. *)
Theorem download_mod_stores (spec : mod_spec) (dest : PurePath.t)
    (B : option (list string)) (w w1 w2 : world) (u : string) (conn : response) :
  let filename := PurePath.name (PurePath.parse (resp_url conn)) in
  let p := os E (PurePath.join dest (PurePath.parse filename)) in
  mod_url E spec (add_log w {| log_level := DEBUG; log_template := "Starting mod {}";
                               log_args := [ASpec spec] |}) = (Ok u, w1) ->
  urlopen E "GET" u w1 = (Ok conn, w2) ->
  excluded E filename B = false ->
  failure conn = None ->
  located (fs w2) p = true -> p <> [] ->
  is_dir (lookup (fs w2) p) = false -> not_link (lookup (fs w2) p) = true ->
  exists w',
    download_mod E spec dest B w
    = (Ok (Some (PurePath.join dest (PurePath.parse filename))), w')
    /\ lookup (fs w') p = Some (File (payload conn)).
Proof.
  intros filename p Hurl Hopen Hex Hok Hl Hne Hd Hnl.
  destruct (stored conn dest (Some filename) w2 Hl Hne Hd Hnl) as (w' & Hrun & Hfs & _).
  rewrite Hok in Hrun. exists w'. split.
  - unfold download_mod. unfold bind at 1. unfold logger at 1.
    unfold bind at 1. rewrite Hurl.
    unfold bind at 1. rewrite Hopen. fold filename. rewrite Hex.
    unfold bind at 1. rewrite Hrun. reflexivity.
  - rewrite Hfs. apply update_same; [assumption | now apply located_parent].
Qed.

End Downloads.

(** ** The manifest, the backup and the flags *)

Section Manifest.
Variable E : environment.

(** X8: when every direct download has a [url] and a [filename], the loop
    of lines 169-174 submits one task for each, in the order of the
    manifest and after the tasks of the mods, and logs nothing. *)
Theorem direct_downloads_submitted (bonus : list direct_entry) (store : PurePath.t) :
  forall (l : futures) (w : world),
    forallb complete bonus = true ->
    submit_bonus E bonus store l w = (Ok tt, l ++ bonus_futures E store bonus, w)
    /\ List.length (bonus_futures E store bonus) = List.length bonus.
Proof.
  induction bonus as [|entry bonus IH]; intros l w Hc.
  - simpl. rewrite app_nil_r. auto.
  - cbn [forallb] in Hc. apply andb_true_iff in Hc as [He Hc].
    cbn [submit_bonus bonus_futures flat_map]. unfold complete in He.
    destruct (url entry) as [u|]; [|discriminate].
    destruct (filename entry) as [f|]; [|discriminate].
    destruct (IH (l ++ [Pending (p <- download E (inl u) store (Some f) ;; ret (Some p))%monad])
                w Hc) as [H1 H2].
    split.
    + rewrite H1. rewrite <- app_assoc. reflexivity.
    + fold (bonus_futures E store bonus). simpl. now rewrite H2.
Qed.

(** X9: with Forge to be updated and a manifest that gives no version of
    Minecraft or no loader whose id starts with [forge-], lines 198-206
    log a warning and go on: no request, no process, no change of the
    files. *)
Theorem forge_step_without_forge (args : arguments) (m : manifest)
    (tmp_dir base_dir : PurePath.t) (w : world) :
  keep_forge args = false ->
  mc_version_of (minecraft m) = None
  \/ mc_version_of (minecraft m) = Some ""
  \/ forge_ids (minecraft m) = [] ->
  exists w',
    forge_step E args m tmp_dir base_dir w = (Ok tt, w')
    /\ fs w' = fs w /\ net w' = net w /\ procs w' = procs w
    /\ log w'
       = log w ++ [{| log_level := WARNING;
                      log_template := "Could not extract Forge informations from the manifest";
                      log_args := [] |};
                   {| log_level := DEBUG;
                      log_template := "minecraft : {}\nmodLoaders : {}";
                      log_args := [AMinecraft (minecraft m); AKey "modLoaders"] |}].
Proof.
  intros Hk H. unfold forge_step. rewrite Hk.
  assert (Hlog : forall w0 : world,
            (logger WARNING "Could not extract Forge informations from the manifest" [] ;;
             logger DEBUG "minecraft : {}\nmodLoaders : {}"
               [AMinecraft (minecraft m); AKey "modLoaders"])%monad w0
            = (Ok tt, add_log (add_log w0
                 {| log_level := WARNING;
                    log_template := "Could not extract Forge informations from the manifest";
                    log_args := [] |})
                 {| log_level := DEBUG;
                    log_template := "minecraft : {}\nmodLoaders : {}";
                    log_args := [AMinecraft (minecraft m); AKey "modLoaders"] |}))
    by reflexivity.
  assert (Hend : forall w0 : world, exists w',
            (Ok tt, add_log (add_log w0
                 {| log_level := WARNING;
                    log_template := "Could not extract Forge informations from the manifest";
                    log_args := [] |})
                 {| log_level := DEBUG;
                    log_template := "minecraft : {}\nmodLoaders : {}";
                    log_args := [AMinecraft (minecraft m); AKey "modLoaders"] |})
            = (Ok tt, w')
            /\ fs w' = fs w0 /\ net w' = net w0 /\ procs w' = procs w0
            /\ log w' = log w0 ++ [{| log_level := WARNING;
                      log_template := "Could not extract Forge informations from the manifest";
                      log_args := [] |};
                   {| log_level := DEBUG;
                      log_template := "minecraft : {}\nmodLoaders : {}";
                      log_args := [AMinecraft (minecraft m); AKey "modLoaders"] |}]).
  { intros w0. eexists. split; [reflexivity|]. repeat split.
    cbn [log add_log]. rewrite <- app_assoc. reflexivity. }
  destruct H as [H|[H|H]].
  - rewrite H. rewrite Hlog. apply Hend.
  - rewrite H. destruct (forge_ids (minecraft m)); cbn [Str.nonempty]; rewrite Hlog; apply Hend.
  - rewrite H. destruct (mc_version_of (minecraft m)); rewrite Hlog; apply Hend.
Qed.

(** X10: one backup step on an installation directory: [mods] and [config]
    are empty directories afterwards; each backup holds what its directory
    held, or is what it was when the directory did not exist; nothing else
    in the tree changes, and the result is the path of [config.bak]. *)
Theorem backup_step_moves (c : list string) (w w' : world) (b : PurePath.t) :
  plain c = true -> is_dir (lookup (fs w) c) = true ->
  backup_step E ("/" :: c) w = (Ok b, w') ->
  b = "/" :: c ++ ["config.bak"]
  /\ lookup (fs w') (c ++ ["mods"]) = Some (Dir [])
  /\ lookup (fs w') (c ++ ["config"]) = Some (Dir [])
  /\ lookup (fs w') (c ++ ["mods.bak"])
     = match lookup (fs w) (c ++ ["mods"]) with
       | Some n => Some n
       | None => lookup (fs w) (c ++ ["mods.bak"])
       end
  /\ lookup (fs w') (c ++ ["config.bak"])
     = match lookup (fs w) (c ++ ["config"]) with
       | Some n => Some n
       | None => lookup (fs w) (c ++ ["config.bak"])
       end
  /\ (forall q, apart q (c ++ ["mods"]) = true -> apart q (c ++ ["mods.bak"]) = true ->
                apart q (c ++ ["config"]) = true -> apart q (c ++ ["config.bak"]) = true ->
                lookup (fs w') q = lookup (fs w) q).
Proof.
  intros Hc Hd Hrun.
  destruct (backup_step_spec E c w w' b Hc Hd Hrun) as (H1 & _ & H2 & H3 & H4 & H5 & H6).
  repeat split; assumption.
Qed.

(** X11: [clean_url] is idempotent: when [urlparse] reads back the parts
    that [urlunparse] wrote for the cleaned URL, cleaning the cleaned URL
    gives the same URL again. *)
Theorem clean_url_clean (u : string) :
  let p := env_urlparse E u in
  let q := {| u_scheme := u_scheme p; u_netloc := u_netloc p; u_path := u_path p;
              u_params := ""; u_query := ""; u_fragment := "" |} in
  env_urlparse E (env_urlunparse E q) = q ->
  clean_url E (clean_url E u) = clean_url E u.
Proof.
  intros p q Hrt.
  assert (H1 : env_urlparse E (clean_url E u) = q) by exact Hrt.
  unfold clean_url at 1. rewrite H1. reflexivity.
Qed.

Lemma fetch_needs (args : arguments) (m : manifest) (tmp_dir : PurePath.t)
    (bl : option (list string)) (w w' : world) (store : PurePath.t) :
  fetch E args m tmp_dir bl w = (Ok store, w') ->
  (0 < threads args)%Z /\ files m <> None.
Proof.
  unfold fetch. unfold bind at 1.
  match goal with |- context [sys ?f w] => destruct (sys f w) as [[[]|e|] wa] end;
    try discriminate.
  unfold bind at 1. unfold logger at 1. unfold bind at 1. unfold download_phase at 1.
  destruct (Z.leb_spec (threads args) 0) as [Hn|Hn]; [discriminate|].
  destruct (files m); [intros _; split; [lia | discriminate] | discriminate].
Qed.

Lemma item_ok {A : Type} (key : string) (o : option A) (w w' : world) (a : A) :
  item key o w = (Ok a, w') -> o = Some a.
Proof. destruct o; [intros [= -> _]; reflexivity | discriminate]. Qed.

Lemma loads_ok (text : string) (w w' : world) (m : manifest) :
  match env_json_loads E text with
  | inl e => (Raise e, w)
  | inr m => (Ok m, w)
  end = (Ok m, w') -> env_json_loads E text = inr m.
Proof. destruct (env_json_loads E text); [discriminate | intros [= -> _]; reflexivity]. Qed.

Ltac step :=
  unfold bind at 1;
  lazymatch goal with
  | |- (match ?X with pair _ _ => _ end) = _ -> _ =>
      destruct X as [[?|?|] ?] eqn:?; try discriminate
  end.

Lemma prepare_needs (args : arguments) (tmp_dir : PurePath.t) (w w' : world)
    (base : PurePath.t) (mp : zipfile) (m : manifest) (bl : option (list string)) :
  prepare E args tmp_dir w = (Ok (base, mp, m, bl), w') ->
  exists text, env_json_loads E text = inr m /\ name m <> None /\ pack_version m <> None.
Proof.
  unfold prepare. do 7 step.
  step. match goal with H : _ = (Ok ?m0, _) |- _ => apply loads_ok in H; rename H into Hj end.
  step. match goal with H : item "name" _ _ = _ |- _ => apply item_ok in H; rename H into Hn end.
  step. match goal with H : item "version" _ _ = _ |- _ => apply item_ok in H; rename H into Hv end.
  do 2 step.
  unfold ret. intros [= _ _ <- _ _].
  eexists. split; [exact Hj|]. rewrite Hn, Hv. split; discriminate.
Qed.


End Manifest.

(** ** What leaves an observation of the world alone *)

Section Steady.
Variable T : Type.
Variable obs : world -> T.
Hypothesis obs_fs : forall w t, obs (set_fs w t) = obs w.
Hypothesis obs_log : forall w r, obs (add_log w r) = obs w.

Lemma steady_ret {A : Type} (a : A) : steady obs (ret a).
Proof. intros w r w' [= _ <-]. reflexivity. Qed.

Lemma steady_raise {A : Type} (e : exn) : steady obs (@raise A e).
Proof. intros w r w' [= _ <-]. reflexivity. Qed.

Lemma steady_out_of_fuel {A : Type} : steady obs (@out_of_fuel A).
Proof. intros w r w' [= _ <-]. reflexivity. Qed.

Lemma steady_test f : steady obs (test f).
Proof. intros w r w' [= _ <-]. reflexivity. Qed.

Lemma steady_ask {A : Type} (f : node -> errno + A) : steady obs (ask f).
Proof. intros w r w'. unfold ask. destruct (f (fs w)); intros [= _ <-]; reflexivity. Qed.

Lemma steady_sys f : steady obs (sys f).
Proof.
  intros w r w'. unfold sys. destruct (f (fs w)); intros [= _ <-]; [reflexivity | apply obs_fs].
Qed.

Lemma steady_logger l t a : steady obs (logger l t a).
Proof. intros w r w' [= _ <-]. apply obs_log. Qed.

Lemma steady_item {A : Type} key (o : option A) : steady obs (item key o).
Proof. destruct o; [apply steady_ret | apply steady_raise]. Qed.

Lemma steady_bind {A B : Type} (m : M A) (k : A -> M B) :
  steady obs m -> (forall a, steady obs (k a)) -> steady obs (bind m k).
Proof.
  intros Hm Hk w r w'. unfold bind.
  destruct (m w) as [[a|e|] w1] eqn:H1.
  - intros H2. rewrite (Hk a w1 r w' H2). exact (Hm w _ w1 H1).
  - intros [= _ <-]. exact (Hm w _ w1 H1).
  - intros [= _ <-]. exact (Hm w _ w1 H1).
Qed.

Lemma steady_try {A : Type} (m : M A) (h : exn -> M A) :
  steady obs m -> (forall e, steady obs (h e)) -> steady obs (try_except m h).
Proof.
  intros Hm Hh w r w'. unfold try_except.
  destruct (m w) as [[a|e|] w1] eqn:H1.
  - intros [= _ <-]. exact (Hm w _ w1 H1).
  - intros H2. rewrite (Hh e w1 r w' H2). exact (Hm w _ w1 H1).
  - intros [= _ <-]. exact (Hm w _ w1 H1).
Qed.

Lemma steady_if {A : Type} (b : bool) (m1 m2 : M A) :
  steady obs m1 -> steady obs m2 -> steady obs (if b then m1 else m2).
Proof. destruct b; auto. Qed.

Lemma steady_for_each {A : Type} (l : list A) (body : A -> M unit) :
  (forall x, steady obs (body x)) -> steady obs (for_each l body).
Proof.
  intros Hb. induction l as [|x l IH]; simpl; [apply steady_ret|].
  apply steady_bind; auto.
Qed.

Lemma steady_opened p :
  steady obs (fun w => match open_wb (fs w) p with
                       | inl e => (Raise (OSError e), w)
                       | inr (t, f) => (Ok f, set_fs w t)
                       end).
Proof.
  intros w r w'. destruct (open_wb (fs w) p) as [e|[t f]]; intros [= _ <-];
    [reflexivity | apply obs_fs].
Qed.

Lemma steady_written f data :
  steady obs (fun w : world => (Ok tt, set_fs w (write (fs w) f data))).
Proof. intros w r w' [= _ <-]. apply obs_fs. Qed.

Create HintDb steady.
Hint Resolve steady_ret steady_raise steady_out_of_fuel steady_test steady_ask steady_sys
  steady_logger steady_item steady_opened steady_written : steady.
Hint Extern 2 (steady _ (bind _ _)) => apply steady_bind; [|intro] : steady.
Hint Extern 2 (steady _ (if _ then _ else _)) => apply steady_if : steady.

Lemma steady_makedirs_rev rp : steady obs (makedirs_rev rp).
Proof.
  induction rp as [|x rp IH]; simpl; [auto with steady|].
  apply steady_bind; [auto with steady|]. intros b.
  apply steady_bind; [|intros; auto with steady].
  apply steady_if; [auto with steady|].
  apply steady_try; [exact IH|]. intros [| |[]| | | | |]; auto with steady.
Qed.

Lemma steady_makedirs p : steady obs (makedirs p).
Proof. apply steady_makedirs_rev. Qed.

Lemma steady_mkdir_parents_rev rp : forall exist_ok, steady obs (mkdir_parents_rev exist_ok rp).
Proof.
  induction rp as [|x rp IH]; intros exist_ok; simpl.
  - apply steady_try; [auto with steady|].
    intros [| |[]| | | | |]; auto 6 with steady.
  - apply steady_try; [auto with steady|].
    intros [| |[]| | | | |]; auto 6 with steady.
    apply steady_bind; [apply IH|]. intros _.
    apply steady_try; [auto with steady|].
    intros [| |[]| | | | |]; auto 6 with steady.
Qed.

Lemma steady_copy2 s d : steady obs (copy2 s d).
Proof. unfold copy2. auto 10 with steady. Qed.

Lemma steady_copy_entry recur src dst ov x :
  (forall s d o, steady obs (recur s d o)) -> steady obs (copy_entry recur src dst ov x).
Proof.
  intros Hr. unfold copy_entry.
  apply steady_bind; [auto with steady|]. intros b.
  apply steady_if; [apply Hr|].
  apply steady_bind; [auto with steady|]. intros c.
  apply steady_if; [apply steady_copy2 | auto with steady].
Qed.

Lemma steady_copytree fuel : forall src dst ov, steady obs (copytree fuel src dst ov).
Proof.
  induction fuel as [|fuel IH]; intros src dst ov; simpl; [auto with steady|].
  apply steady_bind; [auto with steady|]. intros b.
  apply steady_bind; [apply steady_if; [auto with steady | apply steady_makedirs]|]. intros _.
  apply steady_bind; [auto with steady|]. intros items.
  apply steady_for_each. intros x. now apply steady_copy_entry.
Qed.

Lemma steady_zip_read z name : steady obs (zip_read z name).
Proof. unfold zip_read. destruct (getinfo z name); auto with steady. Qed.

Lemma steady_extract_member z target name : steady obs (extract_member z target name).
Proof.
  unfold extract_member.
  apply steady_bind; [auto with steady|]. intros m.
  apply steady_bind; [auto with steady|]. intros b.
  apply steady_bind.
  { destruct (removelast _); [auto with steady|].
    apply steady_if; [auto with steady | apply steady_makedirs]. }
  intros _. apply steady_if; auto 6 with steady.
Qed.

Lemma steady_backup_of d : steady obs (backup_of d).
Proof. unfold backup_of. destruct (PurePath.with_suffix d ".bak"); auto with steady. Qed.

Section Staging.
Variable E : environment.

Lemma steady_open_path p : steady obs (open_path E p).
Proof. unfold open_path. apply steady_opened. Qed.

Lemma steady_ZipFile p : steady obs (ZipFile E p).
Proof.
  unfold ZipFile. apply steady_bind; [auto with steady|]. intros data.
  destruct (env_unzip E data); auto with steady.
Qed.

Lemma steady_extractall z path members : steady obs (extractall E z path members).
Proof. unfold extractall. apply steady_for_each. intros x. apply steady_extract_member. Qed.

Lemma steady_backup_one d b : steady obs (backup_one E d b).
Proof. unfold backup_one. auto 10 with steady. Qed.

Lemma steady_backup_step base : steady obs (backup_step E base).
Proof.
  unfold backup_step, backup.
  apply steady_bind; [apply steady_backup_of|]. intros mb.
  apply steady_bind; [apply steady_backup_of|]. intros cb.
  apply steady_bind; [|intros; auto with steady].
  apply steady_bind; [apply steady_backup_one|]. intros _. apply steady_backup_one.
Qed.

Lemma steady_apply_overrides fuel m z tmp base : steady obs (apply_overrides E fuel m z tmp base).
Proof.
  unfold apply_overrides. destruct (overrides m); [|auto with steady].
  apply steady_bind; [apply steady_extractall|]. intros _. apply steady_copytree.
Qed.

Lemma steady_restore_config fuel args base bak : steady obs (restore_config E fuel args base bak).
Proof.
  unfold restore_config. apply steady_bind; [auto with steady|]. intros b.
  apply steady_if; [apply steady_copytree | auto with steady].
Qed.

Lemma steady_link_forge args dest p : steady obs (link_forge E args dest p).
Proof. unfold link_forge. auto 10 with steady. Qed.

(** With [keep_forge] the staging phase is steady. *)
Lemma steady_stage fuel args m z tmp base store :
  keep_forge args = true -> steady obs (stage E fuel args m z tmp base store).
Proof.
  intros Hk. unfold stage, after_backup, forge_step. rewrite Hk.
  apply steady_bind; [apply steady_backup_step|]. intros bak.
  apply steady_bind; [auto with steady|]. intros _.
  apply steady_bind; [auto with steady|]. intros _.
  apply steady_bind; [apply steady_copytree|]. intros _.
  apply steady_bind; [auto with steady|]. intros _.
  apply steady_bind; [apply steady_apply_overrides|]. intros _.
  apply steady_bind; [apply steady_restore_config|]. intros _.
  auto with steady.
Qed.

End Staging.
End Steady.

(** ** Requests and processes of the steps *)

Section Online.
Variable T : Type.
Variable obs : world -> T.
Hypothesis obs_fs : forall w t, obs (set_fs w t) = obs w.
Hypothesis obs_log : forall w r, obs (add_log w r) = obs w.
Hypothesis obs_net : forall w e, obs (add_net w e) = obs w.
Variable E : environment.

Lemma steady_urlopen method u : steady obs (urlopen E method u).
Proof.
  intros w r w'. unfold urlopen.
  destruct (env_internet E _ _ _); intros [= _ <-]; apply obs_net.
Qed.

Lemma steady_transfer conn f : steady obs (transfer conn f).
Proof.
  intros w r w'. unfold transfer.
  destruct (failure conn); intros [= _ <-]; rewrite obs_fs; apply obs_net.
Qed.

Lemma steady_download c d f : steady obs (download E c d f).
Proof.
  unfold download.
  apply steady_bind; [destruct c; [apply steady_urlopen | apply steady_ret]|]. intros conn.
  apply steady_bind; [now apply steady_logger|]. intros _.
  apply steady_bind; [now apply steady_open_path|]. intros h.
  apply steady_bind; [apply steady_transfer|]. intros _.
  apply steady_bind; [now apply steady_logger|]. intros _.
  apply steady_ret.
Qed.

Lemma steady_mod_url spec : steady obs (mod_url E spec).
Proof.
  unfold mod_url.
  apply steady_bind; [apply steady_item|]. intros p.
  apply steady_bind; [apply steady_urlopen|]. intros page.
  apply steady_bind; [apply steady_item|]. intros f.
  apply steady_bind; [now apply steady_logger|]. intros _.
  apply steady_ret.
Qed.

Lemma steady_download_mod spec dest bl : steady obs (download_mod E spec dest bl).
Proof.
  unfold download_mod.
  apply steady_bind; [now apply steady_logger|]. intros _.
  apply steady_bind; [apply steady_mod_url|]. intros u.
  apply steady_bind; [apply steady_urlopen|]. intros conn.
  apply steady_if.
  - apply steady_bind; [now apply steady_logger|]. intros _. apply steady_ret.
  - apply steady_bind; [apply steady_download|]. intros p. apply steady_ret.
Qed.

Lemma steady_urlretrieve u p : steady obs (urlretrieve E u p).
Proof.
  unfold urlretrieve.
  apply steady_bind; [apply steady_urlopen|]. intros conn.
  apply steady_bind; [now apply steady_open_path|]. intros h.
  apply steady_transfer.
Qed.

Lemma steady_prepare args tmp : steady obs (prepare E args tmp).
Proof.
  unfold prepare.
  apply steady_bind; [apply steady_test|]. intros b.
  apply steady_bind.
  { apply steady_if; [apply steady_ret | now apply steady_mkdir_parents_rev]. }
  intros _.
  apply steady_bind; [apply steady_ask|]. intros resolved.
  apply steady_bind; [apply steady_test|]. intros pe.
  apply steady_bind.
  { apply steady_if.
    - apply steady_bind; [now apply steady_logger|]. intros _. apply steady_ret.
    - apply steady_bind; [now apply steady_logger|]. intros _.
      apply steady_bind; [apply steady_urlretrieve|]. intros _.
      apply steady_bind; [now apply steady_logger|]. intros _. apply steady_ret. }
  intros pack.
  apply steady_bind; [apply steady_ZipFile|]. intros z.
  apply steady_bind; [apply steady_zip_read|]. intros text.
  apply steady_bind.
  { intros w r w'. destruct (env_json_loads E text); intros [= _ <-]; reflexivity. }
  intros m.
  apply steady_bind; [apply steady_item|]. intros n.
  apply steady_bind; [apply steady_item|]. intros v.
  apply steady_bind; [now apply steady_logger|]. intros _.
  apply steady_bind; [|intros; apply steady_ret].
  destruct (exclude args); [|apply steady_ret].
  apply steady_bind; [now apply steady_logger|]. intros _. apply steady_ret.
Qed.

(** *** The pool *)

Lemma calm_nth (l : futures) i f : Forall (calm obs) l -> nth_error l i = Some f -> calm obs f.
Proof. intros H Hi. apply nth_error_In in Hi. rewrite Forall_forall in H. auto. Qed.

Lemma calm_set_nth i f (l : futures) :
  calm obs f -> Forall (calm obs) l -> Forall (calm obs) (set_nth i f l).
Proof.
  revert i; induction l as [|g l IH]; intros [|i] Hf Hl; simpl; auto;
    inversion Hl; subst; constructor; auto.
Qed.

Lemma calm_start_first (l : futures) : Forall (calm obs) l -> Forall (calm obs) (start_first l).
Proof.
  induction l as [|f l IH]; simpl; auto. intros H. inversion H; subst.
  destruct f; constructor; auto.
Qed.

Lemma calm_worker_start n (l : futures) :
  Forall (calm obs) l -> Forall (calm obs) (worker_start n l).
Proof. unfold worker_start. destruct (_ <? _); auto using calm_start_first. Qed.

Lemma calm_worker_finish i (l : futures) w l' w' :
  Forall (calm obs) l -> worker_finish i l w = (l', w') ->
  Forall (calm obs) l' /\ obs w' = obs w.
Proof.
  unfold worker_finish. intros Hl.
  destruct (nth_error l i) as [[t|t|s r|]|] eqn:Hi; try (intros [= <- <-]; now auto).
  pose proof (calm_nth l i _ Hl Hi) as Ht. simpl in Ht.
  destruct (t w) as [r w1] eqn:Hr. intros [= <- <-]. split.
  - apply calm_set_nth; [exact I | assumption].
  - exact (Ht w r w1 Hr).
Qed.

Lemma calm_cancel_all (l : futures) : Forall (calm obs) l -> Forall (calm obs) (cancel_all l).
Proof.
  unfold cancel_all. induction 1 as [|f l Hf Hl IH]; simpl; constructor; auto.
  destruct f; simpl; auto.
Qed.

Lemma calm_settle (l : futures) : forall w l' w',
  Forall (calm obs) l -> settle l w = (l', w') -> obs w' = obs w.
Proof.
  induction l as [|f l IH]; intros w l' w' Hl; simpl; [now intros [= _ <-]|].
  inversion Hl as [|f0 l0 Hf Hl0]; subst.
  destruct f as [t|t|s r|]; simpl in Hf.
  - destruct (t w) as [r w1] eqn:Hr. destruct (settle l w1) as [l2 w2] eqn:Hs.
    intros [= _ <-]. rewrite (IH w1 l2 w2 Hl0 Hs). exact (Hf w r w1 Hr).
  - destruct (t w) as [r w1] eqn:Hr. destruct (settle l w1) as [l2 w2] eqn:Hs.
    intros [= _ <-]. rewrite (IH w1 l2 w2 Hl0 Hs). exact (Hf w r w1 Hr).
  - destruct (settle l w) as [l2 w2] eqn:Hs. intros [= _ <-]. exact (IH w l2 w2 Hl0 Hs).
  - destruct (settle l w) as [l2 w2] eqn:Hs. intros [= _ <-]. exact (IH w l2 w2 Hl0 Hs).
Qed.

Lemma calm_work n sched : forall (l : futures) w l' w',
  Forall (calm obs) l -> work n sched l w = (l', w') ->
  Forall (calm obs) l' /\ obs w' = obs w.
Proof.
  induction sched as [|[|i|i] sched IH]; intros l w l' w' Hl; simpl.
  - intros [= <- <-]. auto.
  - apply IH. now apply calm_worker_start.
  - destruct (worker_finish i l w) as [l1 w1] eqn:Hf.
    destruct (calm_worker_finish i l w l1 w1 Hl Hf) as [H1 H2].
    intros Hw. destruct (IH l1 w1 l' w' H1 Hw) as [H3 H4]. split; [assumption | congruence].
  - now apply IH.
Qed.

Lemma calm_shutdown n sched (l : futures) w l' w' :
  Forall (calm obs) l -> shutdown n sched l w = (l', w') -> obs w' = obs w.
Proof.
  unfold shutdown. intros Hl. destruct (work n sched l w) as [l1 w1] eqn:Hw.
  destruct (calm_work n sched l w l1 w1 Hl Hw) as [H1 H2].
  intros Hs. rewrite (calm_settle l1 w1 l' w' H1 Hs). exact H2.
Qed.

Lemma calm_observe r (l : futures) w r' l' w' :
  Forall (calm obs) l -> observe r l w = (r', l', w') ->
  Forall (calm obs) l' /\ obs w' = obs w.
Proof.
  intros Hl. unfold observe. destruct r as [v|e|].
  - intros [= _ <- <-]. auto.
  - intros [= _ <- <-]. split; [now apply calm_cancel_all|].
    destruct e; try reflexivity. apply obs_log.
  - intros [= _ <- <-]. auto.
Qed.

Lemma calm_collect_rest n : forall i (l : futures) w r l' w',
  Forall (calm obs) l -> collect_rest n i l w = (r, l', w') -> obs w' = obs w.
Proof.
  induction n as [|n IH]; intros i l w r l' w' Hl; cbn [collect_rest];
    [now intros [= _ _ <-]|].
  assert (Hstep : forall l1 w1, Forall (calm obs) l1 -> obs w1 = obs w ->
            match nth_error l1 i with
            | Some (Finished false r0) =>
                match observe r0 (set_nth i (Finished true r0) l1) w1 with
                | (Ok _, l2, w2) => collect_rest n (S i) l2 w2
                | (err, l2, w2) => let '(l3, w3) := settle l2 w2 in (err, l3, w3)
                end
            | _ => collect_rest n (S i) l1 w1
            end = (r, l', w') -> obs w' = obs w).
  { intros l1 w1 H1 Hw1.
    destruct (nth_error l1 i) as [[t|t|[|] r0|]|] eqn:Hi;
      try (intros Hc; rewrite (IH _ _ _ _ _ _ H1 Hc); exact Hw1).
    destruct (observe r0 (set_nth i (Finished true r0) l1) w1) as [[r2 l2] w2] eqn:Ho.
    destruct (calm_observe r0 _ w1 r2 l2 w2 (calm_set_nth i (Finished true r0) l1 I H1) Ho) as [H2 Hw2].
    destruct r2 as [v|e|].
    - intros Hc. rewrite (IH _ _ _ _ _ _ H2 Hc). congruence.
    - destruct (settle l2 w2) as [l3 w3] eqn:Hs. intros [= _ _ <-].
      rewrite (calm_settle l2 w2 l3 w3 H2 Hs). congruence.
    - destruct (settle l2 w2) as [l3 w3] eqn:Hs. intros [= _ _ <-].
      rewrite (calm_settle l2 w2 l3 w3 H2 Hs). congruence. }
  destruct (nth_error l i) as [[t|t|s r0|]|] eqn:Hi; try (now apply Hstep).
  - pose proof (calm_nth l i _ Hl Hi) as Ht. simpl in Ht.
    destruct (t w) as [r1 w1] eqn:Hr. apply Hstep.
    + apply calm_set_nth; [exact I | assumption].
    + exact (Ht w r1 w1 Hr).
  - pose proof (calm_nth l i _ Hl Hi) as Ht. simpl in Ht.
    destruct (t w) as [r1 w1] eqn:Hr. apply Hstep.
    + apply calm_set_nth; [exact I | assumption].
    + exact (Ht w r1 w1 Hr).
Qed.

Lemma calm_collect n sched : forall (l : futures) w r l' w',
  Forall (calm obs) l -> collect n sched l w = (r, l', w') -> obs w' = obs w.
Proof.
  induction sched as [|[|i|i] sched IH]; intros l w r l' w' Hl; cbn [collect].
  - apply calm_collect_rest. assumption.
  - apply IH. now apply calm_worker_start.
  - destruct (worker_finish i l w) as [l1 w1] eqn:Hf.
    destruct (calm_worker_finish i l w l1 w1 Hl Hf) as [H1 H2].
    intros Hc. rewrite (IH l1 w1 r l' w' H1 Hc). exact H2.
  - destruct (nth_error l i) as [[t|t|[|] r0|]|] eqn:Hi; try (now apply IH).
    destruct (observe r0 (set_nth i (Finished true r0) l) w) as [[r2 l2] w2] eqn:Ho.
    destruct (calm_observe r0 _ w r2 l2 w2 (calm_set_nth i (Finished true r0) l I Hl) Ho) as [H2 Hw2].
    destruct r2 as [v|e|].
    + intros Hc. rewrite (IH l2 w2 r l' w' H2 Hc). exact Hw2.
    + destruct (shutdown n sched l2 w2) as [l3 w3] eqn:Hs. intros [= _ _ <-].
      rewrite (calm_shutdown n sched l2 w2 l3 w3 H2 Hs). exact Hw2.
    + destruct (shutdown n sched l2 w2) as [l3 w3] eqn:Hs. intros [= _ _ <-].
      rewrite (calm_shutdown n sched l2 w2 l3 w3 H2 Hs). exact Hw2.
Qed.

Lemma calm_submitted (mods : list mod_spec) (store : PurePath.t) (bl : option (list string)) :
  Forall (calm obs) (map (fun spec => Pending (download_mod E spec store bl)) mods).
Proof.
  induction mods as [|s mods IH]; simpl; constructor; auto.
  simpl. apply steady_download_mod.
Qed.

Lemma calm_submit_bonus (bonus : list direct_entry) (store : PurePath.t) :
  forall (l : futures) (w : world) r l1 w1,
    Forall (calm obs) l ->
    submit_bonus E bonus store l w = (r, l1, w1) ->
    Forall (calm obs) l1 /\ obs w1 = obs w.
Proof.
  induction bonus as [|entry bonus IH]; intros l w r l1 w1 Hl; cbn [submit_bonus].
  - intros [= _ <- <-]. auto.
  - assert (Hw : logger_kw WARNING "Error while handling entry {}" [AEntry entry] ["file"] w
                 = (Raise (TypeError "_log() got an unexpected keyword argument"), w))
      by reflexivity.
    destruct (url entry) as [u|], (filename entry) as [f|];
      try (rewrite Hw; intros [= _ <- <-]; now auto).
    apply IH. apply Forall_app. split; [assumption|]. constructor; [|constructor].
    simpl. apply steady_bind; [apply steady_download | intros p; apply steady_ret].
Qed.

Lemma steady_download_phase args m store bl : steady obs (download_phase E args m store bl).
Proof.
  intros w r w'. unfold download_phase.
  destruct (threads args <=? 0)%Z; [now intros [= _ <-]|].
  destruct (files m) as [mods|]; [|now intros [= _ <-]].
  destruct (submit_bonus E _ store _ w) as [[r1 l1] w1] eqn:Hs.
  destruct (calm_submit_bonus _ store _ w r1 l1 w1 (calm_submitted mods store bl) Hs)
    as [H1 Hw1].
  destruct r1 as [v|e|].
  - destruct (collect _ _ l1 w1) as [[r2 l2] w2] eqn:Hc.
    pose proof (calm_collect _ _ l1 w1 r2 l2 w2 H1 Hc) as Hw2.
    destruct r2; intros [= _ <-]; congruence.
  - destruct (shutdown _ _ l1 w1) as [l2 w2] eqn:Hd.
    pose proof (calm_shutdown _ _ l1 w1 l2 w2 H1 Hd) as Hw2.
    intros [= _ <-]. congruence.
  - intros [= _ <-]. exact Hw1.
Qed.

Lemma steady_fetch args m tmp bl : steady obs (fetch E args m tmp bl).
Proof.
  unfold fetch.
  apply steady_bind; [now apply steady_sys|]. intros _.
  apply steady_bind; [now apply steady_logger|]. intros _.
  apply steady_bind; [apply steady_download_phase|]. intros _.
  apply steady_bind; [now apply steady_logger|]. intros _.
  apply steady_ret.
Qed.

(** With [keep_forge] the whole run is steady. *)
Lemma steady_run fuel args tmp :
  keep_forge args = true -> steady obs (run E fuel args tmp).
Proof.
  intros Hk. unfold run.
  apply steady_bind; [apply steady_prepare|]. intros [[[base z] m] bl].
  apply steady_bind; [apply steady_fetch|]. intros store.
  now apply steady_stage.
Qed.

End Online.

Section Flags.
Variable E : environment.

(** X13: with [keep_forge], everything after the downloads (lines
    186-224) makes no request and starts no process, whether it completes
    or fails. *)
Theorem staging_is_offline (fuel : nat) (args : arguments) (m : manifest)
    (modpack : zipfile) (tmp_dir base_dir mod_store : PurePath.t)
    (w w' : world) (r : outcome unit) :
  keep_forge args = true ->
  stage E fuel args m modpack tmp_dir base_dir mod_store w = (r, w') ->
  net w' = net w /\ procs w' = procs w.
Proof.
  intros Hk Hrun.
  assert (H : traffic w' = traffic w).
  { apply (steady_stage _ traffic (fun _ _ => eq_refl) (fun _ _ => eq_refl) E
             fuel args m modpack tmp_dir base_dir mod_store Hk w r w' Hrun). }
  unfold traffic in H. injection H as H1 H2. auto.
Qed.

(** X14: with [keep_forge], a run starts no process at all, whatever the
    schedule of the downloads and whether the run completes or fails. *)
Theorem keep_forge_starts_no_process (fuel : nat) (args : arguments) (tmp_dir : string)
    (w w' : world) (r : outcome unit) :
  keep_forge args = true ->
  run E fuel args tmp_dir w = (r, w') ->
  procs w' = procs w.
Proof.
  intros Hk Hrun.
  exact (steady_run _ procs (fun _ _ => eq_refl) (fun _ _ => eq_refl) (fun _ _ => eq_refl) E
           fuel args tmp_dir Hk w r w' Hrun).
Qed.

End Flags.

(** ** The link to the jar of Forge *)

Lemma unlink_located fs p :
  located fs p = true ->
  unlink fs p = match lookup fs p with
                | None => inl ENOENT
                | Some (Dir _) => inl EISDIR
                | Some _ => inr (update fs p None)
                end.
Proof.
  intros Hl. unfold unlink. rewrite lstat_located by assumption.
  destruct (lookup fs p) as [[d|es|t]|]; reflexivity.
Qed.

Lemma symlink_located fs t p :
  located fs p = true ->
  symlink fs t p = match lookup fs p with
                   | Some _ => inl EEXIST
                   | None => inr (update fs p (Some (Symlink t)))
                   end.
Proof.
  intros Hl. unfold symlink. rewrite resolve_located by auto. reflexivity.
Qed.

(** [stat] through a link to a name of the same directory. *)
Lemma stat_sibling_link fs c l t :
  plain (c ++ [l]) = true -> is_dir (lookup fs c) = true ->
  lookup fs (c ++ [l]) = Some (Symlink t) -> simple_target t = true ->
  not_link (lookup fs (c ++ [t])) = true ->
  stat fs (c ++ [l])
  = match lookup fs (c ++ [t]) with Some n => inr (c ++ [t], n) | None => inl ENOENT end.
Proof.
  intros Hp Hd Hl Ht Hn.
  unfold simple_target in Ht. apply andb_true_iff in Ht as [Ht Hs].
  apply andb_true_iff in Ht as [Htp Hta]. apply negb_true_iff in Hta.
  destruct (Str.split "/" t) as [|x [|y r]] eqn:Hsplit; try discriminate.
  apply String.eqb_eq in Hs. subst x.
  assert (Hc : plain c = true).
  { unfold plain in *. rewrite forallb_app in Hp. apply andb_true_iff in Hp. tauto. }
  assert (Hlp : plain_name l = true).
  { unfold plain in *. rewrite forallb_app in Hp. apply andb_true_iff in Hp as [_ Hp].
    simpl in Hp. now rewrite andb_true_r in Hp. }
  assert (Hwalk : forall b, walk fs (S b) true [] (c ++ [l]) = walk fs b true c [t]).
  { intros b.
    assert (Hgen : forall p cur, plain p = true -> is_dir (lookup fs (cur ++ p)) = true ->
              walk fs (S b) true cur (p ++ [l]) = walk fs (S b) true (cur ++ p) [l]).
    { induction p as [|x p IH]; intros cur Hpp Hdd.
      - now rewrite app_nil_r.
      - simpl in Hpp. apply andb_true_iff in Hpp as [Hx Hpp].
        apply plain_name_cases in Hx as [H1 H2].
        cbn [app]. rewrite walk_cons, H1, H2.
        replace (cur ++ x :: p) with ((cur ++ [x]) ++ p) in * by (now rewrite <- app_assoc).
        assert (Hdx : is_dir (lookup fs (cur ++ [x])) = true).
        { destruct p as [|y p'].
          - now rewrite app_nil_r in Hdd.
          - destruct (lookup fs ((cur ++ [x]) ++ y :: p')) as [n|] eqn:Hk; [|discriminate].
            apply (lookup_prefix_dir fs (cur ++ [x]) (y :: p') n Hk). discriminate. }
        destruct (lookup fs (cur ++ [x])) as [[d|es|t0]|]; try discriminate.
        apply IH; assumption. }
    rewrite (Hgen c [] Hc Hd). simpl app.
    apply plain_name_cases in Hlp as [H1 H2].
    rewrite walk_cons, H1, H2, Hl, Hta, Hsplit. reflexivity. }
  unfold stat, stat_gen, resolve, max_links. rewrite Hwalk.
  destruct (lookup fs (c ++ [t])) as [n|] eqn:Hk.
  - rewrite (walk_existing fs _ true [t] c n); [now rewrite Hk | | assumption | now right].
    simpl. now rewrite Htp.
  - rewrite (walk_new_leaf fs _ true [] t c); [now rewrite app_nil_l, Hk | reflexivity
      | assumption | now rewrite app_nil_r | assumption].
Qed.

Section Link.
Variable E : environment.

Lemma link_paths (args : arguments) (c : list string) (installer : PurePath.t) (j l : string) :
  PurePath.parse (forge_jar installer) = [j] -> PurePath.is_root_part j = false ->
  PurePath.parse (forge_symlink args) = [l] -> PurePath.is_root_part l = false ->
  os E (PurePath.join ("/" :: c) (PurePath.parse (forge_jar installer))) = c ++ [j]
  /\ PurePath.name (PurePath.join ("/" :: c) (PurePath.parse (forge_jar installer))) = j
  /\ os E (PurePath.join ("/" :: c) (PurePath.parse (forge_symlink args))) = c ++ [l].
Proof.
  intros Hj Hjr Hl Hlr. rewrite Hj, Hl. unfold PurePath.join, PurePath.is_absolute.
  rewrite Hjr, Hlr. split; [reflexivity|]. split; [|reflexivity].
  change (("/" :: c) ++ [j]) with (("/" :: c) ++ [j]). apply name_snoc. discriminate.
Qed.

(** The link step once the jar is there and a link is wanted. *)
Lemma link_forge_step (args : arguments) (c : list string) (installer : PurePath.t)
    (j l : string) (w : world) :
  PurePath.parse (forge_jar installer) = [j] -> PurePath.is_root_part j = false ->
  PurePath.parse (forge_symlink args) = [l] -> PurePath.is_root_part l = false ->
  Str.nonempty (forge_symlink args) = true ->
  exists_ (fs w) (c ++ [j]) = true ->
  link_forge E args ("/" :: c) installer w
  = ((symlink_exists <- test (fun t => exists_ t (c ++ [l])) ;;
      (if symlink_exists then sys (fun t => unlink t (c ++ [l])) else ret tt) ;;
      sys (fun t => symlink t j (c ++ [l]))) ;;
     logger INFO "Forge update done" [])%monad w.
Proof.
  intros Hj Hjr Hl Hlr Hne Hex.
  destruct (link_paths args c installer j l Hj Hjr Hl Hlr) as (P1 & P2 & P3).
  unfold link_forge. fold (forge_jar installer). rewrite P1, P2, P3.
  unfold bind at 1. unfold test at 1. rewrite Hex, Hne. reflexivity.
Qed.

(** X15: when the installer has left its jar and a link name is given,
    [update_forge] makes the link: a regular file of that name is removed
    first, and afterwards the name is a symbolic link to the name of the
    jar; nothing else in the tree changes. *)
Theorem link_forge_links (args : arguments) (c : list string) (installer : PurePath.t)
    (j l data : string) (w : world) :
  plain c = true -> is_dir (lookup (fs w) c) = true ->
  PurePath.parse (forge_jar installer) = [j] -> PurePath.is_root_part j = false ->
  PurePath.parse (forge_symlink args) = [l] -> PurePath.is_root_part l = false ->
  plain_name j = true -> plain_name l = true ->
  Str.nonempty (forge_symlink args) = true ->
  lookup (fs w) (c ++ [j]) = Some (File data) ->
  is_dir (lookup (fs w) (c ++ [l])) = false ->
  not_link (lookup (fs w) (c ++ [l])) = true ->
  exists w',
    link_forge E args ("/" :: c) installer w = (Ok tt, w')
    /\ lookup (fs w') (c ++ [l]) = Some (Symlink j)
    /\ (forall q, apart (c ++ [l]) q = true -> lookup (fs w') q = lookup (fs w) q).
Proof.
  intros Hc Hd Hj Hjr Hl Hlr Hjp Hlp Hne Hjar Hld Hln.
  assert (Lj : located (fs w) (c ++ [j]) = true)
    by (apply located_child; [now apply plain_child | assumption]).
  assert (Ll : located (fs w) (c ++ [l]) = true)
    by (apply located_child; [now apply plain_child | assumption]).
  assert (Hex : exists_ (fs w) (c ++ [j]) = true).
  { rewrite exists_located, Hjar; auto. now rewrite Hjar. }
  rewrite (link_forge_step args c installer j l w Hj Hjr Hl Hlr Hne Hex).
  unfold bind at 1. unfold bind at 1. unfold test at 1.
  rewrite exists_located by assumption.
  assert (Hpar : parent_dir (fs w) (c ++ [l]) = true) by (now apply located_nonempty_parent).
  destruct (lookup (fs w) (c ++ [l])) as [[d|es|t]|] eqn:Hk; try discriminate;
    cbv beta iota delta [is_some].
  - unfold bind at 1. unfold sys at 1. rewrite unlink_located, Hk by assumption.
    unfold sys at 1. rewrite fs_set_fs.
    rewrite symlink_located
      by (apply located_update; [assumption | reflexivity | apply snoc_nonempty]).
    rewrite update_same by (auto using snoc_nonempty).
    unfold logger. eexists. split; [reflexivity|]. cbn [fs add_log]. rewrite !fs_set_fs.
    split.
    + apply update_same; [apply snoc_nonempty|].
      apply located_nonempty_parent.
      apply located_update; [assumption | reflexivity | apply snoc_nonempty].
    + intros q Hq. rewrite !update_apart by assumption. reflexivity.
  - unfold bind at 1. unfold ret at 1.
    unfold sys at 1. rewrite symlink_located, Hk by assumption.
    unfold logger. eexists. split; [reflexivity|]. cbn [fs add_log]. rewrite fs_set_fs.
    split.
    + apply update_same; [apply snoc_nonempty | assumption].
    + intros q Hq. rewrite update_apart by assumption. reflexivity.
Qed.

(** X16: the test of line 111 follows links, so a link whose target is
    gone counts as absent: it is not removed, and making the new link
    fails with EEXIST; the tree is left as it was. *)
Theorem link_forge_dangling (args : arguments) (c : list string) (installer : PurePath.t)
    (j l t data : string) (w : world) :
  plain c = true -> is_dir (lookup (fs w) c) = true ->
  PurePath.parse (forge_jar installer) = [j] -> PurePath.is_root_part j = false ->
  PurePath.parse (forge_symlink args) = [l] -> PurePath.is_root_part l = false ->
  plain_name j = true -> plain_name l = true ->
  Str.nonempty (forge_symlink args) = true ->
  lookup (fs w) (c ++ [j]) = Some (File data) ->
  lookup (fs w) (c ++ [l]) = Some (Symlink t) ->
  simple_target t = true ->
  lookup (fs w) (c ++ [t]) = None ->
  link_forge E args ("/" :: c) installer w = (Raise (OSError EEXIST), w).
Proof.
  intros Hc Hd Hj Hjr Hl Hlr Hjp Hlp Hne Hjar Hlk Ht Hgone.
  assert (Lj : located (fs w) (c ++ [j]) = true)
    by (apply located_child; [now apply plain_child | assumption]).
  assert (Ll : located (fs w) (c ++ [l]) = true)
    by (apply located_child; [now apply plain_child | assumption]).
  assert (Hex : exists_ (fs w) (c ++ [j]) = true).
  { rewrite exists_located, Hjar; auto. now rewrite Hjar. }
  assert (Hno : exists_ (fs w) (c ++ [l]) = false).
  { unfold exists_.
    rewrite (stat_sibling_link (fs w) c l t), Hgone; auto.
    - now apply plain_child.
    - now rewrite Hgone. }
  rewrite (link_forge_step args c installer j l w Hj Hjr Hl Hlr Hne Hex).
  unfold bind at 1. unfold bind at 1. unfold test at 1. rewrite Hno.
  unfold bind at 1. unfold ret at 1.
  unfold sys at 1. rewrite symlink_located, Hlk by assumption. reflexivity.
Qed.

End Link.

(** ** Termination of the copy *)

Lemma height_child es x m : child es x = Some m -> height m < height (Dir es).
Proof.
  induction es as [|[y n] es IH]; simpl; [discriminate|].
  destruct (String.eqb x y).
  - intros [= ->]. lia.
  - intros H. specialize (IH H). simpl in IH. lia.
Qed.

Lemma returns_test f : returns (test f).
Proof. intros w. discriminate. Qed.

Lemma returns_ask {A : Type} (f : node -> errno + A) : returns (ask f).
Proof. intros w. unfold ask. destruct (f (fs w)); discriminate. Qed.

Lemma returns_sys f : returns (sys f).
Proof. intros w. unfold sys. destruct (f (fs w)); discriminate. Qed.

Lemma returns_if {A : Type} (b : bool) (m1 m2 : M A) :
  returns m1 -> returns m2 -> returns (if b then m1 else m2).
Proof. destruct b; auto. Qed.

Lemma returns_copy2 s d : returns (copy2 s d).
Proof.
  unfold copy2.
  apply returns_bind; [apply returns_test|]. intros b.
  apply returns_bind; [apply returns_test|]. intros same.
  apply returns_if; [apply returns_raise|].
  apply returns_bind; [apply returns_ask|]. intros data.
  apply returns_bind.
  - intros w. destruct (open_wb (fs w) _) as [e|[t f]]; discriminate.
  - intros f w. discriminate.
Qed.

Lemma copy_entry_returns recur src dst ov x w :
  (isdir (fs w) (src ++ [x]) = true ->
   fst (recur (src ++ [x]) (dst ++ [x]) true w) <> OutOfFuel) ->
  fst (copy_entry recur src dst ov x w) <> OutOfFuel.
Proof.
  intros Hr. unfold copy_entry. unfold bind at 1. unfold test at 1.
  destruct (isdir (fs w) (src ++ [x])); [now apply Hr|].
  apply returns_bind; [apply returns_test|]. intros b.
  apply returns_if; [apply returns_copy2 | apply returns_ret].
Qed.

(** Below a regular file the copy fails at once. *)
Lemma copytree_below_file (fuel : nat) (src d : list string) (x : string) (ov : bool)
    (w : world) :
  d <> [] -> plain d = true -> is_file (lookup (fs w) d) = true ->
  copytree (S fuel) src (d ++ [x]) ov w = (Raise (OSError ENOTDIR), w).
Proof.
  intros Hne Hp Hf.
  destruct (no_calls_below_file (fs w) d x) as (X1 & X2 & X3 & X4 & X5); auto.
  simpl. unfold bind at 1. unfold test at 1. rewrite X1.
  unfold bind at 1. unfold makedirs. rewrite rev_app_distr. simpl.
  unfold bind at 1. unfold test at 1. rewrite rev_involutive.
  destruct (lookup (fs w) d) as [n|] eqn:Hl; [|discriminate].
  rewrite exists_located, Hl.
  - simpl. unfold bind at 1. unfold ret at 1. unfold sys. rewrite X3. reflexivity.
  - eapply located_of_lookup; eauto.
  - rewrite Hl. destruct n; try discriminate; reflexivity.
Qed.

Section Loop.
Variable fuel : nat.
Hypothesis deeper : forall src dst ov w S,
  plain src = true -> lookup (fs w) src = Some S -> tidy S = true ->
  height S < fuel ->
  located (fs w) dst = true -> tidy_at (lookup (fs w) dst) = true ->
  apart src dst = true ->
  fst (copytree fuel src dst ov w) <> OutOfFuel.

Lemma entry_returns (src dst : list string) (ov : bool) (es : list (string * node))
    (item : string) (w : world) (D : node) :
  plain src = true -> lookup (fs w) src = Some (Dir es) -> tidy (Dir es) = true ->
  height (Dir es) <= fuel ->
  In item (map fst es) ->
  located (fs w) dst = true -> lookup (fs w) dst = Some D -> tidy D = true ->
  apart src dst = true ->
  fst (copy_entry (copytree fuel) src dst ov item w) <> OutOfFuel.
Proof.
  intros Hps Hsl Hst Hh Hin Hd Hdl Hdt Hap.
  destruct (names_child es item Hin) as [m Hm].
  destruct (tidy_child es item m Hst Hm) as [Hmt Hi].
  assert (Hls : lookup (fs w) (src ++ [item]) = Some m)
    by (now rewrite (lookup_child _ _ es)).
  assert (Hhm : height m < fuel) by (pose proof (height_child es item m Hm); lia).
  assert (Hnd : dst <> []) by (eapply apart_nonempty_r; eauto).
  assert (Hpd : plain dst = true) by (apply andb_true_iff in Hd; tauto).
  apply copy_entry_returns. intros _.
  destruct D as [old|ds|t]; [| |discriminate].
  - destruct fuel as [|f]; [lia|].
    rewrite copytree_below_file; [discriminate | assumption | assumption | now rewrite Hdl].
  - apply (deeper _ _ _ _ m); auto.
    + now apply plain_child.
    + apply located_child; [now apply plain_child | now rewrite Hdl].
    + rewrite (lookup_child _ _ ds) by assumption.
      destruct (child ds item) eqn:Hch; auto. simpl. apply (tidy_child ds item n Hdt Hch).
    + now apply apart_app_l, apart_app_r.
Qed.

Lemma loop_returns (src dst : list string) (ov : bool) (es : list (string * node))
    (items : list string) : forall (w : world) (D : node),
  plain src = true -> lookup (fs w) src = Some (Dir es) -> tidy (Dir es) = true ->
  height (Dir es) <= fuel ->
  incl items (map fst es) ->
  located (fs w) dst = true -> lookup (fs w) dst = Some D -> tidy D = true ->
  apart src dst = true ->
  fst (for_each items (copy_entry (copytree fuel) src dst ov) w) <> OutOfFuel.
Proof.
  induction items as [|item items IH]; intros w D Hps Hsl Hst Hh Hin Hd Hdl Hdt Hap.
  - discriminate.
  - cbn [for_each]. unfold bind at 1.
    pose proof (entry_returns src dst ov es item w D Hps Hsl Hst Hh
                  (Hin item (or_introl eq_refl)) Hd Hdl Hdt Hap) as Hentry.
    destruct (copy_entry (copytree fuel) src dst ov item w) as [[[]|e|] w1] eqn:H1;
      [|discriminate|now elim Hentry].
    destruct (copy_entry_merges (copytree fuel) (copytree_merges fuel) (copytree_stops fuel)
                src dst ov item w w1 es D Hps Hsl Hst
                (Hin item (or_introl eq_refl)) Hd Hdl Hdt Hap H1)
      as (ds & n' & -> & E1 & E2).
    assert (Hi : plain_name item = true).
    { apply (tidy_names es item Hst). apply Hin. now left. }
    rewrite (update_child _ _ ds) in E1 by assumption.
    assert (Hnd : dst <> []) by (eapply apart_nonempty_r; eauto).
    assert (Hpd : plain dst = true) by (apply andb_true_iff in Hd; tauto).
    assert (Hdl1 : lookup (fs w1) dst = Some (Dir (put ds item n'))).
    { rewrite E1. eapply lookup_update_here; eauto. }
    apply (IH w1 (Dir (put ds item n'))); auto.
    + rewrite E1, update_apart; auto. now rewrite apart_sym.
    + intros i Hi'. apply Hin. now right.
    + eapply located_of_lookup; eauto.
    + now apply tidy_put.
Qed.
End Loop.

(** X17: [copytree] comes back, with a result or an exception, when the
    source is a tree of regular files and directories, the destination
    holds no symbolic link and lies apart from the source: the recursion
    is as deep as the source tree, and fuel above its height is enough. *)
Theorem copytree_returns (fuel : nat) : forall (src dst : list string) (ov : bool)
    (w : world) (S : node),
  plain src = true -> lookup (fs w) src = Some S -> tidy S = true ->
  height S < fuel ->
  located (fs w) dst = true -> tidy_at (lookup (fs w) dst) = true ->
  apart src dst = true ->
  fst (copytree fuel src dst ov w) <> OutOfFuel.
Proof.
  induction fuel as [|fuel IH]; intros src dst ov w S Hps Hsl Hst Hh Hd Hdt Hap; [lia|].
  assert (Hnd : dst <> []) by (eapply apart_nonempty_r; eauto).
  assert (Hns : src <> []) by (eapply apart_nonempty_l; eauto).
  assert (Hls : located (fs w) src = true) by (eapply located_of_lookup; eauto).
  cbn [copytree]. unfold bind at 1. unfold test at 1.
  rewrite exists_located by (auto using tidy_at_not_link).
  assert (Hloop : forall w1 D,
            lookup (fs w1) src = Some S -> located (fs w1) dst = true ->
            lookup (fs w1) dst = Some D -> tidy D = true ->
            fst ((items <- ask (fun t => listdir t src) ;;
                  for_each items (copy_entry (copytree fuel) src dst ov))%monad w1)
            <> OutOfFuel).
  { intros w1 D Hsl1 Hd1 Hdl1 Hdt1. unfold bind, ask, listdir.
    rewrite stat_located, Hsl1
      by (try (eapply located_of_lookup; eauto); rewrite Hsl1; now apply tidy_not_link).
    destruct S as [data|es|t]; try discriminate.
    apply (loop_returns fuel IH src dst ov es (map fst es) w1 D); auto;
      [lia | apply incl_refl]. }
  destruct (lookup (fs w) dst) as [D|] eqn:Hdl; cbv beta iota delta [is_some].
  - unfold bind at 1. unfold ret at 1. apply (Hloop w D); auto.
  - unfold bind at 1. rewrite makedirs_child by assumption. unfold sys.
    rewrite mkdir_located, Hdl by assumption.
    apply (Hloop _ (Dir [])).
    + rewrite fs_set_fs, update_apart; auto. now rewrite apart_sym.
    + rewrite fs_set_fs. apply located_update; auto.
    + rewrite fs_set_fs. apply update_same; auto. now apply located_nonempty_parent.
    + reflexivity.
Qed.

Lemma copytree_returns_witness :
  fst (copytree 3 ["new"] ["old"] false Example.two_trees) <> OutOfFuel.
Proof.
  apply (copytree_returns 3 ["new"] ["old"] false Example.two_trees
           (Dir [("top.cfg", File "new top"); ("sub", Dir [("deep.cfg", File "new deep")])]));
    vm_compute; first [reflexivity | lia].
Defined.

(** ** What the copy writes *)

Module Copies.
Import Fs FsFacts FsCalls Tidy Merge MergeTree Overwrite.

(** A regular file of the source is copied when [override] is set or the
    destination has nothing of that name. *)
Lemma copy_entry_copies (recur : ospath -> ospath -> bool -> M unit)
    (src dst : list string) (ov : bool) (item data : string) (w w1 : world) :
  plain src = true -> plain_name item = true ->
  lookup (fs w) (src ++ [item]) = Some (File data) ->
  located (fs w) (dst ++ [item]) = true ->
  tidy_at (lookup (fs w) (dst ++ [item])) = true ->
  is_dir (lookup (fs w) (dst ++ [item])) = false ->
  apart src dst = true ->
  ov = true \/ lookup (fs w) (dst ++ [item]) = None ->
  copy_entry recur src dst ov item w = (Ok tt, w1) ->
  fs w1 = update (fs w) (dst ++ [item]) (Some (File data)).
Proof.
  intros Hps Hi Hsl Hd Hdt Hnd Hap Hov.
  assert (Hs : located (fs w) (src ++ [item]) = true)
    by (eapply located_of_lookup; eauto using plain_child, snoc_nonempty).
  assert (Hap2 : apart (src ++ [item]) (dst ++ [item]) = true)
    by (now apply apart_app_l, apart_app_r).
  assert (Hcopy : copy2 (src ++ [item]) (dst ++ [item]) w = (Ok tt, w1) ->
                  fs w1 = update (fs w) (dst ++ [item]) (Some (File data))).
  { intros H. apply (copy2_file _ _ _ _ data) in H as (n' & E1 & _ & E3); auto.
    - rewrite E1, E3; auto.
    - now rewrite last_name_snoc. }
  assert (Hgo : (ov || negb (exists_ (fs w) (dst ++ [item]))) = true).
  { destruct Hov as [-> | Hnone]; [reflexivity|].
    rewrite exists_located, Hnone by (auto using tidy_at_not_link).
    apply orb_true_r. }
  unfold copy_entry. unfold bind at 1. unfold test at 1.
  rewrite isdir_located; [|exact Hs|now rewrite Hsl]. rewrite Hsl.
  cbv beta iota zeta delta [is_dir]. unfold bind at 1. unfold test at 1.
  rewrite Hgo. exact Hcopy.
Qed.

(** The entry that leads to the file. *)
Lemma copy_entry_reaches (fuel : nat) (src dst : list string) (ov : bool)
    (es ds : list (string * node)) (i0 : string) (rest : list string) (c : string)
    (w w1 : world) :
  (forall s d w w',
    plain s = true ->
    (exists S, lookup (fs w) s = Some S /\ tidy S = true) ->
    located (fs w) d = true -> tidy_at (lookup (fs w) d) = true ->
    apart s d = true ->
    copytree fuel s d true w = (Ok tt, w') ->
    rest <> [] ->
    lookup (fs w) (s ++ rest) = Some (File c) ->
    is_dir (lookup (fs w) (d ++ rest)) = false ->
    lookup (fs w') (d ++ rest) = Some (File c)) ->
  plain src = true -> tidy (Dir es) = true -> apart src dst = true ->
  ov = true \/ rest <> [] \/ lookup (fs w) (dst ++ i0 :: rest) = None ->
  lookup (Dir es) (i0 :: rest) = Some (File c) ->
  lookup (fs w) src = Some (Dir es) ->
  located (fs w) dst = true -> lookup (fs w) dst = Some (Dir ds) -> tidy (Dir ds) = true ->
  is_dir (lookup (fs w) (dst ++ i0 :: rest)) = false ->
  copy_entry (copytree fuel) src dst ov i0 w = (Ok tt, w1) ->
  lookup (fs w1) (dst ++ i0 :: rest) = Some (File c).
Proof.
  intros deeper Hps Hst Hap Hov Hfile Hsl Hd Hdl Hdt Hf H1.
  assert (Hpd : plain dst = true) by (apply andb_true_iff in Hd; tauto).
  rewrite lookup_cons in Hfile.
  destruct (child es i0) as [m|] eqn:Hm; [|discriminate].
  assert (Hi : plain_name i0 = true) by (apply (tidy_child es i0 m Hst Hm)).
  assert (Hls : lookup (fs w) (src ++ [i0]) = Some m)
    by (now rewrite (lookup_child _ _ es)).
  destruct (tidy_child es i0 m Hst Hm) as [Hmt _].
  assert (Hld : located (fs w) (dst ++ [i0]) = true).
  { apply located_child; [now apply plain_child | now rewrite Hdl]. }
  assert (Htd : tidy_at (lookup (fs w) (dst ++ [i0])) = true).
  { rewrite (lookup_child _ _ ds) by assumption.
    destruct (child ds i0) eqn:Hch; auto. simpl. apply (tidy_child ds i0 n Hdt Hch). }
  destruct rest as [|y rest'].
  - rewrite lookup_nil in Hfile. injection Hfile as ->.
    assert (Hov' : ov = true \/ lookup (fs w) (dst ++ [i0]) = None).
    { destruct Hov as [Ho|[Hne|Hnone]]; auto; try (exfalso; now apply Hne). }
    apply (copy_entry_copies _ _ _ _ _ c) in H1; auto.
    rewrite H1. apply update_same; [apply snoc_nonempty|].
    unfold parent_dir. now rewrite removelast_snoc, Hdl.
  - assert (Hmd : is_dir (Some m) = true).
    { destruct m as [|ms|]; auto; discriminate. }
    apply (copy_entry_dir _ _ _ _ _ m) in H1; auto.
    rewrite lookup_snoc_cons. rewrite lookup_snoc_cons in Hf.
    apply (deeper (src ++ [i0]) (dst ++ [i0]) w w1).
    + now apply plain_child.
    + exists m. auto.
    + exact Hld.
    + exact Htd.
    + now apply apart_app_l, apart_app_r.
    + exact H1.
    + discriminate.
    + rewrite lookup_app, Hls. exact Hfile.
    + exact Hf.
Qed.

Lemma for_each_copies (fuel : nat) (src dst : list string) (ov : bool)
    (es : list (string * node)) (i0 : string) (rest : list string) (c : string) :
  (forall s d w w',
    plain s = true ->
    (exists S, lookup (fs w) s = Some S /\ tidy S = true) ->
    located (fs w) d = true -> tidy_at (lookup (fs w) d) = true ->
    apart s d = true ->
    copytree fuel s d true w = (Ok tt, w') ->
    rest <> [] ->
    lookup (fs w) (s ++ rest) = Some (File c) ->
    is_dir (lookup (fs w) (d ++ rest)) = false ->
    lookup (fs w') (d ++ rest) = Some (File c)) ->
  plain src = true -> tidy (Dir es) = true -> apart src dst = true ->
  lookup (Dir es) (i0 :: rest) = Some (File c) ->
  forall (items : list string) (w w' : world) D,
    incl items (map fst es) ->
    lookup (fs w) src = Some (Dir es) ->
    located (fs w) dst = true -> lookup (fs w) dst = Some D -> tidy D = true ->
    is_dir (lookup (fs w) (dst ++ i0 :: rest)) = false ->
    (In i0 items /\ (ov = true \/ rest <> [] \/ lookup (fs w) (dst ++ i0 :: rest) = None))
    \/ lookup (fs w) (dst ++ i0 :: rest) = Some (File c) ->
    for_each items (copy_entry (copytree fuel) src dst ov) w = (Ok tt, w') ->
    lookup (fs w') (dst ++ i0 :: rest) = Some (File c).
Proof.
  intros deeper Hps Hst Hap Hfile.
  induction items as [|item items IH]; intros w w' D Hin Hsl Hd Hdl Hdt Hf Hstate.
  - intros [= <-]. destruct Hstate as [[[] _]|H]; exact H.
  - simpl. unfold bind at 1.
    destruct (copy_entry (copytree fuel) src dst ov item w) as [[[]|e|] w1] eqn:H1;
      try discriminate.
    intros H2.
    assert (Hnd : dst <> []) by (eapply apart_nonempty_r; eauto).
    assert (Hpd : plain dst = true) by (apply andb_true_iff in Hd; tauto).
    assert (Hitem : In item (map fst es)) by (apply Hin; now left).
    assert (Hi : plain_name item = true) by (apply (tidy_names es item Hst Hitem)).
    destruct (copy_entry_merges (copytree fuel) (copytree_merges fuel) (copytree_stops fuel)
                src dst ov item w w1 es D Hps Hsl Hst Hitem Hd Hdl Hdt Hap H1)
      as (ds & n' & -> & E1 & E2).
    assert (E1' := E1). rewrite (update_child _ _ ds) in E1' by assumption.
    assert (Hdl1 : lookup (fs w1) dst = Some (Dir (put ds item n')))
      by (rewrite E1'; eapply lookup_update_here; eauto).
    assert (Hsl1 : lookup (fs w1) src = Some (Dir es))
      by (rewrite E1', update_apart; auto; now rewrite apart_sym).
    assert (Hd1 : located (fs w1) dst = true) by (eapply located_of_lookup; eauto).
    assert (Hdt1 : tidy (Dir (put ds item n')) = true) by (now apply tidy_put).
    assert (Hin1 : incl items (map fst es)) by (intros i Hi'; apply Hin; now right).
    destruct (String.eqb item i0) eqn:Heq.
    + (* the entry of the file *)
      apply String.eqb_eq in Heq. subst item.
      assert (Hdone : lookup (fs w1) (dst ++ i0 :: rest) = Some (File c)).
      { destruct Hstate as [[_ Hov]|Hthere].
        - apply (copy_entry_reaches fuel src dst ov es ds i0 rest c w w1); auto.
        - destruct rest as [|y r].
          + destruct ov.
            * apply (copy_entry_reaches fuel src dst true es ds i0 [] c w w1); auto.
            * (* the file is there and is kept *)
              assert (Hkeep : w1 = w).
              { revert H1. unfold copy_entry. unfold bind at 1. unfold test at 1.
                rewrite lookup_cons in Hfile.
                destruct (child es i0) as [m|] eqn:Hm; [|discriminate].
                rewrite lookup_nil in Hfile. injection Hfile as ->.
                assert (Hls : lookup (fs w) (src ++ [i0]) = Some (File c))
                  by (now rewrite (lookup_child _ _ es)).
                rewrite isdir_located, Hls;
                  [|eapply located_of_lookup; eauto using plain_child, snoc_nonempty
                   |now rewrite Hls].
                cbv beta iota zeta delta [is_dir]. unfold bind at 1. unfold test at 1.
                rewrite exists_located, Hthere;
                  [|apply located_child; [now apply plain_child | now rewrite Hdl]
                   |now rewrite Hthere].
                cbv beta iota delta [is_some negb orb]. now intros [= <-]. }
              rewrite Hkeep. exact Hthere.
          + apply (copy_entry_reaches fuel src dst ov es ds i0 (y :: r) c w w1); auto.
            right. left. discriminate. }
      apply (IH w1 w' (Dir (put ds i0 n')) Hin1 Hsl1 Hd1 Hdl1 Hdt1); auto.
      now rewrite Hdone.
    + (* another entry *)
      apply String.eqb_neq in Heq.
      assert (Hsame : lookup (fs w1) (dst ++ i0 :: rest) = lookup (fs w) (dst ++ i0 :: rest)).
      { replace (dst ++ i0 :: rest) with ((dst ++ [i0]) ++ rest)
          by (now rewrite <- app_assoc).
        rewrite E1. apply update_apart.
        apply apart_app_r. now apply apart_siblings. }
      apply (IH w1 w' (Dir (put ds item n')) Hin1 Hsl1 Hd1 Hdl1 Hdt1); auto.
      * now rewrite Hsame.
      * rewrite Hsame. destruct Hstate as [[[Hbad|Hin0] Hov]|Hdone]; auto.
        exfalso. now apply Heq.
Qed.

End Copies.

Import Copies.

(** A regular file of the source reaches the destination, unless a
    directory is in its place or, at the top level and without [override],
    the destination has a file of that name. *)
Lemma copytree_reaches (fuel : nat) : forall src dst ov w w' p c,
  plain src = true ->
  (exists S, lookup (fs w) src = Some S /\ tidy S = true) ->
  located (fs w) dst = true -> tidy_at (lookup (fs w) dst) = true ->
  apart src dst = true ->
  copytree fuel src dst ov w = (Ok tt, w') ->
  p <> [] ->
  lookup (fs w) (src ++ p) = Some (File c) ->
  is_dir (lookup (fs w) (dst ++ p)) = false ->
  ov = true \/ 2 <= List.length p \/ lookup (fs w) (dst ++ p) = None ->
  lookup (fs w') (dst ++ p) = Some (File c).
Proof.
  induction fuel as [|fuel IH];
    intros src dst ov w w' p c Hps (S & Hsl & Hst) Hd Hdt Hap Hrun Hp Hsf Hdf Hov;
    [discriminate|].
  destruct p as [|i0 rest]; [congruence|].
  destruct (lookup_dir_above _ _ _ _ Hsf) as [es Hes]; [discriminate|].
  rewrite Hsl in Hes. injection Hes as ->.
  assert (Hns : src <> []) by (eapply apart_nonempty_l; eauto).
  assert (Hnd : dst <> []) by (eapply apart_nonempty_r; eauto).
  assert (Hfile : lookup (Dir es) (i0 :: rest) = Some (File c))
    by (now rewrite lookup_app, Hsl in Hsf).
  assert (Hdeeper : forall s d w0 w0',
            plain s = true ->
            (exists S, lookup (fs w0) s = Some S /\ tidy S = true) ->
            located (fs w0) d = true -> tidy_at (lookup (fs w0) d) = true ->
            apart s d = true ->
            copytree fuel s d true w0 = (Ok tt, w0') ->
            rest <> [] ->
            lookup (fs w0) (s ++ rest) = Some (File c) ->
            is_dir (lookup (fs w0) (d ++ rest)) = false ->
            lookup (fs w0') (d ++ rest) = Some (File c)).
  { intros s d w0 w0' H1 H2 H3 H4 H5 H6 H7 H8 H9.
    apply (IH s d true w0 w0' rest c); auto. }
  assert (Hin0 : In i0 (map fst es)).
  { rewrite lookup_cons in Hfile.
    destruct (child es i0) eqn:Hc; [|discriminate]. eapply child_names; eauto. }
  assert (Hloop : forall w1 D,
            lookup (fs w1) src = Some (Dir es) -> located (fs w1) dst = true ->
            lookup (fs w1) dst = Some D -> tidy D = true ->
            is_dir (lookup (fs w1) (dst ++ i0 :: rest)) = false ->
            ov = true \/ rest <> [] \/ lookup (fs w1) (dst ++ i0 :: rest) = None ->
            (items <- ask (fun t => listdir t src) ;;
             for_each items (copy_entry (copytree fuel) src dst ov))%monad w1 = (Ok tt, w') ->
            lookup (fs w') (dst ++ i0 :: rest) = Some (File c)).
  { intros w1 D Hsl1 Hd1 Hdl1 Hdt1 Hdf1 Hov1. unfold bind at 1. unfold ask at 1. unfold listdir.
    rewrite stat_located, Hsl1;
      [|eapply located_of_lookup; eauto|now rewrite Hsl1].
    apply (for_each_copies fuel src dst ov es i0 rest c Hdeeper Hps Hst Hap Hfile
             (map fst es) w1 w' D); auto.
    apply incl_refl. }
  assert (Hov' : ov = true \/ rest <> [] \/ lookup (fs w) (dst ++ i0 :: rest) = None).
  { destruct Hov as [->|[Hlen|Hnone]]; auto.
    right. left. intros ->. simpl in Hlen. lia. }
  revert Hrun. cbn [copytree]. unfold bind at 1. unfold test at 1.
  rewrite exists_located by (auto using tidy_at_not_link).
  destruct (lookup (fs w) dst) as [D|] eqn:Hdl; cbv beta iota delta [is_some].
  - unfold bind at 1. unfold ret at 1. apply (Hloop w D); auto.
  - unfold bind at 1. rewrite makedirs_child by assumption. unfold sys at 1.
    rewrite mkdir_located, Hdl by assumption.
    assert (Hbelow : lookup (update (fs w) dst (Some (Dir []))) (dst ++ i0 :: rest) = None).
    { rewrite update_below by (auto; now apply located_nonempty_parent).
      reflexivity. }
    apply (Hloop _ (Dir [])).
    + rewrite fs_set_fs, update_apart; auto. now rewrite apart_sym.
    + rewrite fs_set_fs. apply located_update; auto.
    + rewrite fs_set_fs. apply update_same; auto. now apply located_nonempty_parent.
    + reflexivity.
    + rewrite fs_set_fs, Hbelow. reflexivity.
    + rewrite fs_set_fs. right. right. exact Hbelow.
Qed.

(** X18: after a copy that completes, a regular file of the source is in
    the destination under the same relative path and with the same
    content, provided the destination has no directory in its place: at
    the top level the file is written when [override] is set or the
    destination has no such file, and below the top level always. *)
Theorem copytree_copies (fuel : nat) : forall src dst ov w w' p c,
  plain src = true ->
  (exists S, lookup (fs w) src = Some S /\ tidy S = true) ->
  located (fs w) dst = true -> tidy_at (lookup (fs w) dst) = true ->
  apart src dst = true ->
  copytree fuel src dst ov w = (Ok tt, w') ->
  p <> [] ->
  lookup (fs w) (src ++ p) = Some (File c) ->
  is_dir (lookup (fs w) (dst ++ p)) = false ->
  ov = true \/ 2 <= List.length p \/ lookup (fs w) (dst ++ p) = None ->
  lookup (fs w') (dst ++ p) = Some (File c).
Proof. exact (copytree_reaches fuel). Qed.

Lemma copytree_copies_witness :
  exists w',
    copytree 5 ["new"] ["fresh"] false Example.two_trees = (Ok tt, w')
    /\ lookup (fs w') (["fresh"] ++ ["sub"; "deep.cfg"]) = Some (File "new deep").
Proof.
  let x := eval vm_compute in (copytree 5 ["new"] ["fresh"] false Example.two_trees) in
  lazymatch x with
  | (_, ?w') =>
      exists w'; split; [vm_compute; reflexivity|];
      apply (copytree_copies 5 ["new"] ["fresh"] false Example.two_trees w'
               ["sub"; "deep.cfg"] "new deep");
      try (vm_compute; reflexivity); try discriminate;
      [ exists (Dir [("top.cfg", File "new top"); ("sub", Dir [("deep.cfg", File "new deep")])]);
        split; vm_compute; reflexivity
      | right; left; vm_compute; lia ]
  end.
Defined.

(** ** Requests of the project pages and of the pack *)

Section Pages.
Variable E : environment.

(** X19: [mod_url] touches no file and starts no process. Without
    [projectID] it fails with a KeyError before any request; otherwise it
    makes one HEAD request for the page of the project, and a missing
    [fileID] is noticed only after that request was answered. *)
Theorem mod_url_keys (spec : mod_spec) (w w' : world) (r : outcome string) :
  mod_url E spec w = (r, w') ->
  fs w' = fs w /\ procs w' = procs w
  /\ match projectID spec with
     | None => r = Raise (KeyError "projectID") /\ net w' = net w
     | Some p =>
         net w' = net w ++ [Request "HEAD" (curseforge_mod_url p)]
         /\ match env_internet E (net w) "HEAD" (curseforge_mod_url p), fileID spec with
            | inl e, _ => r = Raise e
            | inr _, None => r = Raise (KeyError "fileID")
            | inr page, Some f =>
                r = Ok (clean_url E (resp_url page) ++ "/" ++ curseforge_download_path f)%string
            end
     end.
Proof.
  unfold mod_url. unfold bind at 1.
  destruct (projectID spec) as [p|]; cbn [item].
  - unfold ret at 1. unfold bind at 1. unfold urlopen at 1.
    destruct (env_internet E (net w) "HEAD" (curseforge_mod_url p)) as [e|page].
    + intros [= <- <-]. auto.
    + unfold bind at 1. destruct (fileID spec) as [f|]; cbn [item].
      * unfold ret at 1. unfold bind at 1. unfold logger at 1. unfold ret.
        intros [= <- <-]. auto.
      * unfold raise. intros [= <- <-]. auto.
  - unfold raise. intros [= <- <-]. auto.
Qed.

Lemma exists_stat fs p : exists_ fs p = true -> exists c n, stat fs p = inr (c, n).
Proof. unfold exists_. destruct (stat fs p) as [e|[c n]]; [discriminate | eauto]. Qed.

Lemma retrieve_requests (u : string) (p : PurePath.t) (w w' : world) (r : outcome unit) :
  urlretrieve E u p w = (r, w') -> requests (net w') = requests (net w) ++ [u].
Proof.
  unfold urlretrieve. unfold bind at 1. unfold urlopen at 1.
  destruct (env_internet E (net w) "GET" u) as [e|conn].
  - intros [= _ <-]. cbn [net add_net]. rewrite requests_app. reflexivity.
  - unfold bind at 1. unfold open_path at 1. cbn [fs add_net].
    destruct (open_wb (fs w) (os E p)) as [e|[t f]].
    + intros [= _ <-]. cbn [net add_net]. rewrite requests_app. reflexivity.
    + unfold transfer.
      destruct (failure conn); intros [= _ <-]; cbn [net add_net set_fs];
        rewrite !requests_app; cbn [requests flat_map app];
        rewrite app_nil_r; reflexivity.
Qed.

(** What follows the choice of the archive in lines 146-156 only adds
    to the log. *)
Lemma manifest_steady {T : Type} (obs : world -> T) (args : arguments)
    (base : PurePath.t) (pack : PurePath.t) :
  (forall w r, obs (add_log w r) = obs w) ->
  steady obs
    (modpack <- ZipFile E pack ;;
     text <- zip_read modpack "manifest.json" ;;
     m <- (fun w => match env_json_loads E text with
                    | inl e => (Raise e, w)
                    | inr m => (Ok m, w)
                    end) ;;
     n <- item "name" (name m) ;;
     v <- item "version" (pack_version m) ;;
     logger INFO "Modpack: {name} (Version {version})" [AStr n; AStr v] ;;
     mod_blacklist <-
       match exclude args with
       | Some lines =>
           let l := map Str.rstrip lines in
           logger DEBUG "Mod blacklist: {}" (map AStr l) ;;
           ret (Some l)
       | None => ret None
       end ;;
     ret (base, modpack, m, mod_blacklist))%monad.
Proof.
  intros Hobs.
  assert (Hlog : forall l t a, steady obs (logger l t a))
    by (intros; now apply steady_logger).
  apply steady_bind; [apply steady_ZipFile|]. intros z.
  apply steady_bind; [apply steady_zip_read|]. intros text.
  apply steady_bind.
  { intros w r w'. destruct (env_json_loads E text); intros [= _ <-]; reflexivity. }
  intros m.
  apply steady_bind; [apply steady_item|]. intros n.
  apply steady_bind; [apply steady_item|]. intros v.
  apply steady_bind; [apply Hlog|]. intros _.
  apply steady_bind; [|intros; apply steady_ret].
  destruct (exclude args); [|apply steady_ret].
  apply steady_bind; [apply Hlog|]. intros _. apply steady_ret.
Qed.

(** X20: with the installation directory in place, lines 130-156 ask the
    network for nothing when the pack is a local path, and make exactly
    one request, for the pack, when it is not. *)
Theorem prepare_requests (args : arguments) (tmp_dir : PurePath.t)
    (w w' : world) (r : outcome (PurePath.t * zipfile * manifest * option (list string))) :
  exists_ (fs w) (os E (PurePath.parse (dest args))) = true ->
  prepare E args tmp_dir w = (r, w') ->
  requests (net w')
  = requests (net w)
    ++ (if exists_ (fs w) (os E (PurePath.parse (pack_path args))) then []
        else [pack_path args]).
Proof.
  intros Hbase. unfold prepare.
  unfold bind at 1. unfold test at 1. rewrite Hbase.
  unfold bind at 1. unfold ret at 1.
  unfold bind at 1. unfold ask at 1.
  destruct (exists_stat _ _ Hbase) as (c & n & ->).
  unfold bind at 1. unfold test at 1.
  destruct (exists_ (fs w) (os E (PurePath.parse (pack_path args)))) eqn:Hpack.
  - unfold bind at 1. unfold bind at 1. unfold logger at 1. unfold ret at 1.
    intros Hrest. apply (manifest_steady net) in Hrest; [|reflexivity]. rewrite Hrest.
    cbn [net add_log]. now rewrite app_nil_r.
  - unfold bind at 1. unfold bind at 1. unfold logger at 1.
    unfold bind at 1.
    destruct (urlretrieve E (pack_path args) _ _) as [[[]|e|] w1] eqn:Hget;
      apply retrieve_requests in Hget; cbn [net add_log] in Hget.
    + unfold bind at 1. unfold logger at 1. unfold ret at 1.
      intros Hrest. apply (manifest_steady net) in Hrest; [|reflexivity]. rewrite Hrest.
      cbn [net add_log]. exact Hget.
    + intros [= _ <-]. exact Hget.
    + intros [= _ <-]. exact Hget.
Qed.

End Pages.

(** ** Failures after the backup *)

Section Failures.
Variable E : environment.

(** X21: once the backup step has succeeded, nothing that follows removes
    a directory of the installation, whether the installation completes or
    stops with an error: [mods], [config] and both backups are directories
    at the end.  The installer is assumed to remove no directory. *)
Theorem failed_stage_keeps_backups (fuel : nat) (args : arguments) (m : manifest)
    (modpack : zipfile) (tmp_dir mod_store : PurePath.t) (c : list string)
    (w w1 w' : world) (b : PurePath.t) (r : outcome unit) :
  spawn_keeps_dirs E ->
  plain c = true ->
  is_dir (lookup (fs w) c) = true ->
  is_dir (lookup (fs w) (c ++ ["mods"])) = true ->
  is_dir (lookup (fs w) (c ++ ["config"])) = true ->
  backup_step E ("/" :: c) w = (Ok b, w1) ->
  stage E fuel args m modpack tmp_dir ("/" :: c) mod_store w = (r, w') ->
  is_dir (lookup (fs w') (c ++ ["mods"])) = true
  /\ is_dir (lookup (fs w') (c ++ ["config"])) = true
  /\ is_dir (lookup (fs w') (c ++ ["mods.bak"])) = true
  /\ is_dir (lookup (fs w') (c ++ ["config.bak"])) = true.
Proof.
  intros Hs Hc Hd Hm Hcf Hb. unfold stage. unfold bind at 1. rewrite Hb.
  intros Hrest.
  destruct (backup_step_spec E c w w1 b Hc Hd Hb) as (_ & _ & M1 & C1 & MB & CB & _).
  pose proof (keeps_after_backup E Hs fuel args m modpack tmp_dir ("/" :: c) mod_store b
                w1 r w' Hrest) as K.
  repeat split; apply K.
  - rewrite M1. reflexivity.
  - rewrite C1. reflexivity.
  - rewrite MB. destruct (lookup (fs w) (c ++ ["mods"])); [exact Hm | discriminate].
  - rewrite CB. destruct (lookup (fs w) (c ++ ["config"])); [exact Hcf | discriminate].
Qed.


End Failures.

(** ** The installation of the store *)

Section Install.
Variable E : environment.

(** X23: a staging that completes with [keep_forge], without
    [keep_config] and for a manifest without overrides installs the store:
    every regular file of the store is in [mods] under the same relative
    path and with the same content, the previous [mods] is in [mods.bak],
    and [config] is left empty. *)
Theorem stage_installs_store (fuel : nat) (args : arguments) (m : manifest)
    (modpack : zipfile) (tmp_dir : PurePath.t) (c s : list string)
    (w w' : world) (p : list string) (data : string) :
  keep_forge args = true -> keep_config args = false -> overrides m = None ->
  plain c = true -> is_dir (lookup (fs w) c) = true ->
  plain s = true ->
  (exists S, lookup (fs w) s = Some S /\ tidy S = true) ->
  apart s (c ++ ["mods"]) = true -> apart s (c ++ ["mods.bak"]) = true ->
  apart s (c ++ ["config"]) = true -> apart s (c ++ ["config.bak"]) = true ->
  stage E fuel args m modpack tmp_dir ("/" :: c) ("/" :: s) w = (Ok tt, w') ->
  p <> [] -> lookup (fs w) (s ++ p) = Some (File data) ->
  lookup (fs w') (c ++ ["mods"] ++ p) = Some (File data)
  /\ lookup (fs w') (c ++ ["mods.bak"])
     = match lookup (fs w) (c ++ ["mods"]) with
       | Some n => Some n
       | None => lookup (fs w) (c ++ ["mods.bak"])
       end
  /\ lookup (fs w') (c ++ ["config"]) = Some (Dir []).
Proof.
  intros Hkf Hkc Ho Hc Hd Hs (S & Hsl & Hst) A1 A2 A3 A4.
  unfold stage. unfold bind at 1.
  destruct (backup_step E ("/" :: c) w) as [[b|e|] w1] eqn:Hb; try discriminate.
  destruct (backup_step_spec E c w w1 b Hc Hd Hb) as (_ & D1 & M1 & C1 & MB & CB & Hframe).
  assert (Hs1 : lookup (fs w1) s = Some S) by (rewrite Hframe; auto).
  unfold after_backup. unfold forge_step. rewrite Hkf.
  unfold bind at 1. unfold ret at 1.
  unfold bind at 1. unfold logger at 1.
  unfold bind at 1.
  change (os E ("/" :: s)) with s.
  change (os E (subdir ("/" :: c) "mods")) with (c ++ ["mods"]).
  match goal with
  | |- context [copytree fuel s (c ++ ["mods"]) true ?w0] => set (w2 := w0)
  end.
  assert (F2 : fs w2 = fs w1) by reflexivity.
  destruct (copytree fuel s (c ++ ["mods"]) true w2) as [[[]|e|] w3] eqn:Hcp;
    try discriminate.
  unfold bind at 1. unfold logger at 1.
  unfold bind at 1. unfold apply_overrides. rewrite Ho. unfold ret at 1.
  unfold bind at 1. unfold restore_config. unfold bind at 1. unfold test at 1.
  rewrite Hkc. cbn [andb]. unfold ret at 1.
  unfold bind at 1. destruct (name m) as [n|]; [|discriminate].
  unfold item at 1. unfold logger at 1.
  intros [= <-]. intros Hp Hfile. cbn [fs add_log].
  assert (Hloc : located (fs w2) (c ++ ["mods"]) = true)
    by (rewrite F2; apply located_child; [now apply plain_child|exact D1]).
  assert (Htidy : tidy_at (lookup (fs w2) (c ++ ["mods"])) = true) by (now rewrite F2, M1).
  assert (Hsrc : exists S0, lookup (fs w2) s = Some S0 /\ tidy S0 = true)
    by (rewrite F2; eauto).
  destruct (copytree_merges fuel s (c ++ ["mods"]) true w2 w3 Hs Hsrc Hloc Htidy A1 Hcp)
    as (D' & HD & _).
  split; [|split].
  - rewrite app_assoc.
    apply (copytree_reaches fuel s (c ++ ["mods"]) true w2 w3 p data Hs Hsrc Hloc Htidy A1 Hcp Hp).
    + rewrite F2, lookup_app, Hs1. rewrite lookup_app, Hsl in Hfile. exact Hfile.
    + rewrite F2, lookup_app, M1. destruct p; [congruence|reflexivity].
    + left. reflexivity.
  - rewrite HD, F2, update_apart by (apply apart_siblings; discriminate). exact MB.
  - rewrite HD, F2, update_apart by (apply apart_siblings; discriminate). exact C1.
Qed.

End Install.

(** ** An installation directory that is not there *)

(** Resolution stops with ENOENT at a missing name that is not the last
    one. *)
Lemma walk_missing fs b follow a x rest : forall cur,
  plain a = true -> plain_name x = true -> rest <> [] ->
  is_dir (lookup fs (cur ++ a)) = true -> lookup fs (cur ++ a ++ [x]) = None ->
  walk fs b follow cur (a ++ x :: rest) = inl ENOENT.
Proof.
  induction a as [|y a IH]; intros cur Hpl Hx Hr Hd Hnone.
  - simpl in *. apply plain_name_cases in Hx as [H1 H2].
    rewrite walk_cons, H1, H2, Hnone. destruct rest; [congruence|reflexivity].
  - simpl in Hpl. apply andb_true_iff in Hpl as [Hy Ha].
    apply plain_name_cases in Hy as [H1 H2].
    simpl. rewrite walk_cons, H1, H2.
    replace (cur ++ y :: a) with ((cur ++ [y]) ++ a) in Hd by (now rewrite <- app_assoc).
    replace (cur ++ (y :: a) ++ [x]) with ((cur ++ [y]) ++ a ++ [x]) in Hnone
      by (now rewrite <- app_assoc).
    rewrite lookup_app in Hd.
    destruct (lookup fs (cur ++ [y])) as [[d|es|t]|] eqn:Hm;
      try (simpl in Hd; discriminate Hd).
    + destruct a; simpl in Hd; discriminate Hd.
    + apply IH; auto. rewrite lookup_app, Hm. exact Hd.
    + destruct a; simpl in Hd; discriminate Hd.
Qed.

Lemma mkdir_missing_parent fs a x rest :
  plain a = true -> plain_name x = true -> rest <> [] ->
  is_dir (lookup fs a) = true -> lookup fs (a ++ [x]) = None ->
  mkdir fs (a ++ x :: rest) = inl ENOENT.
Proof.
  intros Ha Hx Hr Hd Hn. unfold mkdir, resolve.
  rewrite (walk_missing fs max_links false a x rest []); auto.
Qed.

Lemma exists_missing fs a x rest :
  plain a = true -> plain_name x = true ->
  is_dir (lookup fs a) = true -> lookup fs (a ++ [x]) = None ->
  exists_ fs (a ++ x :: rest) = false.
Proof.
  intros Ha Hx Hd Hn. unfold exists_, stat, stat_gen, resolve.
  destruct rest as [|y rest].
  - rewrite (walk_new_leaf fs max_links true a x []); auto. simpl. now rewrite Hn.
  - rewrite (walk_missing fs max_links true a x (y :: rest) []); auto. discriminate.
Qed.

(** [Path.mkdir(parents=True)] below an existing directory makes the
    missing directories, one inside the other. *)
Lemma mkdir_parents_creates (a : list string) (x : string) (w : world) :
  plain a = true -> plain_name x = true ->
  is_dir (lookup (fs w) a) = true -> lookup (fs w) (a ++ [x]) = None ->
  forall q ok, plain q = true ->
  exists w',
    mkdir_parents_rev ok (rev (a ++ x :: q)) w = (Ok tt, w')
    /\ lookup (fs w') (a ++ x :: q) = Some (Dir [])
    /\ (forall p, apart p (a ++ [x]) = true -> lookup (fs w') p = lookup (fs w) p)
    /\ log w' = log w /\ net w' = net w /\ procs w' = procs w.
Proof.
  intros Ha Hx Hd Hn q. induction q as [|y q0 IH] using rev_ind; intros ok Hq.
  - assert (Hloc : located (fs w) (a ++ [x]) = true).
    { apply located_child; [now apply plain_child | exact Hd]. }
    rewrite rev_unit. cbn [mkdir_parents_rev]. cbn [rev]. rewrite rev_involutive.
    unfold try_except. unfold sys at 1. rewrite mkdir_located, Hn by exact Hloc.
    eexists. split; [reflexivity|]. rewrite fs_set_fs. repeat split.
    + apply update_same; [apply snoc_nonempty|]. unfold parent_dir.
      now rewrite removelast_snoc.
    + intros p Hp. apply update_apart. now rewrite apart_sym.
  - rewrite plain_app in Hq. apply andb_true_iff in Hq as [Hq0 Hy].
    simpl in Hy. rewrite andb_true_r in Hy.
    destruct (IH true Hq0) as (w1 & Hrun & Hl & Hfr & Hlog & Hnet & Hpr).
    replace (a ++ x :: q0 ++ [y]) with ((a ++ x :: q0) ++ [y])
      by (now rewrite <- app_assoc).
    rewrite rev_unit. cbn [mkdir_parents_rev]. cbn [rev]. rewrite rev_involutive.
    unfold try_except at 1. unfold sys at 1.
    replace ((a ++ x :: q0) ++ [y]) with (a ++ x :: q0 ++ [y])
      by (now rewrite <- app_assoc).
    rewrite mkdir_missing_parent; auto; [|now destruct q0].
    replace (a ++ x :: q0 ++ [y]) with ((a ++ x :: q0) ++ [y])
      by (now rewrite <- app_assoc).
    unfold bind at 1. rewrite Hrun.
    assert (Hpl : plain ((a ++ x :: q0) ++ [y]) = true).
    { apply plain_child; auto. rewrite plain_app, Ha. simpl. now rewrite Hx, Hq0. }
    assert (Hloc : located (fs w1) ((a ++ x :: q0) ++ [y]) = true).
    { apply located_child; [exact Hpl | now rewrite Hl]. }
    assert (Hnone : lookup (fs w1) ((a ++ x :: q0) ++ [y]) = None).
    { rewrite lookup_app, Hl. reflexivity. }
    unfold try_except. unfold sys at 1. rewrite mkdir_located, Hnone by exact Hloc.
    eexists. split; [reflexivity|]. rewrite fs_set_fs. repeat split; auto.
    + apply update_same; [apply snoc_nonempty|]. unfold parent_dir.
      now rewrite removelast_snoc, Hl.
    + intros p Hp. rewrite update_apart; [now apply Hfr|].
      rewrite apart_sym.
      replace ((a ++ x :: q0) ++ [y]) with ((a ++ [x]) ++ q0 ++ [y])
        by (now rewrite <- !app_assoc).
      now apply apart_app_r.
Qed.

Lemma keeps_mkdir_parents_rev rp : forall ok, keeps_dirs (mkdir_parents_rev ok rp).
Proof.
  induction rp as [|x rp IH]; intros ok; simpl.
  - apply keeps_try; [eauto with dirs|].
    intros [| |[]| | | | |]; eauto 6 with dirs.
  - apply keeps_try; [eauto with dirs|].
    intros [| |[]| | | | |]; eauto 6 with dirs.
    apply keeps_bind; [apply IH|]. intros _.
    apply keeps_try; [eauto with dirs|].
    intros [| |[]| | | | |]; eauto 6 with dirs.
Qed.

Section Destination.
Variable E : environment.

Lemma keeps_urlretrieve u p : keeps_dirs (urlretrieve E u p).
Proof.
  unfold urlretrieve.
  apply keeps_bind; [apply keeps_urlopen|]. intros conn.
  apply keeps_bind; [apply keeps_open_wb|]. intros f. apply keeps_transfer.
Qed.

Lemma keeps_ZipFile p : keeps_dirs (ZipFile E p).
Proof.
  unfold ZipFile. apply keeps_bind; [eauto with dirs|]. intros data.
  destruct (env_unzip E data); eauto with dirs.
Qed.

Lemma keeps_zip_read z n : keeps_dirs (zip_read z n).
Proof. unfold zip_read. destruct (getinfo z n); eauto with dirs. Qed.

(** What [prepare] does once the installation directory is there. *)
Lemma keeps_located_pack (args : arguments) (tmp_dir base : PurePath.t) :
  keeps_dirs
    (pack_exists <- test (fun t => exists_ t (os E (PurePath.parse (pack_path args)))) ;;
     pack <-
       (if pack_exists then
          logger INFO "Found local modpack {}" [AStr (pack_path args)] ;;
          ret (PurePath.parse (pack_path args))
        else
          let pack := PurePath.join tmp_dir (PurePath.parse "modpack.zip") in
          logger INFO "Downloading the modpack to {} ..." [AStr (PurePath.to_string pack)] ;;
          urlretrieve E (pack_path args) pack ;;
          logger INFO "  Done" [] ;;
          ret pack) ;;
     modpack <- ZipFile E pack ;;
     text <- zip_read modpack "manifest.json" ;;
     m <- (fun w => match env_json_loads E text with
                    | inl e => (Raise e, w)
                    | inr m => (Ok m, w)
                    end) ;;
     n <- item "name" (name m) ;;
     v <- item "version" (pack_version m) ;;
     logger INFO "Modpack: {name} (Version {version})" [AStr n; AStr v] ;;
     mod_blacklist <-
       match exclude args with
       | Some lines =>
           let l := map Str.rstrip lines in
           logger DEBUG "Mod blacklist: {}" (map AStr l) ;;
           ret (Some l)
       | None => ret None
       end ;;
     ret (base, modpack, m, mod_blacklist))%monad.
Proof.
  apply keeps_bind; [apply keeps_test|]. intros pe.
  apply keeps_bind.
  { apply keeps_if.
    - apply keeps_bind; [apply keeps_logger|]. intros _. apply keeps_ret.
    - apply keeps_bind; [apply keeps_logger|]. intros _.
      apply keeps_bind; [apply keeps_urlretrieve|]. intros _.
      apply keeps_bind; [apply keeps_logger|]. intros _. apply keeps_ret. }
  intros pack.
  apply keeps_bind; [apply keeps_ZipFile|]. intros z.
  apply keeps_bind; [apply keeps_zip_read|]. intros text.
  apply keeps_bind.
  { intros w r w'. destruct (env_json_loads E text); intros [= _ <-]; apply dirs_persist_refl. }
  intros m.
  apply keeps_bind; [apply keeps_item|]. intros n.
  apply keeps_bind; [apply keeps_item|]. intros v.
  apply keeps_bind; [apply keeps_logger|]. intros _.
  apply keeps_bind; [|intros; apply keeps_ret].
  destruct (exclude args); [|apply keeps_ret].
  apply keeps_bind; [apply keeps_logger|]. intros _. apply keeps_ret.
Qed.

Ltac next_step :=
  unfold bind at 1;
  lazymatch goal with
  | |- (match ?X with pair _ _ => _ end) = _ -> _ =>
      destruct X as [[?|?|] ?] eqn:?; try discriminate
  end.

Lemma located_pack_base (args : arguments) (tmp_dir base b : PurePath.t)
    (mp : zipfile) (m : manifest) (bl : option (list string)) (w w' : world) :
  (pack_exists <- test (fun t => exists_ t (os E (PurePath.parse (pack_path args)))) ;;
   pack <-
     (if pack_exists then
        logger INFO "Found local modpack {}" [AStr (pack_path args)] ;;
        ret (PurePath.parse (pack_path args))
      else
        let pack := PurePath.join tmp_dir (PurePath.parse "modpack.zip") in
        logger INFO "Downloading the modpack to {} ..." [AStr (PurePath.to_string pack)] ;;
        urlretrieve E (pack_path args) pack ;;
        logger INFO "  Done" [] ;;
        ret pack) ;;
   modpack <- ZipFile E pack ;;
   text <- zip_read modpack "manifest.json" ;;
   m <- (fun w => match env_json_loads E text with
                  | inl e => (Raise e, w)
                  | inr m => (Ok m, w)
                  end) ;;
   n <- item "name" (name m) ;;
   v <- item "version" (pack_version m) ;;
   logger INFO "Modpack: {name} (Version {version})" [AStr n; AStr v] ;;
   mod_blacklist <-
     match exclude args with
     | Some lines =>
         let l := map Str.rstrip lines in
         logger DEBUG "Mod blacklist: {}" (map AStr l) ;;
         ret (Some l)
     | None => ret None
     end ;;
   ret (base, modpack, m, mod_blacklist))%monad w = (Ok (b, mp, m, bl), w') ->
  b = base.
Proof.
  do 9 next_step. unfold ret. intros [= <- _ _ _ _]. reflexivity.
Qed.

(** X24: when the installation directory does not exist, lines 132-135
    create it together with its missing ancestors before anything else is
    done: whatever the rest of lines 130-156 comes to, the directory is
    there afterwards, no directory that existed is gone, and the resolved
    base directory is the path that was asked for. *)
Theorem prepare_creates_dest (args : arguments) (tmp_dir : PurePath.t)
    (a q : list string) (x : string) (w w' : world)
    (r : outcome (PurePath.t * zipfile * manifest * option (list string))) :
  PurePath.parse (dest args) = "/" :: a ++ x :: q ->
  plain (a ++ x :: q) = true ->
  is_dir (lookup (fs w) a) = true -> lookup (fs w) (a ++ [x]) = None ->
  prepare E args tmp_dir w = (r, w') ->
  is_dir (lookup (fs w') (a ++ x :: q)) = true
  /\ (forall p, is_dir (lookup (fs w) p) = true -> is_dir (lookup (fs w') p) = true)
  /\ (forall base mp m bl, r = Ok (base, mp, m, bl) -> base = "/" :: a ++ x :: q).
Proof.
  intros Hdest Hpl Hd Hn.
  assert (Hpl' := Hpl). rewrite plain_app in Hpl'. apply andb_true_iff in Hpl' as [Ha Hxq].
  simpl in Hxq. apply andb_true_iff in Hxq as [Hx Hq].
  destruct (mkdir_parents_creates a x w Ha Hx Hd Hn q false Hq)
    as (w1 & Hmk & Hl & _).
  pose proof (keeps_mkdir_parents_rev _ _ _ _ _ Hmk) as K1.
  unfold prepare. rewrite Hdest. change (os E ("/" :: a ++ x :: q)) with (a ++ x :: q).
  unfold bind at 1. unfold test at 1. rewrite exists_missing by assumption.
  unfold bind at 1. rewrite Hmk.
  unfold bind at 1. unfold ask at 1.
  assert (Hloc : located (fs w1) (a ++ x :: q) = true).
  { apply (located_of_lookup _ _ (Dir [])); auto. now destruct a. }
  rewrite stat_located, Hl by (auto; now rewrite Hl).
  intros Hrest. pose proof (keeps_located_pack _ _ _ _ _ _ Hrest) as K2.
  split; [|split].
  - apply K2. now rewrite Hl.
  - intros p Hp. apply K2, K1, Hp.
  - intros base mp m bl ->. exact (located_pack_base _ _ _ _ _ _ _ _ _ Hrest).
Qed.

End Destination.

(** ** A pack that cannot be read *)

Section Validation.
Variable E : environment.

(** X25: with the installation directory in place and the pack a local
    file, lines 130-156 only read: whatever they come to, no file has
    changed, nothing was requested and no process was started.  When they
    fail (an archive that cannot be read, no [manifest.json], a manifest
    that is not JSON or lacks [name] or [version]) the run ends with that
    exception and everything but the log is as it was. *)
Theorem prepare_reads_only (fuel : nat) (args : arguments) (tmp_dir : string)
    (w w' : world) (r : outcome (PurePath.t * zipfile * manifest * option (list string))) :
  exists_ (fs w) (os E (PurePath.parse (dest args))) = true ->
  exists_ (fs w) (os E (PurePath.parse (pack_path args))) = true ->
  prepare E args (PurePath.parse tmp_dir) w = (r, w') ->
  fs w' = fs w /\ net w' = net w /\ procs w' = procs w
  /\ (forall e, r = Raise e -> run E fuel args tmp_dir w = (Raise e, w')).
Proof.
  intros Hbase Hpack Hrun.
  split; [|split; [|split]].
  4: { intros e ->. unfold run. unfold bind at 1. rewrite Hrun. reflexivity. }
  all: revert Hrun; unfold prepare;
    unfold bind at 1; unfold test at 1; rewrite Hbase;
    unfold bind at 1; unfold ret at 1;
    unfold bind at 1; unfold ask at 1;
    destruct (exists_stat _ _ Hbase) as (c & n & ->);
    unfold bind at 1; unfold test at 1; rewrite Hpack;
    unfold bind at 1; unfold bind at 1; unfold logger at 1; unfold ret at 1;
    intros Hrest.
  - apply (manifest_steady E fs) in Hrest; [|reflexivity]. exact Hrest.
  - apply (manifest_steady E net) in Hrest; [|reflexivity]. exact Hrest.
  - apply (manifest_steady E procs) in Hrest; [|reflexivity]. exact Hrest.
Qed.

End Validation.

(** ** A file in the place of a backup *)

Section Blocked.
Variable E : environment.

(** X26: a regular file under the name [mods.bak] stops the update: with a
    [mods] directory to back up, [shutil.rmtree] (line 193) fails with
    ENOTDIR on that file, and everything after the downloads ends there
    with no file changed. *)
Theorem backup_blocked_by_file (fuel : nat) (args : arguments) (m : manifest)
    (modpack : zipfile) (tmp_dir mod_store : PurePath.t) (c : list string)
    (data : string) (w : world) :
  plain c = true -> is_dir (lookup (fs w) c) = true ->
  is_some (lookup (fs w) (c ++ ["mods"])) = true ->
  not_link (lookup (fs w) (c ++ ["mods"])) = true ->
  lookup (fs w) (c ++ ["mods.bak"]) = Some (File data) ->
  stage E fuel args m modpack tmp_dir ("/" :: c) mod_store w
  = (Raise (OSError ENOTDIR), w).
Proof.
  intros Hc Hd Hm Hl Hb.
  assert (Hlm : located (fs w) (c ++ ["mods"]) = true)
    by (apply located_child; [now apply plain_child | exact Hd]).
  assert (Hlb : located (fs w) (c ++ ["mods.bak"]) = true)
    by (apply located_child; [now apply plain_child | exact Hd]).
  unfold stage, backup_step. rewrite backup_of_mods, backup_of_config.
  unfold bind at 1. unfold bind at 1. unfold ret at 1.
  unfold bind at 1. unfold ret at 1.
  unfold bind at 1. unfold backup. unfold bind at 1. unfold backup_one at 1.
  change (os E (subdir ("/" :: c) "mods")) with (c ++ ["mods"]).
  change (os E ("/" :: c ++ ["mods.bak"])) with (c ++ ["mods.bak"]).
  unfold bind at 1. unfold bind at 1. unfold test at 1.
  rewrite exists_located, Hm by assumption.
  unfold bind at 1. unfold bind at 1. unfold test at 1.
  rewrite exists_located, Hb by (auto; now rewrite Hb).
  cbn [is_some]. unfold sys at 1.
  rewrite rmtree_located, Hb by (auto; apply snoc_nonempty).
  reflexivity.
Qed.

End Blocked.

(** ** Instances of the further properties *)

Lemma download_stores_body_witness :
  exists w',
    download Cases.E (inl "http://example.org/extra.jar") Cases.store None Example.start
    = (Ok (PurePath.parse "/tmp/tmpa1b2/extra.jar"), w')
    /\ lookup (fs w') ["tmp"; "tmpa1b2"; "extra.jar"] = Some (File "extra").
Proof.
  pose (conn := {| resp_url := "http://example.org/extra.jar"; payload := "extra";
                   failure := None |}).
  destruct (download_stores_body Cases.E "http://example.org/extra.jar" conn Cases.store None
              Example.start) as (w' & H1 & H2 & _); try (vm_compute; reflexivity).
  - discriminate.
  - exists w'. split; [exact H1 | exact H2].
Defined.

Lemma download_mod_stores_witness :
  exists w',
    download_mod Cases.E (Example.spec "1" "10") Cases.store (Some ["*-dev.jar"]) Example.start
    = (Ok (Some (PurePath.parse "/tmp/tmpa1b2/alpha-1.0.jar")), w')
    /\ lookup (fs w') ["tmp"; "tmpa1b2"; "alpha-1.0.jar"] = Some (File "alpha").
Proof.
  pose (s := Example.spec "1" "10").
  let r := eval vm_compute in
    (mod_url Cases.E s (add_log Example.start
       {| log_level := DEBUG; log_template := "Starting mod {}"; log_args := [ASpec s] |})) in
  lazymatch r with
  | (Ok ?u, ?w1) =>
      let r2 := eval vm_compute in (urlopen Cases.E "GET" u w1) in
      lazymatch r2 with
      | (Ok ?conn, ?w2) =>
          destruct (download_mod_stores Cases.E s Cases.store (Some ["*-dev.jar"])
                      Example.start w1 w2 u conn) as (w' & H1 & H2);
          try (vm_compute; reflexivity); try discriminate;
          exists w'; split; [exact H1 | exact H2]
      end
  end.
Defined.

Lemma direct_downloads_submitted_witness :
  submit_bonus Cases.E [Example.extra] Cases.store [] Example.start
  = (Ok tt, [] ++ bonus_futures Cases.E Cases.store [Example.extra], Example.start)
  /\ List.length (bonus_futures Cases.E Cases.store [Example.extra]) = 1.
Proof.
  apply (direct_downloads_submitted Cases.E [Example.extra] Cases.store [] Example.start).
  reflexivity.
Defined.

Lemma forge_step_without_forge_witness :
  exists w',
    forge_step Cases.E (Example.args false false) Cases.bare Cases.store
      (PurePath.parse "/srv/mc") Example.start = (Ok tt, w')
    /\ fs w' = fs Example.start /\ net w' = [] /\ procs w' = [].
Proof.
  destruct (forge_step_without_forge Cases.E (Example.args false false) Cases.bare Cases.store
              (PurePath.parse "/srv/mc") Example.start) as (w' & H1 & H2 & H3 & H4 & _).
  - reflexivity.
  - left. reflexivity.
  - exists w'. repeat split; assumption.
Defined.

Lemma backup_step_moves_witness :
  exists w',
    backup_step Cases.E ("/" :: ["srv"; "mc"]) Example.start
    = (Ok ("/" :: ["srv"; "mc"] ++ ["config.bak"]), w')
    /\ lookup (fs w') (["srv"; "mc"] ++ ["mods"]) = Some (Dir [])
    /\ lookup (fs w') (["srv"; "mc"] ++ ["mods.bak"]) = Some (Dir [("old.jar", File "old")]).
Proof.
  let r := eval vm_compute in (backup_step Cases.E ("/" :: ["srv"; "mc"]) Example.start) in
  lazymatch r with
  | (Ok ?b, ?w') =>
      exists w';
      destruct (backup_step_moves Cases.E ["srv"; "mc"] Example.start w' b)
        as (_ & H2 & _ & H4 & _);
      try (vm_compute; reflexivity);
      split; [vm_compute; reflexivity|]; split; [exact H2 | exact H4]
  end.
Defined.

Lemma clean_url_clean_witness :
  clean_url Cases.E (clean_url Cases.E "http://minecraft.curseforge.com/projects/alpha?cookie=1")
  = clean_url Cases.E "http://minecraft.curseforge.com/projects/alpha?cookie=1".
Proof.
  apply (clean_url_clean Cases.E "http://minecraft.curseforge.com/projects/alpha?cookie=1").
  vm_compute. reflexivity.
Defined.


Lemma staging_is_offline_witness :
  exists r w',
    stage Cases.E 100 (Example.args true false) Example.pack [] Cases.store
      (PurePath.parse "/srv/mc") (PurePath.parse "/tmp/tmpa1b2/mod_store") Example.start
    = (r, w')
    /\ net w' = [] /\ procs w' = [].
Proof.
  let x := eval vm_compute in
    (stage Cases.E 100 (Example.args true false) Example.pack [] Cases.store
       (PurePath.parse "/srv/mc") (PurePath.parse "/tmp/tmpa1b2/mod_store") Example.start) in
  lazymatch x with
  | (?r, ?w') =>
      exists r, w'; split; [vm_compute; reflexivity|];
      apply (staging_is_offline Cases.E 100 (Example.args true false) Example.pack []
               Cases.store (PurePath.parse "/srv/mc")
               (PurePath.parse "/tmp/tmpa1b2/mod_store") Example.start w' r);
      vm_compute; reflexivity
  end.
Defined.

Lemma keep_forge_starts_no_process_witness :
  exists r w',
    run Cases.E 100 (Example.args true false) Example.tmp Example.start = (r, w')
    /\ procs w' = [].
Proof.
  let x := eval vm_compute in
    (run Cases.E 100 (Example.args true false) Example.tmp Example.start) in
  lazymatch x with
  | (?r, ?w') =>
      exists r, w'; split; [vm_compute; reflexivity|];
      apply (keep_forge_starts_no_process Cases.E 100 (Example.args true false) Example.tmp
               Example.start w' r);
      vm_compute; reflexivity
  end.
Defined.

Lemma link_forge_links_witness :
  exists w',
    link_forge Cases.E (Example.args false false) ("/" :: ["srv"; "mc"]) Cases.installer
      Cases.vanilla = (Ok tt, w')
    /\ lookup (fs w') (["srv"; "mc"] ++ ["minecraft_server.jar"])
       = Some (Symlink Cases.universal).
Proof.
  destruct (link_forge_links Cases.E (Example.args false false) ["srv"; "mc"] Cases.installer
              Cases.universal "minecraft_server.jar" "forge" Cases.vanilla)
    as (w' & H1 & H2 & _); try (vm_compute; reflexivity).
  exists w'. split; [exact H1 | exact H2].
Defined.

Lemma link_forge_dangling_witness :
  link_forge Cases.E (Example.args false false) ("/" :: ["srv"; "mc"]) Cases.installer
    Cases.stale = (Raise (OSError EEXIST), Cases.stale).
Proof.
  apply (link_forge_dangling Cases.E (Example.args false false) ["srv"; "mc"] Cases.installer
           Cases.universal "minecraft_server.jar" "forge-old-universal.jar" "forge"
           Cases.stale); vm_compute; reflexivity.
Defined.

Lemma mod_url_keys_witness :
  exists r w',
    mod_url Cases.E (Example.spec "1" "10") Example.start = (r, w')
    /\ fs w' = fs Example.start
    /\ net w' = [Request "HEAD" "http://minecraft.curseforge.com/mc-mods/1"].
Proof.
  let x := eval vm_compute in (mod_url Cases.E (Example.spec "1" "10") Example.start) in
  lazymatch x with
  | (?r, ?w') =>
      exists r, w';
      destruct (mod_url_keys Cases.E (Example.spec "1" "10") Example.start w' r)
        as (H1 & _ & H3 & _); [vm_compute; reflexivity|];
      split; [vm_compute; reflexivity|]; split; [exact H1 | exact H3]
  end.
Defined.

Lemma prepare_requests_witness :
  exists r w',
    prepare Cases.E (Example.args true false) Cases.store Example.start = (r, w')
    /\ requests (net w') = [].
Proof.
  let x := eval vm_compute in
    (prepare Cases.E (Example.args true false) Cases.store Example.start) in
  lazymatch x with
  | (?r, ?w') =>
      exists r, w'; split; [vm_compute; reflexivity|];
      apply (prepare_requests Cases.E (Example.args true false) Cases.store Example.start w' r);
      vm_compute; reflexivity
  end.
Defined.

Lemma failed_stage_keeps_backups_witness :
  exists w',
    stage Cases.E 100 (Example.args true false) Example.pack [] Cases.store
      (PurePath.parse "/srv/mc") (PurePath.parse "/tmp/tmpa1b2/mod_store") Example.start
    = (Raise (OSError ENOENT), w')
    /\ is_dir (lookup (fs w') (["srv"; "mc"] ++ ["mods"])) = true
    /\ is_dir (lookup (fs w') (["srv"; "mc"] ++ ["config"])) = true
    /\ is_dir (lookup (fs w') (["srv"; "mc"] ++ ["mods.bak"])) = true
    /\ is_dir (lookup (fs w') (["srv"; "mc"] ++ ["config.bak"])) = true.
Proof.
  let x := eval vm_compute in
    (stage Cases.E 100 (Example.args true false) Example.pack [] Cases.store
       (PurePath.parse "/srv/mc") (PurePath.parse "/tmp/tmpa1b2/mod_store") Example.start) in
  let y := eval vm_compute in (backup_step Cases.E (PurePath.parse "/srv/mc") Example.start) in
  lazymatch x with
  | (?r, ?w') =>
      lazymatch y with
      | (Ok ?b, ?w1) =>
          exists w'; split; [vm_compute; reflexivity|];
          apply (failed_stage_keeps_backups Cases.E 100 (Example.args true false) Example.pack []
                   Cases.store (PurePath.parse "/tmp/tmpa1b2/mod_store") ["srv"; "mc"]
                   Example.start w1 w' b r);
          [apply example_spawn_keeps_dirs | vm_compute; reflexivity ..]
      end
  end.
Defined.


Lemma stage_installs_store_witness :
  exists w',
    stage Cases.E 100 (Example.args true false) Cases.bare [] Cases.store
      ("/" :: ["srv"; "mc"]) ("/" :: ["tmp"; "tmpa1b2"; "mod_store"]) Cases.fetched
    = (Ok tt, w')
    /\ lookup (fs w') (["srv"; "mc"] ++ ["mods"] ++ ["alpha-1.0.jar"]) = Some (File "alpha").
Proof.
  let x := eval vm_compute in
    (stage Cases.E 100 (Example.args true false) Cases.bare [] Cases.store
       ("/" :: ["srv"; "mc"]) ("/" :: ["tmp"; "tmpa1b2"; "mod_store"]) Cases.fetched) in
  lazymatch x with
  | (_, ?w') =>
      exists w'; split; [vm_compute; reflexivity|];
      refine (proj1 (stage_installs_store Cases.E 100 (Example.args true false) Cases.bare []
                       Cases.store ["srv"; "mc"] ["tmp"; "tmpa1b2"; "mod_store"]
                       Cases.fetched w' ["alpha-1.0.jar"] "alpha" _ _ _ _ _ _ _ _ _ _ _ _ _ _));
      try (vm_compute; reflexivity); try discriminate;
      exists (Dir [("alpha-1.0.jar", File "alpha")]); split; vm_compute; reflexivity
  end.
Defined.

Lemma prepare_creates_dest_witness :
  exists r w',
    prepare Cases.E Cases.fresh Cases.store Example.start = (r, w')
    /\ is_dir (lookup (fs w') (["srv"] ++ "new" :: ["mc"])) = true.
Proof.
  let x := eval vm_compute in (prepare Cases.E Cases.fresh Cases.store Example.start) in
  lazymatch x with
  | (?r, ?w') =>
      exists r, w'; split; [vm_compute; reflexivity|];
      refine (proj1 (prepare_creates_dest Cases.E Cases.fresh Cases.store ["srv"] ["mc"] "new"
                       Example.start w' r _ _ _ _ _)); vm_compute; reflexivity
  end.
Defined.

Lemma prepare_reads_only_witness :
  exists w',
    run (Example.env Cases.nameless []) 100 (Example.args true false) Example.tmp Example.start
    = (Raise (KeyError "name"), w')
    /\ fs w' = Example.disk.
Proof.
  let x := eval vm_compute in
    (prepare (Example.env Cases.nameless []) (Example.args true false)
       (PurePath.parse Example.tmp) Example.start) in
  lazymatch x with
  | (?r, ?w') =>
      destruct (prepare_reads_only (Example.env Cases.nameless []) 100 (Example.args true false)
                  Example.tmp Example.start w' r) as (H1 & _ & _ & H4);
      try (vm_compute; reflexivity);
      exists w'; split; [apply H4; reflexivity | exact H1]
  end.
Defined.

Lemma backup_blocked_by_file_witness :
  stage Cases.E 100 (Example.args true false) Example.pack [] Cases.store
    ("/" :: ["srv"; "mc"]) (PurePath.parse "/tmp/tmpa1b2/mod_store") Cases.blocked
  = (Raise (OSError ENOTDIR), Cases.blocked).
Proof.
  apply (backup_blocked_by_file Cases.E 100 (Example.args true false) Example.pack []
           Cases.store (PurePath.parse "/tmp/tmpa1b2/mod_store") ["srv"; "mc"] "notes"
           Cases.blocked); vm_compute; reflexivity.
Defined.
